(** * MIC-Reader: grid fitting, colour classification and MIC lookup

    A shallow embedding of [config.py], [well_extractor.py],
    [color_classifier.py] and [mic_calculator.py], of the plate detection
    of [plate_detector.py], the heat map of [visualizer.py], the pipeline of
    [main.py] and the step validation of [test_blob_detection.py], and the
    properties of the plate-reading pipeline proved about it.

    Numbers.  The Python code computes on floats (and numpy scalars); the
    embedding computes on exact rationals [Q], so every comparison below is
    the comparison the code performs on the values it would have without
    rounding error.  A test [sqrt(a) < t] is written on squares.  A
    division of numpy scalars by zero raises nothing and gives inf or nan;
    where the code rounds such a quotient the exception of [round] is kept
    ([round_div]).

    Dictionaries are finite maps ([gmap]) keyed by [(row, col)]; a
    dictionary that the code updates in place is threaded through the loop
    that updates it.  Exceptions are values of [PyErr].

    The image enters through its shape and through the two computations
    OpenCV and numpy perform on its pixels (circle detection, colour
    statistics under a mask), which are fields of [PlateImage].  The order
    in which CPython visits a set of floats is a parameter, [set_iter]. *)

From Stdlib Require Import ZArith QArith Qround Qabs Lqa Lia List Bool Sorted.
From stdpp Require Import gmap list strings.
Import ListNotations.

(* ================================================================= *)
(** * Part I: the program *)
(* ================================================================= *)

(** ** Exceptions *)

Inductive PyErr : Type :=
  | ValueError
  | KeyError
  | IndexError
  | TypeError
  | ZeroDivisionError
  | OverflowError.

Inductive PyResult (A : Type) : Type :=
  | Ok (a : A)
  | Raise (e : PyErr).
Arguments Ok {A} a.
Arguments Raise {A} e.

Global Instance py_bind : MBind PyResult := fun A B k m =>
  match m with
  | Ok a => k a
  | Raise e => Raise e
  end.

(** A loop that builds a list and stops at the first exception. *)
Fixpoint py_mapM {A B} (f : A -> PyResult B) (l : list A) : PyResult (list B) :=
  match l with
  | [] => Ok []
  | a :: l' => b ← f a; bs ← py_mapM f l'; Ok (b :: bs)
  end.

(** A loop that updates a state and stops at the first exception. *)
Fixpoint py_foldM {A B} (f : A -> B -> PyResult A) (l : list B) (a : A) : PyResult A :=
  match l with
  | [] => Ok a
  | b :: l' => a' ← f a b; py_foldM f l' a'
  end.

(** A loop that appends to a list where its body says so, and stops at
    the first exception. *)
Fixpoint py_omapM {A B} (f : A -> PyResult (option B)) (l : list A) : PyResult (list B) :=
  match l with
  | [] => Ok []
  | a :: l' =>
      b ← f a;
      bs ← py_omapM f l';
      Ok (match b with Some b => b :: bs | None => bs end)
  end.

(** ** Numbers of Python and numpy *)

Module Num.
Local Open Scope Q_scope.

Definition Qleb (x y : Q) : bool := Qle_bool x y.
Definition Qltb (x y : Q) : bool := negb (Qle_bool y x).

(** [max(a, b)] and [min(a, b)] of Python return the first argument on
    a tie. *)
Definition py_max (a b : Q) : Q := if Qltb a b then b else a.
Definition py_min (a b : Q) : Q := if Qltb b a then b else a.

(** [np.clip(x, lo, hi)] is [minimum(maximum(x, lo), hi)]. *)
Definition np_clip (x lo hi : Q) : Q := py_min (py_max x lo) hi.

(** [round(x)]: to the nearest integer, a tie to the even one. *)
Definition py_round (x : Q) : Z :=
  let f := Qfloor x in
  let r := x - inject_Z f in
  if Qltb r (1#2) then f
  else if Qltb (1#2) r then (f + 1)%Z
  else if Z.even f then f else (f + 1)%Z.

(** [round(x, 1)]: to the nearest tenth. *)
Definition py_round1 (x : Q) : Q :=
  Qred (inject_Z (py_round (x * 10)) / 10).

(** [round(a / s)] on numpy scalars.  Dividing by a zero [s] raises
    nothing there: the quotient is inf, or nan when [a] is zero too, and it
    is [round] that raises, OverflowError on inf and ValueError on nan. *)
Definition round_div (a s : Q) : PyResult Z :=
  if Qeq_bool s 0
  then Raise (if Qeq_bool a 0 then ValueError else OverflowError)
  else Ok (py_round (a / s)).

(** [int(x)]: truncation towards zero. *)
Definition py_int (x : Q) : Z :=
  if Qltb x 0 then Qceiling x else Qfloor x.

(** [x / y] with Python's exception on a zero divisor. *)
Definition py_div (x y : Q) : PyResult Q :=
  if Qeq_bool y 0 then Raise ZeroDivisionError else Ok (x / y).

(** [sqrt(sq) < t], decided without the root. *)
Definition sqrt_lt (sq t : Q) : bool := Qltb 0 t && Qltb sq (t * t).

Definition Qsum (l : list Q) : Q := fold_right Qplus 0 l.

(** [np.mean] of a non-empty list. *)
Definition np_mean (l : list Q) : Q := Qsum l / inject_Z (Z.of_nat (length l)).

Fixpoint insert_sorted (x : Q) (l : list Q) : list Q :=
  match l with
  | [] => [x]
  | y :: l' => if Qleb x y then x :: l else y :: insert_sorted x l'
  end.

Definition sort (l : list Q) : list Q := fold_right insert_sorted [] l.

(** [np.median]: the middle of the sorted values, or the mean of the two
    middle ones.  On an empty list numpy returns nan; the code guards its
    calls, and [cv2.HoughCircles] returns [None] rather than an empty
    array, so the value here (0) is never looked at. *)
Definition np_median (l : list Q) : Q :=
  let s := sort l in
  let n := length s in
  if Nat.even n
  then (nth (n / 2 - 1) s 0 + nth (n / 2) s 0) / 2
  else nth (n / 2) s 0.

(** [x % m] on floats, for a positive [m]: the remainder of the floored
    division. *)
Definition py_fmod (x m : Q) : Q := x - m * inject_Z (Qfloor (x / m)).
End Num.

(** ** config.py *)

Module Config.
Local Open Scope Q_scope.

Definition ROWS : Z := 8.
Definition COLS : Z := 12.

Inductive RowLabel := RowA | RowB | RowC | RowD | RowE | RowF | RowG | RowH.

Definition ROW_LABELS : list RowLabel :=
  [RowA; RowB; RowC; RowD; RowE; RowF; RowG; RowH].

Inductive Antifungal := AND | MIF | CAS | POS | VOR | ITR | FLU | AMB.

Definition ANTIFUNGALS (r : RowLabel) : Antifungal :=
  match r with
  | RowA => AND | RowB => MIF | RowC => CAS | RowD => POS
  | RowE => VOR | RowF => ITR | RowG => FLU | RowH => AMB
  end.

Definition conc_low : list (option Q) :=
  map Some [4#1000; 8#1000; 16#1000; 32#1000; 64#1000; 125#1000;
            25#100; 5#10; 1; 2; 4; 8].

(** Row H has the control well in its first column. *)
Definition CONCENTRATIONS (r : RowLabel) : list (option Q) :=
  match r with
  | RowG => map Some [64#1000; 125#1000; 25#100; 5#10; 1; 2; 4; 8; 16; 32; 64; 128]
  | RowH => None :: map Some [8#1000; 16#1000; 32#1000; 64#1000; 125#1000;
                              25#100; 5#10; 1; 2; 4; 8]
  | _ => conc_low
  end.

Definition ANTIFUNGAL_FULL_NAMES (a : Antifungal) : string :=
  match a with
  | AND => "Anidulafungin" | MIF => "Micafungin" | CAS => "Caspofungin"
  | POS => "Posaconazole" | VOR => "Voriconazole" | ITR => "Itraconazole"
  | FLU => "Fluconazole" | AMB => "Amphotericin B"
  end.

Definition CONTROL_WELL : RowLabel * Z := (RowH, 0%Z).

Definition INHIBITION_THRESHOLDS (a : Antifungal) : Q :=
  match a with
  | AMB => 90#100
  | _ => 50#100
  end.

Definition WELL_MASK_RADIUS_FRACTION : Q := 45#100.
Definition RELATIVE_WEIGHT : Q := 65#100.
Definition ABSOLUTE_WEIGHT : Q := 35#100.

Global Instance RowLabel_eq_dec : EqDecision RowLabel.
Proof. solve_decision. Defined.

Global Instance Antifungal_eq_dec : EqDecision Antifungal.
Proof. solve_decision. Defined.

(** [ROW_LABELS.index(label)] *)
Fixpoint index_of (r : RowLabel) (l : list RowLabel) : Z :=
  match l with
  | [] => 0%Z
  | x :: l' => if decide (x = r) then 0%Z else (1 + index_of r l')%Z
  end.
End Config.

(** ** well_extractor.py *)

Module WellExtractor.
Import Num Config.
Local Open Scope Q_scope.

(** A row [x, y, radius] of the detector's array. *)
Record Circle := mkCircle { c_x : Q; c_y : Q; c_r : Q }.

(** An entry of the grid dictionary. *)
Record Slot := mkSlot {
  slot_cx : Q; slot_cy : Q; slot_radius : Q; slot_detected : bool }.

(** A well record, before classification.  [crop] keeps the shape
    (rows, columns) of the cropped pixel array. *)
Record Well := mkWell {
  hsv_median : Q * Q * Q;
  hsv_mean : Q * Q * Q;
  rgb_mean : Q * Q * Q;
  pixel_count : Z;
  center : Z * Z;
  cell_bounds : Z * Z * Z * Z;
  radius : Z;
  detected : bool;
  crop : Z * Z }.

(** The plate image, as far as the extractor looks at it: its shape and
    the two pixel computations that OpenCV and numpy perform on it.
    [hough blur_size param2 minDist minRadius maxRadius] is
    [cv2.HoughCircles] on the blurred grey image ([None] when it finds
    nothing); [pixel_stats (cx, cy) r sample_r bounds] is the colour
    statistics of the valid pixels under the sampling mask, [None] when
    no pixel is left.  [cv2.HoughCircles] rejects a minimum distance that
    is not positive with an exception, which [hough] does not model: the
    record stands for images of at least 19 x 13 pixels, where the minimum
    distance that [detect_circles] passes is at least 1. *)
Record PlateImage := mkPlateImage {
  img_w : Z;
  img_h : Z;
  hough : Z -> Z -> Z -> Z -> Z -> option (list Circle);
  pixel_stats : Z * Z -> Z -> Z -> Z * Z * Z * Z ->
                option ((Q * Q * Q) * (Q * Q * Q) * (Q * Q * Q) * Z) }.

Definition range (a b : Z) : list Z := seqZ a (b - a).

(** *** Circle detection *)

Definition dist_lt (a b : Circle) (d : Q) : bool :=
  sqrt_lt ((c_x a - c_x b) * (c_x a - c_x b) + (c_y a - c_y b) * (c_y a - c_y b)) d.

(** [np.mean(cluster, axis=0)] *)
Definition mean_circle (cluster : list Circle) : Circle :=
  mkCircle (np_mean (map c_x cluster)) (np_mean (map c_y cluster))
           (np_mean (map c_r cluster)).

(** The inner loop of [_deduplicate] at index [j], for the seed [ci]:
    the state is the cluster and the [used] flags. *)
Definition dedup_inner (circles : list Circle) (merge_dist : Q) (ci : Circle)
    (st : list Circle * list bool) (j : nat) : list Circle * list bool :=
  let '(cluster, used) := st in
  match used !! j, circles !! j with
  | Some false, Some cj =>
      if dist_lt ci cj merge_dist
      then (cluster ++ [cj], <[j := true]> used)
      else st
  | _, _ => st
  end.

(** The outer loop of [_deduplicate] at index [i]: the state is the
    [used] flags and the merged circles so far. *)
Definition dedup_outer (circles : list Circle) (merge_dist : Q)
    (st : list bool * list Circle) (i : nat) : list bool * list Circle :=
  let '(used, merged) := st in
  match used !! i, circles !! i with
  | Some false, Some ci =>
      let '(cluster, used') :=
        fold_left (dedup_inner circles merge_dist ci)
                  (seq (S i) (length circles - S i))
                  ([ci], <[i := true]> used) in
      (used', merged ++ [mean_circle cluster])
  | _, _ => st
  end.

Definition _deduplicate (circles : list Circle) (merge_dist : Q) : list Circle :=
  if (length circles =? 0)%nat then circles
  else snd (fold_left (dedup_outer circles merge_dist)
                      (seq 0 (length circles))
                      (replicate (length circles) false, [])).

Definition sweep : list (Z * Z) :=
  b ← [7; 9; 11]%Z; p ← [22; 28; 35]%Z; [(b, p)].

Definition expected_r (w h : Z) : Q :=
  py_min (inject_Z w / 12) (inject_Z h / 8) * (42#100).

Definition detect_circles (img : PlateImage) : list Circle * Q :=
  let w := img_w img in
  let h := img_h img in
  let expected_cell := py_min (inject_Z w / 12) (inject_Z h / 8) in
  let expected_r := expected_cell * (42#100) in
  let min_r := py_int (expected_r * (5#10)) in
  let max_r := py_int (expected_r * (13#10)) in
  let min_dist := py_int (expected_cell * (65#100)) in
  let all_circles :=
    omap (fun '(blur_size, param2) => hough img blur_size param2 min_dist min_r max_r)
         sweep in
  match all_circles with
  | [] => ([], expected_r)
  | _ =>
      let combined := concat all_circles in
      let deduped := _deduplicate combined (inject_Z min_dist * (5#10)) in
      let radii := map c_r deduped in
      let med_r := np_median radii in
      let filtered :=
        List.filter (fun c => Qleb (med_r * (6#10)) (c_r c) && Qleb (c_r c) (med_r * (14#10)))
               deduped in
      let edge_margin := med_r * (5#10) in
      let filtered :=
        List.filter (fun c => Qltb edge_margin (c_x c)
                         && Qltb (c_x c) (inject_Z w - edge_margin)
                         && Qltb edge_margin (c_y c)
                         && Qltb (c_y c) (inject_Z h - edge_margin))
               filtered in
      (filtered, med_r)
  end.
(** *** Grid fitting *)

Definition coord (axis : Z) (c : Q * Q) : Q :=
  if (axis =? 0)%Z then fst c else snd c.

(** The body of the pair loop of [_estimate_step_from_pairs]: the unit
    distance a pair votes for, [None] where the code says [continue].
    The last test is strict on exact products; on floats the products
    [0.7 * expected_step] and [1.3 * expected_step] are rounded, so that a
    unit distance on the bound itself can pass (31.5 at an expected step
    of 45): what is stated of a vote is the closed band. *)
Definition unit_dist (axis other_axis : Z) (expected_step max_other_dist : Q)
    (ci cj : Q * Q) : option Q :=
  let other_diff := Qabs (coord other_axis ci - coord other_axis cj) in
  if Qltb max_other_dist other_diff then None else
  let axis_diff := Qabs (coord axis ci - coord axis cj) in
  if Qltb axis_diff (expected_step * (5#10)) then None else
  let n_steps := py_round (axis_diff / expected_step) in
  if (n_steps <? 1)%Z || (12 <? n_steps)%Z then None else
  let unit_dist := axis_diff / inject_Z n_steps in
  if Qltb ((7#10) * expected_step) unit_dist
     && Qltb unit_dist ((13#10) * expected_step)
  then Some unit_dist else None.

Fixpoint pair_unit_dists (axis other_axis : Z) (expected_step max_other_dist : Q)
    (centers : list (Q * Q)) : list Q :=
  match centers with
  | [] => []
  | ci :: rest =>
      omap (unit_dist axis other_axis expected_step max_other_dist ci) rest
      ++ pair_unit_dists axis other_axis expected_step max_other_dist rest
  end.

Definition _estimate_step_from_pairs (centers : list (Q * Q))
    (axis other_axis : Z) (expected_step max_other_dist : Q) : option Q :=
  let unit_dists :=
    pair_unit_dists axis other_axis expected_step max_other_dist centers in
  if (length unit_dists <? 5)%nat then None
  else Some (np_median unit_dists).

Definition in_grid (row col : Z) : bool :=
  (0 <=? row)%Z && (row <? ROWS)%Z && (0 <=? col)%Z && (col <? COLS)%Z.

(** The slot a centre rounds to and its squared distance to the slot's
    predicted position; [None] when the slot is off the plate.  The
    three loops below start with this computation.  [slot_of] is its value
    for non-zero steps; [slot_of_exn] is the computation itself, with the
    exception of [round] on a zero step. *)
Definition slot_of (cx cy ox oy sx sy : Q) : option (Z * Z * Q) :=
  let col := py_round ((cx - ox) / sx) in
  let row := py_round ((cy - oy) / sy) in
  if in_grid row col then
    let pred_x := ox + inject_Z col * sx in
    let pred_y := oy + inject_Z row * sy in
    Some (row, col, (cx - pred_x) * (cx - pred_x) + (cy - pred_y) * (cy - pred_y))
  else None.

Definition slot_of_exn (cx cy ox oy sx sy : Q) : PyResult (option (Z * Z * Q)) :=
  col ← round_div (cx - ox) sx;
  row ← round_div (cy - oy) sy;
  Ok (if in_grid row col then
        let pred_x := ox + inject_Z col * sx in
        let pred_y := oy + inject_Z row * sy in
        Some (row, col, (cx - pred_x) * (cx - pred_x) + (cy - pred_y) * (cy - pred_y))
      else None).

Definition _score_grid (centers : list (Q * Q)) (ox oy sx sy : Q)
    : Z * gset (Z * Z) :=
  let threshold := py_max sx sy * (35#100) in
  fold_left
    (fun (st : Z * gset (Z * Z)) '(cx, cy) =>
       let '(score, used_slots) := st in
       match slot_of cx cy ox oy sx sy with
       | Some (row, col, err2) =>
           if sqrt_lt err2 threshold && negb (bool_decide ((row, col) ∈ used_slots))
           then ((score + 1)%Z, {[ (row, col) ]} ∪ used_slots)
           else st
       | None => st
       end)
    centers (0%Z, ∅).

(** [_score_grid] as the fitter calls it, with the exception kept. *)
Definition _score_grid_exn (centers : list (Q * Q)) (ox oy sx sy : Q)
    : PyResult (Z * gset (Z * Z)) :=
  let threshold := py_max sx sy * (35#100) in
  py_foldM
    (fun (st : Z * gset (Z * Z)) '(cx, cy) =>
       let '(score, used_slots) := st in
       slot ← slot_of_exn cx cy ox oy sx sy;
       Ok (match slot with
           | Some (row, col, err2) =>
               if sqrt_lt err2 threshold && negb (bool_decide ((row, col) ∈ used_slots))
               then ((score + 1)%Z, {[ (row, col) ]} ∪ used_slots)
               else st
           | None => st
           end))
    centers (0%Z, ∅).

(** [np.linalg.lstsq] for the design matrix with rows [1, idx]:
    intercept and slope of the least-squares line; when all indices
    are equal the matrix has rank one and the solution of minimum norm
    is returned. *)
Definition lstsq_line (idx ys : list Q) : Q * Q :=
  let n := inject_Z (Z.of_nat (length idx)) in
  let sx := Qsum idx in
  let sy := Qsum ys in
  let sxx := Qsum (map (fun i => i * i) idx) in
  let sxy := Qsum (zip_with Qmult idx ys) in
  let det := n * sxx - sx * sx in
  if Qeq_bool det 0 then
    let c := hd 0 idx in
    let m := (sy / n) / (1 + c * c) in
    (Qred m, Qred (m * c))
  else
    let slope := (n * sxy - sx * sy) / det in
    (Qred ((sy - slope * sx) / n), Qred slope).

Definition GridParams : Type := Q * Q * Q * Q.

(** The two least-squares fits of a refinement round, on the accepted
    points (row, col, cx, cy). *)
Definition refit (pts : list (Q * Q * Q * Q)) : GridParams :=
  let rows_l := map (fun t => fst (fst (fst t))) pts in
  let cols_l := map (fun t => snd (fst (fst t))) pts in
  let cxs := map (fun t => snd (fst t)) pts in
  let cys := map snd pts in
  let '(ox', sx') := lstsq_line cols_l cxs in
  let '(oy', sy') := lstsq_line rows_l cys in
  (ox', oy', sx', sy').

(** One round of the refinement loop: [None] is the [break]. *)
Definition refine_round (circles : list Circle) (threshold : Q)
    (p : GridParams) : PyResult (option GridParams) :=
  let '(ox, oy, sx, sy) := p in
  pts ← py_omapM
           (fun c =>
              slot ← slot_of_exn (c_x c) (c_y c) ox oy sx sy;
              Ok (match slot with
                  | Some (row, col, err2) =>
                      if sqrt_lt err2 threshold
                      then Some (inject_Z row, inject_Z col, c_x c, c_y c)
                      else None
                  | None => None
                  end)) circles;
  if (length pts <? 20)%nat then Ok None else Ok (Some (refit pts)).

Fixpoint refine_loop (rounds : nat) (circles : list Circle) (threshold : Q)
    (p : GridParams) : PyResult GridParams :=
  match rounds with
  | O => Ok p
  | S k =>
      r ← refine_round circles threshold p;
      match r with
      | None => Ok p
      | Some p' => refine_loop k circles threshold p'
      end
  end.

Definition _refine_grid_lsq (circles : list Circle) (ox oy sx sy : Q)
    : PyResult GridParams :=
  let threshold := py_max sx sy * (35#100) in
  refine_loop 3 circles threshold (ox, oy, sx, sy).

Definition _assign_circles (circles : list Circle) (ox oy sx sy : Q)
    : gmap (Z * Z) (Q * Q * Q) :=
  let threshold := py_max sx sy * (45#100) in
  fold_left
    (fun (assignments : gmap (Z * Z) (Q * Q * Q)) c =>
       match slot_of (c_x c) (c_y c) ox oy sx sy with
       | Some (row, col, err2) =>
           if sqrt_lt err2 threshold then
             match assignments !! (row, col) with
             | None => <[(row, col) := (c_x c, c_y c, c_r c)]> assignments
             | Some (old_cx, old_cy, _) =>
                 let pred_x := ox + inject_Z col * sx in
                 let pred_y := oy + inject_Z row * sy in
                 let old_err2 := (old_cx - pred_x) * (old_cx - pred_x)
                                 + (old_cy - pred_y) * (old_cy - pred_y) in
                 if Qltb err2 old_err2
                 then <[(row, col) := (c_x c, c_y c, c_r c)]> assignments
                 else assignments
             end
           else assignments
       | None => assignments
       end)
    circles ∅.

(** [_assign_circles] as the fitter calls it, with the exception kept. *)
Definition _assign_circles_exn (circles : list Circle) (ox oy sx sy : Q)
    : PyResult (gmap (Z * Z) (Q * Q * Q)) :=
  let threshold := py_max sx sy * (45#100) in
  py_foldM
    (fun (assignments : gmap (Z * Z) (Q * Q * Q)) c =>
       slot ← slot_of_exn (c_x c) (c_y c) ox oy sx sy;
       Ok (match slot with
           | Some (row, col, err2) =>
               if sqrt_lt err2 threshold then
                 match assignments !! (row, col) with
                 | None => <[(row, col) := (c_x c, c_y c, c_r c)]> assignments
                 | Some (old_cx, old_cy, _) =>
                     let pred_x := ox + inject_Z col * sx in
                     let pred_y := oy + inject_Z row * sy in
                     let old_err2 := (old_cx - pred_x) * (old_cx - pred_x)
                                     + (old_cy - pred_y) * (old_cy - pred_y) in
                     if Qltb err2 old_err2
                     then <[(row, col) := (c_x c, c_y c, c_r c)]> assignments
                     else assignments
                 end
               else assignments
           | None => assignments
           end))
    circles ∅.

(** The keys [(row, col)] in the order of the two nested [range] loops. *)
Definition grid_keys : list (Z * Z) :=
  row ← range 0 ROWS; col ← range 0 COLS; [(row, col)].

Definition build_grid (f : Z * Z -> Slot) : gmap (Z * Z) Slot :=
  fold_left (fun grid key => <[key := f key]> grid) grid_keys ∅.

(** A Python set of floats, as the list of its elements in the order
    they were first added. *)
Definition set_add (x : Q) (s : list Q) : list Q :=
  if existsb (Qeq_bool x) s then s else s ++ [x].

Definition origin_candidates (coords : list Q) (guesses : Z) (step expected_s : Q)
    : list Q :=
  let cands :=
    fold_left
      (fun s c =>
         fold_left
           (fun s guess =>
              let o := c - inject_Z guess * step in
              if Qltb (- step * (3#10)) o && Qltb o (step * (15#10))
              then set_add (py_round1 o) s else s)
           (range 0 guesses) s)
      coords [] in
  set_add (py_round1 (expected_s / 2)) cands.

(** *** Hue statistics *)

(** [circular_median_hue], on the hue bytes of the valid pixels: when
    hues lie on both sides of the seam of the hue circle the median is
    taken after a half turn and turned back. *)
Definition circular_median_hue (hues : list Z) : Q :=
  if existsb (fun h => (h <? 30)%Z) hues && existsb (fun h => (150 <? h)%Z) hues
  then py_fmod (np_median (map (fun h => inject_Z ((h + 90) mod 180)) hues) - 90) 180
  else np_median (map inject_Z hues).

Section Fitting.
(** The order in which a [for] loop visits a set of floats, given the
    elements in insertion order: CPython's hash order, left open. *)
Variable set_iter : list Q -> list Q.

(** The origin search: its value when no score raises, and the two
    loops themselves. *)
Definition best_origin (centers : list (Q * Q)) (candidate_ox candidate_oy : list Q)
    (step_x step_y : Q) : option (Q * Q) * Z :=
  fold_left
    (fun best ox =>
       fold_left
         (fun (best : option (Q * Q) * Z) oy =>
            let score := fst (_score_grid centers ox oy step_x step_y) in
            if (snd best <? score)%Z then (Some (ox, oy), score) else best)
         (set_iter candidate_oy) best)
    (set_iter candidate_ox) (None, (-1)%Z).

Definition best_origin_exn (centers : list (Q * Q)) (candidate_ox candidate_oy : list Q)
    (step_x step_y : Q) : PyResult (option (Q * Q) * Z) :=
  py_foldM
    (fun best ox =>
       py_foldM
         (fun (best : option (Q * Q) * Z) oy =>
            res ← _score_grid_exn centers ox oy step_x step_y;
            let score := fst res in
            Ok (if (snd best <? score)%Z then (Some (ox, oy), score) else best))
         (set_iter candidate_oy) best)
    (set_iter candidate_ox) (None, (-1)%Z).

Definition estimated_steps (circles : list Circle) (img_w img_h : Z) : Q * Q :=
  let centers := map (fun c => (c_x c, c_y c)) circles in
  let expected_sx := inject_Z img_w / 12 in
  let expected_sy := inject_Z img_h / 8 in
  let step_x := _estimate_step_from_pairs centers 0 1 expected_sx
                                          (expected_sy * (4#10)) in
  let step_y := _estimate_step_from_pairs centers 1 0 expected_sy
                                          (expected_sx * (4#10)) in
  (default expected_sx step_x, default expected_sy step_y).

Definition fit_grid_robust (circles : list Circle) (img_w img_h : Z)
    (med_radius : Q) : PyResult (gmap (Z * Z) Slot * GridParams) :=
  let centers := map (fun c => (c_x c, c_y c)) circles in
  let expected_sx := inject_Z img_w / 12 in
  let expected_sy := inject_Z img_h / 8 in
  let '(step_x, step_y) := estimated_steps circles img_w img_h in
  let candidate_ox := origin_candidates (map fst centers) COLS step_x expected_sx in
  let candidate_oy := origin_candidates (map snd centers) ROWS step_y expected_sy in
  best ← best_origin_exn centers candidate_ox candidate_oy step_x step_y;
  match fst best with
  | None => Raise TypeError
  | Some (best_ox, best_oy) =>
      params ← _refine_grid_lsq circles best_ox best_oy step_x step_y;
      let '(ox, oy, sx, sy) := params in
      assignments ← _assign_circles_exn circles ox oy sx sy;
      let grid :=
        build_grid
          (fun '(row, col) =>
             match assignments !! (row, col) with
             | Some (cx, cy, r) => mkSlot cx cy r true
             | None => mkSlot (ox + inject_Z col * sx) (oy + inject_Z row * sy)
                              med_radius false
             end) in
      Ok (grid, (ox, oy, sx, sy))
  end.

Definition _naive_grid (img_w img_h : Z) (med_radius : Q)
    : gmap (Z * Z) Slot * GridParams :=
  let sx := inject_Z img_w / inject_Z COLS in
  let sy := inject_Z img_h / inject_Z ROWS in
  let ox := sx / 2 in
  let oy := sy / 2 in
  (build_grid (fun '(r, c) =>
                 mkSlot (ox + inject_Z c * sx) (oy + inject_Z r * sy)
                        med_radius false),
   (ox, oy, sx, sy)).

(** The first half of [extract_wells]: the grid and its parameters. *)
Definition locate_grid (img : PlateImage)
    : PyResult (gmap (Z * Z) Slot * GridParams) :=
  let '(circles, med_radius) := detect_circles img in
  if (length circles <? 20)%nat
  then Ok (_naive_grid (img_w img) (img_h img) med_radius)
  else fit_grid_robust circles (img_w img) (img_h img) med_radius.
(** *** Colour sampling *)

(** The length of [a[start:stop]] for an axis of length [n]. *)
Definition py_slice_len (n start stop : Z) : Z :=
  let norm i := if (i <? 0)%Z then Z.max (i + n) 0 else Z.min i n in
  Z.max 0 (norm stop - norm start).

Definition _empty_well (cx cy : Z) (crop : Z * Z) : Well :=
  {| hsv_median := (0, 0, 0); hsv_mean := (0, 0, 0); rgb_mean := (0, 0, 0);
     pixel_count := 0; center := (cx, cy); cell_bounds := (0, 0, 0, 0)%Z;
     radius := 0; detected := false; crop := crop |}.

(** The shape of the crop taken for a slot. *)
Definition crop_shape (img : PlateImage) (gdata : Slot) : Z * Z :=
  let cx := py_int (slot_cx gdata) in
  let cy := py_int (slot_cy gdata) in
  let r := py_int (slot_radius gdata) in
  let y1 := Z.max 0 (cy - r) in
  let y2 := Z.min (img_h img) (cy + r) in
  let x1 := Z.max 0 (cx - r) in
  let x2 := Z.min (img_w img) (cx + r) in
  (py_slice_len (img_h img) y1 y2, py_slice_len (img_w img) x1 x2).

(** The body of the sampling loop of [extract_wells]. *)
Definition sample_slot (img : PlateImage) (gdata : Slot) : Well :=
  let cx := py_int (slot_cx gdata) in
  let cy := py_int (slot_cy gdata) in
  let r := py_int (slot_radius gdata) in
  let sample_r := py_int (inject_Z r * WELL_MASK_RADIUS_FRACTION) in
  let y1 := Z.max 0 (cy - r) in
  let y2 := Z.min (img_h img) (cy + r) in
  let x1 := Z.max 0 (cx - r) in
  let x2 := Z.min (img_w img) (cx + r) in
  let ch := py_slice_len (img_h img) y1 y2 in
  let cw := py_slice_len (img_w img) x1 x2 in
  if (ch <? 5)%Z || (cw <? 5)%Z then _empty_well cx cy (ch, cw)
  else
    match pixel_stats img (cx, cy) r sample_r (x1, y1, x2, y2) with
    | Some (median, mean, rgb, count) =>
        {| hsv_median := median; hsv_mean := mean; rgb_mean := rgb;
           pixel_count := count; center := (cx, cy);
           cell_bounds := (x1, y1, x2, y2); radius := r;
           detected := slot_detected gdata; crop := (ch, cw) |}
    | None => _empty_well cx cy (ch, cw)
    end.

Definition extract_wells (img : PlateImage) : PyResult (gmap (Z * Z) Well) :=
  match locate_grid img with
  | Ok (grid, _) => Ok (sample_slot img <$> grid)
  | Raise e => Raise e
  end.
End Fitting.
End WellExtractor.

(** ** color_classifier.py *)

Module ColorClassifier.
Import Num Config WellExtractor.
Local Open Scope Q_scope.

Definition PINK_THRESHOLD : Q := 50#100.
Definition PURPLE_THRESHOLD : Q := 30#100.
Definition FALLBACK_THRESHOLD : Q := 40#100.

Inductive Confidence := HIGH | MEDIUM | LOW.

(** The strings the code stores under ['classification']. *)
Inductive Classification := growth | inhibition | partial | uncertain.

Global Instance Classification_eq_dec : EqDecision Classification.
Proof. solve_decision. Defined.

(** A classified record: the sampled well and the five added entries. *)
Record ClassifiedWell := mkClassified {
  well : Well;
  growth_score : Q;
  relative_score : Q;
  absolute_score : Q;
  classification : Classification;
  confidence : Confidence }.

Definition circular_hue_distance (h1 h2 : Q) : Q :=
  let diff := Qabs (h1 - h2) in
  py_min diff (180 - diff).

Definition compute_relative_score (well_hsv well_rgb ctrl_hsv ctrl_rgb : Q * Q * Q)
    (growth_sat inhib_sat : Q) : Q :=
  let '(w_h, w_s, w_v) := well_hsv in
  let '(c_h, c_s, c_v) := ctrl_hsv in
  let '(w_r, w_g, w_b) := well_rgb in
  let '(c_r, c_g, c_b) := ctrl_rgb in
  (* Feature 1: saturation distance *)
  let sat_range := py_max (inhib_sat - growth_sat) 30 in
  let sat_normalized := (w_s - growth_sat) / sat_range in
  let sat_score := 1 - np_clip sat_normalized 0 1 in
  (* Feature 2: hue distance *)
  let hue_dist := circular_hue_distance w_h c_h in
  let hue_score := py_max 0 (1 - hue_dist / 35) in
  (* Feature 3: R-B difference *)
  let w_rb := w_r - w_b in
  let c_rb := c_r - c_b in
  let rb_score :=
    if Qltb 3 (Qabs c_rb) then
      let rb_ratio := w_rb / c_rb in
      let rb_score := np_clip rb_ratio (-(2#10)) (12#10) in
      py_max 0 (py_min 1 rb_score)
    else if Qltb 0 w_rb then 1 else 0 in
  (* Feature 4: green channel depression *)
  let w_g_ratio := w_g / ((w_r + w_g + w_b) / 3 + 1) in
  let c_g_ratio := c_g / ((c_r + c_g + c_b) / 3 + 1) in
  let g_diff := w_g_ratio - c_g_ratio in
  let g_score := np_clip (1 + g_diff * 5) 0 1 in
  let score := (40#100) * sat_score + (20#100) * hue_score
               + (20#100) * rb_score + (20#100) * g_score in
  np_clip score 0 1.

(** [compute_relative_score] with the exception of Python's float
    division kept, for the four quotients whose divisor is not a literal. *)
Definition compute_relative_score_exn (well_hsv well_rgb ctrl_hsv ctrl_rgb : Q * Q * Q)
    (growth_sat inhib_sat : Q) : PyResult Q :=
  let '(w_h, w_s, w_v) := well_hsv in
  let '(c_h, c_s, c_v) := ctrl_hsv in
  let '(w_r, w_g, w_b) := well_rgb in
  let '(c_r, c_g, c_b) := ctrl_rgb in
  let sat_range := py_max (inhib_sat - growth_sat) 30 in
  sat_normalized ← py_div (w_s - growth_sat) sat_range;
  let sat_score := 1 - np_clip sat_normalized 0 1 in
  let hue_dist := circular_hue_distance w_h c_h in
  let hue_score := py_max 0 (1 - hue_dist / 35) in
  let w_rb := w_r - w_b in
  let c_rb := c_r - c_b in
  rb_score ← (if Qltb 3 (Qabs c_rb) then
                rb_ratio ← py_div w_rb c_rb;
                let rb_score := np_clip rb_ratio (-(2#10)) (12#10) in
                Ok (py_max 0 (py_min 1 rb_score))
              else Ok (if Qltb 0 w_rb then 1 else 0));
  w_g_ratio ← py_div w_g ((w_r + w_g + w_b) / 3 + 1);
  c_g_ratio ← py_div c_g ((c_r + c_g + c_b) / 3 + 1);
  let g_diff := w_g_ratio - c_g_ratio in
  let g_score := np_clip (1 + g_diff * 5) 0 1 in
  let score := (40#100) * sat_score + (20#100) * hue_score
               + (20#100) * rb_score + (20#100) * g_score in
  Ok (np_clip score 0 1).

Definition compute_absolute_score (well_hsv well_rgb : Q * Q * Q)
    (growth_sat inhib_sat sat_mid : Q) : Q :=
  let '(h, s, v) := well_hsv in
  let '(r, g, b) := well_rgb in
  let rb_diff := r - b in
  let score := 5#10 in
  (* saturation *)
  let score :=
    if Qltb s 35 then score + (35#100)
    else if Qltb 80 s then score - (40#100)
    else if Qltb 50 s then score - (20#100)
    else let t := (s - 35) / 15 in score - t * (15#100) in
  (* hue *)
  let score :=
    if Qleb 145 h && Qleb h 165 then
      let score := score - (15#100) in
      if Qltb 60 s then score - (10#100) else score
    else if Qleb 165 h || Qleb h 12 then score + (10#100)
    else score in
  (* R-B *)
  let score :=
    if Qltb rb_diff 0 then score - (10#100)
    else if Qltb 15 rb_diff then score + (10#100)
    else score in
  (* green depression *)
  let score :=
    if Qltb g (r * (7#10)) && Qltb g (b * (8#10)) && Qltb 50 s
    then score - (15#100) else score in
  np_clip score 0 1.

Definition apply_neighbor_rules (score : Q)
    (left_class right_class : option Classification)
    : Classification * Confidence :=
  (* Rule 1: transition point *)
  if bool_decide (left_class = Some growth)
     && bool_decide (right_class = Some inhibition)
  then (inhibition, MEDIUM)
  (* Rule 2 *)
  else if bool_decide (left_class = Some growth)
          && bool_decide (right_class = Some uncertain ∨ right_class = None)
  then (growth, MEDIUM)
  (* Rule 3 *)
  else if bool_decide (left_class = Some uncertain ∨ left_class = None)
          && bool_decide (right_class = Some inhibition)
  then (inhibition, MEDIUM)
  (* Rule 4: both neighbours the same *)
  else if bool_decide (left_class = Some growth)
          && bool_decide (right_class = Some growth)
  then (growth, MEDIUM)
  else if bool_decide (left_class = Some inhibition)
          && bool_decide (right_class = Some inhibition)
  then (inhibition, MEDIUM)
  (* Rule 5: edges *)
  else if bool_decide (left_class = None)
          && bool_decide (right_class = Some inhibition)
  then (inhibition, MEDIUM)
  else if bool_decide (left_class = Some growth)
          && bool_decide (right_class = None)
  then (growth, MEDIUM)
  (* Rule 6: fallback *)
  else if Qleb FALLBACK_THRESHOLD score then (growth, LOW)
  else (inhibition, LOW).

(** The body of the two loops of [resolve_uncertain_wells]; the
    dictionary is updated in place, so a later well sees the classes
    already resolved. *)
Definition resolve_step (classified : gmap (Z * Z) ClassifiedWell) (key : Z * Z)
    : gmap (Z * Z) ClassifiedWell :=
  let '(row, col) := key in
  match classified !! (row, col) with
  | None => classified
  | Some w =>
      if bool_decide (classification w ≠ uncertain) then classified
      else
        let left := if (0 <? col)%Z then classified !! (row, (col - 1)%Z) else None in
        let right := if (col <? COLS - 1)%Z then classified !! (row, (col + 1)%Z) else None in
        let left_class := classification <$> left in
        let right_class := classification <$> right in
        let '(new_class, conf) :=
          apply_neighbor_rules (growth_score w) left_class right_class in
        <[(row, col) := mkClassified (well w) (growth_score w) (relative_score w)
                                     (absolute_score w) new_class conf]> classified
  end.

Definition resolve_uncertain_wells (classified : gmap (Z * Z) ClassifiedWell)
    : gmap (Z * Z) ClassifiedWell :=
  fold_left resolve_step grid_keys classified.

(** The calibration anchors of [classify_wells] (step 1):
    growth and inhibition saturation medians and their midpoint.  The
    medians do not depend on the order in which the wells are visited. *)
Definition calibration (wells : gmap (Z * Z) Well) (ctrl_hsv : Q * Q * Q)
    : Q * Q * Q :=
  let sat (d : Well) := snd (fst (hsv_median d)) in
  let hue (d : Well) := fst (fst (hsv_median d)) in
  let rb_diff (d : Well) := fst (fst (rgb_mean d)) - snd (rgb_mean d) in
  let is_growth d := Qltb (sat d) 35 && Qltb 10 (rb_diff d) in
  let is_inhib d := Qltb 80 (sat d) && Qleb 140 (hue d) && Qleb (hue d) 165 in
  let data := map snd (map_to_list wells) in
  let growth_profiles := List.filter is_growth data in
  let inhibition_profiles :=
    List.filter (fun d => negb (is_growth d) && is_inhib d) data in
  let growth_sat_median :=
    match growth_profiles with
    | [] => snd (fst ctrl_hsv)
    | _ => np_median (map sat growth_profiles)
    end in
  let inhib_sat_median :=
    match inhibition_profiles with
    | [] => 140
    | _ => np_median (map sat inhibition_profiles)
    end in
  (growth_sat_median, inhib_sat_median, (growth_sat_median + inhib_sat_median) / 2).

(** The body of the scoring loop of [classify_wells] (step 2). *)
Definition classify_one (ctrl_hsv ctrl_rgb : Q * Q * Q)
    (growth_sat_median inhib_sat_median sat_midpoint : Q) (data : Well)
    : ClassifiedWell :=
  let well_hsv := hsv_median data in
  let well_rgb := rgb_mean data in
  let rel_score := compute_relative_score well_hsv well_rgb ctrl_hsv ctrl_rgb
                                          growth_sat_median inhib_sat_median in
  let abs_score := compute_absolute_score well_hsv well_rgb growth_sat_median
                                          inhib_sat_median sat_midpoint in
  let growth_score := RELATIVE_WEIGHT * rel_score + ABSOLUTE_WEIGHT * abs_score in
  let growth_score := np_clip growth_score 0 1 in
  let '(classification, confidence) :=
    if Qltb PINK_THRESHOLD growth_score then (growth, HIGH)
    else if Qltb growth_score PURPLE_THRESHOLD then (inhibition, HIGH)
    else (uncertain, LOW) in
  mkClassified data growth_score rel_score abs_score classification confidence.

(** The final counting loop: [final_counts] has the keys growth,
    inhibition and partial only. *)
Definition count_final (classified : list ClassifiedWell) : PyResult (Z * Z * Z) :=
  foldl
    (fun acc data =>
       '(g, i, p) ← acc;
       match classification data with
       | growth => Ok ((g + 1)%Z, i, p)
       | inhibition => Ok (g, (i + 1)%Z, p)
       | partial => Ok (g, i, (p + 1)%Z)
       | uncertain => Raise KeyError
       end)
    (Ok (0, 0, 0)%Z) classified.

Definition control_key : Z * Z :=
  (index_of (fst CONTROL_WELL) ROW_LABELS, snd CONTROL_WELL).

(** Phase 1 of [classify_wells]: scores and threshold classes. *)
Definition initial_classification (wells : gmap (Z * Z) Well) (control_data : Well)
    : gmap (Z * Z) ClassifiedWell :=
  let ctrl_hsv := hsv_median control_data in
  let ctrl_rgb := rgb_mean control_data in
  let '(growth_sat_median, inhib_sat_median, sat_midpoint) :=
    calibration wells ctrl_hsv in
  classify_one ctrl_hsv ctrl_rgb growth_sat_median inhib_sat_median sat_midpoint
    <$> wells.

Definition classify_wells (wells : gmap (Z * Z) Well)
    : PyResult (gmap (Z * Z) ClassifiedWell) :=
  match wells !! control_key with
  | None => Raise ValueError
  | Some control_data =>
      let classified := initial_classification wells control_data in
      let classified := resolve_uncertain_wells classified in
      _ ← count_final (map snd (map_to_list classified));
      Ok classified
  end.
End ColorClassifier.

(** ** mic_calculator.py *)

Module MicCalculator.
Import Num Config WellExtractor ColorClassifier.
Local Open Scope Q_scope.

(** What the code stores under ['mic_value']: [None], a concentration,
    or the string [">c"] for the row's top concentration [c]. *)
Inductive MicValue :=
  | MicNone
  | MicNumber (c : Q)
  | MicAbove (top : option Q).

(** The strings stored under ['note']. *)
Inductive Note :=
  | NoteEmpty
  | NoteAbove (top : option Q) (edge_artifact : bool)
  | NoteUndetermined
  | NoteAtMost (c : Q).

Record MicResult := mkMicResult {
  row : RowLabel;
  antifungal : Antifungal;
  antifungal_name : string;
  mic_value : MicValue;
  mic_column : option Z;
  inhibition_threshold : Q;
  well_scores : list (option Q);
  note : Note }.

(** [l[i]] for a Python list. *)
Definition py_index {A} (l : list A) (i : Z) : PyResult A :=
  let j := if (i <? 0)%Z then (i + Z.of_nat (length l))%Z else i in
  if (j <? 0)%Z then Raise IndexError
  else match l !! Z.to_nat j with
       | Some a => Ok a
       | None => Raise IndexError
       end.

(** The relative inhibition of a well, as the scan computes it. *)
Definition inhibition_of (ctrl_growth_score score : Q) : PyResult Q :=
  inhibition ← (if Qltb (1#100) ctrl_growth_score
                then q ← py_div score ctrl_growth_score; Ok (1 - q)
                else Ok 0);
  Ok (py_max 0 inhibition).

(** The threshold scan over the columns still to visit: the found
    concentration and column, both [None] when the loop runs out. *)
Fixpoint scan_row (well_scores concentrations : list (option Q))
    (ctrl_growth_score threshold : Q) (cols : list Z)
    : PyResult (option Q * option Z) :=
  match cols with
  | [] => Ok (None, None)
  | col_idx :: rest =>
      score ← py_index well_scores col_idx;
      match score with
      | None => scan_row well_scores concentrations ctrl_growth_score threshold rest
      | Some score =>
          inhibition ← inhibition_of ctrl_growth_score score;
          if Qleb threshold inhibition then
            conc ← py_index concentrations col_idx;
            Ok (conc, Some col_idx)
          else scan_row well_scores concentrations ctrl_growth_score threshold rest
      end
  end.

Definition sat_of (d : ClassifiedWell) : Q := snd (fst (hsv_median (well d))).

(** The column-12 edge artifact flag. *)
Definition edge_artifact (classified_wells : gmap (Z * Z) ClassifiedWell) : bool :=
  let col12_sats := omap (fun r => sat_of <$> classified_wells !! (r, 11%Z)) (range 0 ROWS) in
  let col11_sats := omap (fun r => sat_of <$> classified_wells !! (r, 10%Z)) (range 0 ROWS) in
  match col12_sats, col11_sats with
  | _ :: _, _ :: _ =>
      let med_12 := np_median col12_sats in
      let med_11 := np_median col11_sats in
      Qltb med_12 25 && Qltb (med_12 * (15#10)) med_11
  | _, _ => false
  end.

(** The body of the row loop of [calculate_mic]. *)
Definition mic_row (classified_wells : gmap (Z * Z) ClassifiedWell)
    (ctrl_growth_score : Q) (col12_edge_artifact : bool) (row_idx : Z)
    : PyResult MicResult :=
  row_label ← py_index ROW_LABELS row_idx;
  let antifungal := ANTIFUNGALS row_label in
  let full_name := ANTIFUNGAL_FULL_NAMES antifungal in
  let concentrations := CONCENTRATIONS row_label in
  let threshold := INHIBITION_THRESHOLDS antifungal in
  let well_scores :=
    map (fun col_idx => growth_score <$> classified_wells !! (row_idx, col_idx))
        (range 0 COLS) in
  let start_col := if decide (row_label = RowH) then 1%Z else 0%Z in
  '(found, mic_column) ←
    scan_row well_scores concentrations ctrl_growth_score threshold
             (range start_col COLS);
  let tail_scores := drop (Z.to_nat start_col) well_scores in
  let all_growing :=
    forallb (fun s => match s with Some s => Qltb (5#10) s | None => false end)
            tail_scores in
  '(mic_value, note) ←
    match found with
    | None =>
        if all_growing then
          top ← py_index concentrations (-1);
          Ok (MicAbove top, NoteAbove top col12_edge_artifact)
        else Ok (MicNone, NoteUndetermined)
    | Some c => Ok (MicNumber c, NoteEmpty)
    end;
  let note :=
    match mic_value with
    | MicNumber c => if bool_decide (mic_column = Some start_col) then NoteAtMost c else note
    | _ => note
    end in
  Ok (mkMicResult row_label antifungal full_name mic_value mic_column threshold
                  well_scores note).

Definition calculate_mic (classified_wells : gmap (Z * Z) ClassifiedWell)
    : PyResult (list MicResult) :=
  match classified_wells !! control_key with
  | None => Raise ValueError
  | Some ctrl_data =>
      let ctrl_growth_score := growth_score ctrl_data in
      let col12_edge_artifact := edge_artifact classified_wells in
      py_mapM (mic_row classified_wells ctrl_growth_score col12_edge_artifact)
              (range 0 ROWS)
  end.
End MicCalculator.

(** ** plate_detector.py *)

Module PlateDetector.
Import Num WellExtractor.
Local Open Scope Z_scope.

(** [np.argmin] and [np.argmax]: the first index of the least, of the
    greatest value. *)
Fixpoint argmin_from (best_i : nat) (best : Z) (i : nat) (l : list Z) : nat :=
  match l with
  | [] => best_i
  | x :: l' =>
      if x <? best then argmin_from i x (S i) l' else argmin_from best_i best (S i) l'
  end.

Definition argmin (l : list Z) : nat :=
  match l with
  | [] => O
  | x :: l' => argmin_from O x 1%nat l'
  end.

Fixpoint argmax_from (best_i : nat) (best : Z) (i : nat) (l : list Z) : nat :=
  match l with
  | [] => best_i
  | x :: l' =>
      if best <? x then argmax_from i x (S i) l' else argmax_from best_i best (S i) l'
  end.

Definition argmax (l : list Z) : nat :=
  match l with
  | [] => O
  | x :: l' => argmax_from O x 1%nat l'
  end.

(** The four corners as top-left, top-right, bottom-right, bottom-left. *)
Definition order_points (pts : list (Z * Z)) : list (Z * Z) :=
  let s := map (fun p => fst p + snd p) pts in
  let d := map (fun p => snd p - fst p) pts in
  [nth (argmin s) pts (0, 0); nth (argmin d) pts (0, 0);
   nth (argmax s) pts (0, 0); nth (argmax d) pts (0, 0)].

Definition norm2 (p q : Z * Z) : Z :=
  (fst p - fst q) * (fst p - fst q) + (snd p - snd q) * (snd p - snd q).

(** The plate region [detect_plate] returns: a copy of the image, the
    warp of a quadrilateral onto a [max_w] x [max_h] image, or a crop. *)
Inductive Plate :=
  | FullImage
  | Warped (rect : list (Z * Z)) (max_w max_h : Z)
  | Cropped (x y w h : Z).

(** The size of the warp: [int(max(w1, w2))] of two Euclidean norms of
    integer vectors is the integer square root of the larger squared
    norm. *)
Definition four_point_transform (pts : list (Z * Z)) : Plate :=
  let tl := nth 0 pts (0, 0) in
  let tr := nth 1 pts (0, 0) in
  let br := nth 2 pts (0, 0) in
  let bl := nth 3 pts (0, 0) in
  let max_w := Z.sqrt (Z.max (norm2 br bl) (norm2 tr tl)) in
  let max_h := Z.sqrt (Z.max (norm2 tr br) (norm2 tl bl)) in
  Warped pts max_w max_h.

(** A contour, as far as [detect_plate] looks at it: [cv2.contourArea],
    the polygon of [cv2.approxPolyDP] and [cv2.boundingRect]. *)
Record Contour := mkContour {
  area : Q;
  approx : list (Z * Z);
  bounding : Z * Z * Z * Z }.

(** [sorted(contours, key=cv2.contourArea, reverse=True)]: stable. *)
Fixpoint insert_by_area (c : Contour) (l : list Contour) : list Contour :=
  match l with
  | [] => [c]
  | y :: l' => if Qltb (area c) (area y) then y :: insert_by_area c l' else c :: l
  end.

Definition sort_by_area (l : list Contour) : list Contour :=
  fold_right insert_by_area [] l.

Definition detect_plate (img_h img_w : Z) (contours : list Contour) : PyResult Plate :=
  match contours with
  | [] => Ok FullImage
  | _ =>
      let contours := sort_by_area contours in
      match List.find (fun cnt => (length (approx cnt) =? 4)%nat) (take 5 contours) with
      | Some cnt => Ok (four_point_transform (order_points (approx cnt)))
      | None =>
          match contours with
          | [] => Raise IndexError
          | c0 :: _ =>
              let '(x, y, w, h) := bounding c0 in
              let pad := 5 in
              let x := Z.max 0 (x - pad) in
              let y := Z.max 0 (y - pad) in
              let w := Z.min (img_w - x) (w + 2 * pad) in
              let h := Z.min (img_h - y) (h + 2 * pad) in
              aspect ← py_div (inject_Z w) (inject_Z h);
              if Qltb (12#10) aspect && Qltb aspect (18#10)
              then Ok (Cropped x y w h)
              else Ok FullImage
          end
      end
  end.

(** The shape (rows, columns) of the returned plate image. *)
Definition plate_shape (img_h img_w : Z) (p : Plate) : Z * Z :=
  match p with
  | FullImage => (img_h, img_w)
  | Warped _ max_w max_h => (max_h, max_w)
  | Cropped x y w h => (py_slice_len img_h y (y + h), py_slice_len img_w x (x + w))
  end.
End PlateDetector.

(** ** visualizer.py *)

Module Visualizer.
Import Num Config WellExtractor ColorClassifier.
Local Open Scope Z_scope.

Definition cell_size : Z := 60.
Definition margin : Z := 80.
Definition heatmap_w : Z := COLS * cell_size + margin.
Definition heatmap_h : Z := ROWS * cell_size + margin.

(** What [create_score_heatmap] draws for one well: the rectangle
    [(x1, y1, x2, y2)], its fill colour (B, G, R) and the colour of the
    score text. *)
Record HeatCell := mkHeatCell {
  rect : Z * Z * Z * Z;
  fill : Z * Z * Z;
  text_color : Z * Z * Z }.

Definition heatmap_cell (row col : Z) (score : Q) : HeatCell :=
  let r_val := py_int (255 * (1 - score))%Q in
  let g_val := py_int (255 * score)%Q in
  let b_val := 0 in
  let x1 := margin + col * cell_size + 2 in
  let y1 := margin + row * cell_size + 2 in
  let x2 := x1 + cell_size - 4 in
  let y2 := y1 + cell_size - 4 in
  mkHeatCell (x1, y1, x2, y2) (b_val, g_val, r_val)
             (if Qltb score (5#10) then (255, 255, 255) else (0, 0, 0)).

(** The cells drawn, in the order of the two loops; a missing well is
    skipped. *)
Definition create_score_heatmap (classified_wells : gmap (Z * Z) ClassifiedWell)
    : list HeatCell :=
  omap (fun '(row, col) =>
          match classified_wells !! (row, col) with
          | None => None
          | Some data => Some (heatmap_cell row col (growth_score data))
          end) grid_keys.
End Visualizer.

(** ** main.py *)

Module Main.
Import Num Config WellExtractor ColorClassifier MicCalculator.

(** Steps 3 to 5 of [run_pipeline], on the plate image: extraction,
    classification, the count of the classes, and the MIC table. *)
Definition run_pipeline (set_iter : list Q -> list Q) (plate : PlateImage)
    : PyResult (list MicResult * gmap (Z * Z) ClassifiedWell) :=
  match extract_wells set_iter plate with
  | Raise e => Raise e
  | Ok wells =>
      match classify_wells wells with
      | Raise e => Raise e
      | Ok classified =>
          match count_final (map snd (map_to_list classified)) with
          | Raise e => Raise e
          | Ok _ =>
              match calculate_mic classified with
              | Raise e => Raise e
              | Ok results => Ok (results, classified)
              end
          end
      end
  end.
End Main.

(** ** test_blob_detection.py *)

Module BlobFit.
Import Num Config WellExtractor.
Local Open Scope Q_scope.

(** The step estimates of [fit_grid_from_blob_centers] after the ratio
    validation: outside [0.85, 1.15] both are replaced by their
    average. *)
Definition validated_steps (centers : list (Q * Q)) (expected_sx expected_sy : Q)
    : PyResult (Q * Q) :=
  let step_x := default expected_sx
                  (_estimate_step_from_pairs centers 0 1 expected_sx (expected_sy * (4#10))) in
  let step_y := default expected_sy
                  (_estimate_step_from_pairs centers 1 0 expected_sy (expected_sx * (4#10))) in
  step_ratio ← py_div step_x step_y;
  if Qltb step_ratio (85#100) || Qltb (115#100) step_ratio
  then let avg_step := (step_x + step_y) / 2 in Ok (avg_step, avg_step)
  else Ok (step_x, step_y).

End BlobFit.

(* ================================================================= *)
(** * Part II: vocabulary of the statements and sample inputs *)
(* ================================================================= *)

Section Vocabulary.
Import Num Config WellExtractor ColorClassifier MicCalculator.
Local Open Scope Q_scope.

(** The median saturation of a well record. *)
Definition sat (d : Well) : Q := snd (fst (hsv_median d)).

(** The classes of the neighbours that a resolution step reads. *)
Definition left_class (m : gmap (Z * Z) ClassifiedWell) (r c : Z) : option Classification :=
  classification <$> (if (0 <? c)%Z then m !! (r, (c - 1)%Z) else None).

Definition right_class (m : gmap (Z * Z) ClassifiedWell) (r c : Z) : option Classification :=
  classification <$> (if (c <? COLS - 1)%Z then m !! (r, (c + 1)%Z) else None).

(** Grouping around seeds, as a recursion on the candidates still to
    place: the first one is the seed of a group that takes every later
    candidate closer than [merge_dist] to the seed.  [fuel] bounds the number
    of groups. *)
Fixpoint seed_groups (fuel : nat) (merge_dist : Q) (l : list Circle) : list (list Circle) :=
  match fuel, l with
  | S fuel', seed :: rest =>
      (seed :: List.filter (fun c => dist_lt seed c merge_dist) rest)
      :: seed_groups fuel' merge_dist
           (List.filter (fun c => negb (dist_lt seed c merge_dist)) rest)
  | _, _ => []
  end.

(** The circles not yet used, for a suffix of the array and of the flags. *)
Fixpoint pending (cs : list Circle) (us : list bool) : list Circle :=
  match cs, us with
  | c :: cs', u :: us' => if u then pending cs' us' else c :: pending cs' us'
  | _, _ => []
  end.

(** A 1200 x 800 image in which the detector finds no circle. *)
Definition blank_image : PlateImage :=
  mkPlateImage 1200 800 (fun _ _ _ _ _ => None) (fun _ _ _ _ => None).

(** A 48 x 32 image in which the detector finds no circle: the cells of
    the naive grid are 4 pixels wide and high, the detector's minimum
    distance is 2, and every crop has 2 rows. *)
Definition small_image : PlateImage :=
  mkPlateImage 48 32 (fun _ _ _ _ _ => None) (fun _ _ _ _ => None).

(** The slot of row 0 and column 1 in the naive grid of [small_image]. *)
Definition small_slot : Slot := mkSlot 6 2 (168#100) false.

(** Twenty-four candidates on two rows 80 pixels apart, 100 pixels from
    column to column, in a 1200 x 800 image. *)
Definition offpitch_circles : list Circle :=
  y ← [50; 130]; c ← range 0 12; [mkCircle (50 + 100 * inject_Z c) y 40].

(** A sampled well of saturation [s]. *)
Definition demo_well (s : Q) : Well :=
  mkWell (170, s, 200) (170, s, 200) (200, 150, 180) 100 (10, 10)%Z
         (0, 0, 20, 20)%Z 10 true (20, 20)%Z.

(** The control well and one more well. *)
Definition demo_wells : gmap (Z * Z) Well :=
  <[(7, 0)%Z := demo_well 30]> (<[(0, 1)%Z := demo_well 60]> ∅).

(** The control well and a well sampled from an empty crop. *)
Definition small_wells : gmap (Z * Z) Well :=
  <[(7, 0)%Z := demo_well 30]> (<[(0, 1)%Z := sample_slot small_image small_slot]> ∅).

(** A row after phase 1: growth, an uncertain well of score [s],
    inhibition. *)
Definition demo_transition (s : Q) : gmap (Z * Z) ClassifiedWell :=
  <[(0, 0)%Z := mkClassified (demo_well 30) (80#100) (80#100) (80#100) growth HIGH]>
  (<[(0, 1)%Z := mkClassified (demo_well 60) s s s uncertain LOW]>
  (<[(0, 2)%Z := mkClassified (demo_well 90) (10#100) (10#100) (10#100) inhibition HIGH]> ∅)).

(** A classified plate with the control well at score [ctrl_score] and
    one well of score 0.20 in row A. *)
Definition demo_scored (ctrl_score : Q) : gmap (Z * Z) ClassifiedWell :=
  <[(7, 0)%Z := mkClassified (demo_well 30) ctrl_score ctrl_score ctrl_score growth HIGH]>
  (<[(0, 0)%Z := mkClassified (demo_well 90) (20#100) (20#100) (20#100) inhibition HIGH]> ∅).

(** Colour means as means of channel bytes are: not negative. *)
Definition rgb_nonneg (rgb : Q * Q * Q) : Prop :=
  0 <= fst (fst rgb) /\ 0 <= snd (fst rgb) /\ 0 <= snd rgb.

(** A 1200 x 800 image in which every sweep finds the same circle. *)
Definition one_circle_image : PlateImage :=
  mkPlateImage 1200 800 (fun _ _ _ _ _ => Some [mkCircle 600 400 40])
               (fun _ _ _ _ => None).

(** A bounding rectangle [(x, y, w, h)] as [cv2.boundingRect] gives it:
    not empty and inside the image. *)
Definition valid_bounding (img_h img_w : Z) (b : Z * Z * Z * Z) : Prop :=
  let '(x, y, w, h) := b in
  (0 <= x /\ 0 <= y /\ 1 <= w /\ 1 <= h /\ x + w <= img_w /\ y + h <= img_h)%Z.

(** The corners of a square standing on a corner: left, top, right,
    bottom (the image's y axis points down). *)
Definition diamond (cx cy a : Z) : list (Z * Z) :=
  [(cx - a, cy); (cx, cy - a); (cx + a, cy); (cx, cy + a)]%Z.

(** The points (row, col, cx, cy) that a refinement round accepts under
    the parameters [p], computed for non-zero steps. *)
Definition accepted (circles : list Circle) (threshold : Q) (p : GridParams)
    : list (Q * Q * Q * Q) :=
  let '(ox, oy, sx, sy) := p in
  omap (fun c =>
          match slot_of (c_x c) (c_y c) ox oy sx sy with
          | Some (row, col, err2) =>
              if sqrt_lt err2 threshold
              then Some (inject_Z row, inject_Z col, c_x c, c_y c)
              else None
          | None => None
          end) circles.

(** The parameters the refinement loop meets with [rounds] rounds to go:
    [p], and after each round that accepts at least 20 circles the refit
    of the accepted points.  Every one of them is divided by: in the round
    that starts from it, or, for the last, in the final assignment. *)
Fixpoint refinement_trace (rounds : nat) (circles : list Circle) (threshold : Q)
    (p : GridParams) : list GridParams :=
  match rounds with
  | O => [p]
  | S k =>
      if (length (accepted circles threshold p) <? 20)%nat then [p]
      else p :: refinement_trace k circles threshold (refit (accepted circles threshold p))
  end.

(** Both steps of a parameter tuple (ox, oy, sx, sy) are non-zero. *)
Definition nonzero_steps (p : GridParams) : Prop :=
  ~ snd (fst p) == 0 /\ ~ snd p == 0.

(** [a + b x] is a least-squares line through the points (x, y): the
    residuals add up to zero, also when each is weighted by its x (the
    normal equations). *)
Definition least_squares (pts : list (Q * Q)) (a b : Q) : Prop :=
  Qsum (map (fun t => snd t - (a + b * fst t)) pts) == 0
  /\ Qsum (map (fun t => fst t * (snd t - (a + b * fst t))) pts) == 0.

(** Twenty-four candidates on one row, two for each column, in a
    1200 x 800 image. *)
Definition one_row_circles : list Circle :=
  c ← range 0 12; d ← [0; 10]; [mkCircle (50 + 100 * inject_Z c + d) 50 40].

(** The exceptions of [round] on a quotient by zero. *)
Definition round_error (e : PyErr) : Prop := e = OverflowError \/ e = ValueError.

(** The update of the origin search: a candidate replaces the best one
    when its score is higher. *)
Definition keep_best {A} (score : A -> Z) (best : option A * Z) (x : A) : option A * Z :=
  if (snd best <? score x)%Z then (Some x, score x) else best.

End Vocabulary.

(* ================================================================= *)
(** * Part III: properties *)
(* ================================================================= *)

(** ** Comparisons and rounding *)

Section NumFacts.
Import Num.
Local Open Scope Q_scope.

Lemma Qleb_true x y : Qleb x y = true <-> x <= y.
Proof. apply Qle_bool_iff. Qed.

Lemma Qleb_false x y : Qleb x y = false <-> y < x.
Proof.
  unfold Qleb. rewrite <- not_true_iff_false, Qle_bool_iff.
  split; [apply Qnot_le_lt | apply Qlt_not_le].
Qed.

Lemma Qltb_true x y : Qltb x y = true <-> x < y.
Proof. unfold Qltb. rewrite negb_true_iff. apply Qleb_false. Qed.

Lemma Qltb_false x y : Qltb x y = false <-> y <= x.
Proof. unfold Qltb. rewrite negb_false_iff. apply Qleb_true. Qed.

Lemma py_max_ge_l a b : a <= py_max a b.
Proof.
  unfold py_max. destruct (Qltb a b) eqn:E; [|lra].
  apply Qltb_true in E. lra.
Qed.

Lemma py_max_ge_r a b : b <= py_max a b.
Proof.
  unfold py_max. destruct (Qltb a b) eqn:E; [lra|].
  apply Qltb_false in E. lra.
Qed.

Lemma py_max_mono a a' b : a <= a' -> py_max a b <= py_max a' b.
Proof.
  intros Ha. unfold py_max.
  destruct (Qltb a b) eqn:E1, (Qltb a' b) eqn:E2;
    rewrite ?Qltb_true, ?Qltb_false in *; lra.
Qed.

Lemma py_min_mono a a' b : a <= a' -> py_min a b <= py_min a' b.
Proof.
  intros Ha. unfold py_min.
  destruct (Qltb b a) eqn:E1, (Qltb b a') eqn:E2;
    rewrite ?Qltb_true, ?Qltb_false in *; lra.
Qed.

Lemma np_clip_mono x x' lo hi : x <= x' -> np_clip x lo hi <= np_clip x' lo hi.
Proof. intros Hx. unfold np_clip. by apply py_min_mono, py_max_mono. Qed.

Lemma np_clip_bounds x lo hi : lo <= hi -> lo <= np_clip x lo hi <= hi.
Proof.
  intros Hlh. unfold np_clip, py_min, py_max.
  destruct (Qltb x lo) eqn:E1;
    [destruct (Qltb hi lo) eqn:E2 | destruct (Qltb hi x) eqn:E2];
    rewrite ?Qltb_true, ?Qltb_false in *; lra.
Qed.

Lemma np_clip_id x lo hi : lo <= x -> x <= hi -> np_clip x lo hi == x.
Proof.
  intros H1 H2. unfold np_clip, py_min, py_max.
  destruct (Qltb x lo) eqn:E1;
    [destruct (Qltb hi lo) eqn:E2 | destruct (Qltb hi x) eqn:E2];
    rewrite ?Qltb_true, ?Qltb_false in *; lra.
Qed.
End NumFacts.

(** ** The grid dictionary *)

Section GridFacts.
Import Num Config WellExtractor.

Lemma fold_insert_lookup {V} (f : Z * Z -> V) (keys : list (Z * Z))
    (m : gmap (Z * Z) V) (k : Z * Z) :
  fold_left (fun g key => <[key := f key]> g) keys m !! k
  = if decide (k ∈ keys) then Some (f k) else m !! k.
Proof.
  revert m. induction keys as [|a keys IH]; intros m; cbn [fold_left].
  - rewrite decide_False; [done | apply not_elem_of_nil].
  - rewrite IH. destruct (decide (k ∈ keys)) as [Hin|Hin].
    + rewrite decide_True; [done | by right].
    + destruct (decide (a = k)) as [->|Hne].
      * rewrite lookup_insert_eq, decide_True; [done | by left].
      * rewrite lookup_insert_ne by done.
        rewrite decide_False; [done|].
        intros [->|?]%elem_of_cons; done.
Qed.

Lemma elem_of_grid_keys (r c : Z) :
  (r, c) ∈ grid_keys <-> (0 <= r < ROWS)%Z /\ (0 <= c < COLS)%Z.
Proof.
  unfold grid_keys, range. rewrite list_elem_of_bind. split.
  - intros (r' & Hc & Hr). apply list_elem_of_bind in Hc as (c' & Hrc & Hc).
    apply list_elem_of_singleton in Hrc. injection Hrc as -> ->.
    apply elem_of_seqZ in Hr, Hc. unfold ROWS, COLS in *. lia.
  - intros [Hr Hc]. exists r. split.
    + apply list_elem_of_bind. exists c. split; [by apply list_elem_of_singleton|].
      apply elem_of_seqZ. unfold COLS in *. lia.
    + apply elem_of_seqZ. unfold ROWS in *. lia.
Qed.

Lemma NoDup_grid_keys : NoDup grid_keys.
Proof. apply (bool_decide_unpack _). by vm_compute. Qed.

Lemma build_grid_lookup (f : Z * Z -> Slot) (r c : Z) :
  (0 <= r < ROWS)%Z -> (0 <= c < COLS)%Z -> build_grid f !! (r, c) = Some (f (r, c)).
Proof.
  intros Hr Hc. unfold build_grid. rewrite fold_insert_lookup.
  rewrite decide_True; [done | by apply elem_of_grid_keys].
Qed.

Lemma build_grid_lookup_Some (f : Z * Z -> Slot) (k : Z * Z) (s : Slot) :
  build_grid f !! k = Some s -> k ∈ grid_keys /\ s = f k.
Proof.
  unfold build_grid. rewrite fold_insert_lookup.
  case_decide; [naive_solver | by rewrite lookup_empty].
Qed.

Lemma build_grid_dom (f : Z * Z -> Slot) :
  dom (build_grid f) = list_to_set grid_keys.
Proof.
  apply set_eq. intros k. rewrite elem_of_dom, elem_of_list_to_set.
  unfold build_grid. rewrite fold_insert_lookup.
  case_decide; [by split; eauto | rewrite lookup_empty; split; [by intros [? ?] | done]].
Qed.

Lemma build_grid_size (f : Z * Z -> Slot) : size (build_grid f) = 96%nat.
Proof.
  rewrite <- size_dom, build_grid_dom, size_list_to_set by apply NoDup_grid_keys.
  reflexivity.
Qed.
End GridFacts.

(** ** The naive grid (fallback) *)

Section Fallback.
Import Num Config WellExtractor.
Local Open Scope Q_scope.

Lemma naive_grid_slot (w h : Z) (med_radius : Q) (r c : Z) :
  (0 <= r < ROWS)%Z -> (0 <= c < COLS)%Z ->
  fst (_naive_grid w h med_radius) !! (r, c)
  = Some (mkSlot (inject_Z w / 12 / 2 + inject_Z c * (inject_Z w / 12))
                 (inject_Z h / 8 / 2 + inject_Z r * (inject_Z h / 8))
                 med_radius false).
Proof. intros Hr Hc. unfold _naive_grid. cbn [fst]. by rewrite build_grid_lookup. Qed.

Lemma naive_grid_all (w h : Z) (med_radius : Q) (k : Z * Z) (s : Slot) :
  fst (_naive_grid w h med_radius) !! k = Some s ->
  slot_radius s = med_radius /\ slot_detected s = false.
Proof.
  unfold _naive_grid. cbn [fst]. intros [_ ->]%build_grid_lookup_Some.
  by destruct k.
Qed.

Lemma omap_all_None {A B} (f : A -> option B) (l : list A) :
  (forall a, a ∈ l -> f a = None) -> omap f l = [].
Proof.
  induction l as [|a l IH]; intros Hall; [done|]. cbn.
  rewrite (Hall a) by by left. apply IH. intros b Hb. apply Hall. by right.
Qed.

(** C8.  With fewer than 20 filtered candidates no fitting takes place:
    the grid is the naive one, with steps exactly [width / 12] and
    [height / 8], the origin half a step in on each axis, 96 slots, each
    at its evenly spaced position and marked not detected. *)
Theorem C8_fallback_naive_grid (set_iter : list Q -> list Q) (img : PlateImage) :
  (length (fst (detect_circles img)) < 20)%nat ->
  exists grid : gmap (Z * Z) Slot,
    let sx := inject_Z (img_w img) / 12 in
    let sy := inject_Z (img_h img) / 8 in
    locate_grid set_iter img = Ok (grid, (sx / 2, sy / 2, sx, sy))
    /\ size grid = 96%nat
    /\ (forall r c, (0 <= r < 8)%Z -> (0 <= c < 12)%Z ->
          exists s, grid !! (r, c) = Some s
                    /\ slot_cx s = sx / 2 + inject_Z c * sx
                    /\ slot_cy s = sy / 2 + inject_Z r * sy
                    /\ slot_detected s = false)
    /\ (forall k s, grid !! k = Some s -> slot_detected s = false).
Proof.
  intros Hfew. unfold locate_grid.
  destruct (detect_circles img) as [circles med_radius]. cbn [fst] in Hfew.
  apply Nat.ltb_lt in Hfew. rewrite Hfew.
  exists (fst (_naive_grid (img_w img) (img_h img) med_radius)).
  split; [reflexivity|]. split; [apply build_grid_size|]. split.
  - intros r c Hr Hc. eexists. split; [by apply naive_grid_slot|]. done.
  - intros k s Hk. by apply naive_grid_all in Hk as [_ ?].
Qed.

Lemma C8_fallback_naive_grid_witness :
  exists grid : gmap (Z * Z) Slot,
    locate_grid (fun l => l) blank_image
    = Ok (grid, (1200 / 12 / 2, 800 / 8 / 2, 1200 / 12, 800 / 8))
    /\ size grid = 96%nat.
Proof.
  destruct (C8_fallback_naive_grid (fun l => l) blank_image) as (g & H1 & H2 & _).
  - vm_compute. lia.
  - exists g. split; [exact H1 | exact H2].
Defined.

(** C10.  When [cv2.HoughCircles] finds nothing at each of the nine calls
    of the sweep (its settings of blur size and accumulator threshold, each
    with the minimum distance and the radius bounds that [detect_circles]
    derives from the image size), [detect_circles] returns
    no candidate and 0.42 times the expected cell size in place of a median
    radius, and every slot of the grid (the naive one) has exactly that
    radius. *)
Theorem C10_no_circles_fallback_radius (set_iter : list Q -> list Q) (img : PlateImage) :
  let expected_cell := py_min (inject_Z (img_w img) / 12) (inject_Z (img_h img) / 8) in
  let fallback_r := expected_cell * (42#100) in
  let min_dist := py_int (expected_cell * (65#100)) in
  let min_r := py_int (fallback_r * (5#10)) in
  let max_r := py_int (fallback_r * (13#10)) in
  (forall blur_size param2,
      (blur_size, param2) ∈ sweep ->
      hough img blur_size param2 min_dist min_r max_r = None) ->
  detect_circles img = ([], fallback_r)
  /\ exists grid params,
       locate_grid set_iter img = Ok (grid, params)
       /\ grid = fst (_naive_grid (img_w img) (img_h img) fallback_r)
       /\ size grid = 96%nat
       /\ forall k s, grid !! k = Some s -> slot_radius s = fallback_r.
Proof.
  intros expected_cell fallback_r min_dist min_r max_r Hnone.
  assert (Hdet : detect_circles img = ([], fallback_r)).
  { unfold detect_circles. cbv zeta. fold expected_cell fallback_r min_r max_r min_dist.
    rewrite omap_all_None; [done|].
    intros [b p] Hin. by apply Hnone. }
  split; [exact Hdet|].
  unfold locate_grid. rewrite Hdet. cbn [length Nat.ltb Nat.leb].
  eexists _, _. split; [reflexivity|]. split; [reflexivity|].
  split; [apply build_grid_size|].
  intros k s Hk. by apply naive_grid_all in Hk as [? _].
Qed.

Lemma C10_no_circles_fallback_radius_witness :
  detect_circles blank_image = ([], py_min (1200 / 12) (800 / 8) * (42#100)).
Proof.
  apply (C10_no_circles_fallback_radius (fun l => l) blank_image).
  intros; reflexivity.
Defined.
End Fallback.

(** ** Neighbour resolution *)

Section Resolution.
Import Num Config WellExtractor ColorClassifier.
Local Open Scope Q_scope.

Lemma apply_neighbor_rules_resolved score l r :
  fst (apply_neighbor_rules score l r) = growth
  \/ fst (apply_neighbor_rules score l r) = inhibition.
Proof.
  unfold apply_neighbor_rules.
  repeat match goal with
         | |- context [if ?b then _ else _] => destruct b
         end; cbn; auto.
Qed.

Lemma apply_neighbor_rules_transition score :
  apply_neighbor_rules score (Some growth) (Some inhibition) = (inhibition, MEDIUM).
Proof. reflexivity. Qed.

Lemma resolve_step_other m k k' :
  k ≠ k' -> resolve_step m k !! k' = m !! k'.
Proof.
  intros Hne. unfold resolve_step. destruct k as [r c].
  destruct (m !! (r, c)) as [w|]; [|done].
  case_bool_decide; [done|].
  destruct (apply_neighbor_rules _ _ _). by rewrite lookup_insert_ne.
Qed.

Lemma resolve_step_settled m k k' w :
  m !! k' = Some w -> classification w ≠ uncertain ->
  resolve_step m k !! k' = Some w.
Proof.
  intros Hk' Hw. destruct (decide (k = k')) as [->|Hne].
  - unfold resolve_step. destruct k' as [r c]. rewrite Hk'.
    by rewrite bool_decide_true.
  - by rewrite resolve_step_other.
Qed.

Lemma resolve_step_at m r c w :
  m !! (r, c) = Some w -> classification w = uncertain ->
  exists w',
    resolve_step m (r, c) !! (r, c) = Some w'
    /\ (classification w', confidence w')
       = apply_neighbor_rules (growth_score w) (left_class m r c) (right_class m r c)
    /\ well w' = well w /\ growth_score w' = growth_score w.
Proof.
  intros Hk Hw. unfold resolve_step. rewrite Hk.
  rewrite bool_decide_false by (rewrite Hw; auto).
  fold (left_class m r c) (right_class m r c).
  destruct (apply_neighbor_rules _ _ _) as [cl cf] eqn:E.
  eexists. rewrite lookup_insert_eq. split; [done|]. done.
Qed.

Lemma resolve_step_dom m k k' :
  is_Some (resolve_step m k !! k') <-> is_Some (m !! k').
Proof.
  destruct (decide (k = k')) as [->|Hne]; [|by rewrite resolve_step_other].
  unfold resolve_step. destruct k' as [r c].
  destruct (m !! (r, c)) as [w|] eqn:E; [|by rewrite E].
  case_bool_decide; [by rewrite E|].
  destruct (apply_neighbor_rules _ _ _). rewrite lookup_insert_eq. by split; eauto.
Qed.

Lemma resolve_fold_other keys m k' :
  k' ∉ keys -> fold_left resolve_step keys m !! k' = m !! k'.
Proof.
  revert m. induction keys as [|k keys IH]; intros m Hnin; [done|]. cbn.
  apply not_elem_of_cons in Hnin as [Hne Hnin].
  rewrite IH by done. by apply resolve_step_other.
Qed.

Lemma resolve_fold_settled keys m k' w :
  m !! k' = Some w -> classification w ≠ uncertain ->
  fold_left resolve_step keys m !! k' = Some w.
Proof.
  revert m. induction keys as [|k keys IH]; intros m Hk' Hw; [done|]. cbn.
  apply IH; [|done]. by apply resolve_step_settled.
Qed.

Lemma resolve_fold_dom keys m k' :
  is_Some (fold_left resolve_step keys m !! k') <-> is_Some (m !! k').
Proof.
  revert m. induction keys as [|k keys IH]; intros m; [done|]. cbn.
  rewrite IH. apply resolve_step_dom.
Qed.

(** A step keeps every class other than [uncertain] out of [partial]. *)
Lemma resolve_step_no_partial m k :
  map_Forall (fun _ w => classification w ≠ partial) m ->
  map_Forall (fun _ w => classification w ≠ partial) (resolve_step m k).
Proof.
  intros Hall k' w' Hk'. destruct (decide (k = k')) as [->|Hne].
  - destruct k' as [r c]. destruct (m !! (r, c)) as [w|] eqn:E.
    + destruct (decide (classification w = uncertain)) as [Hu|Hu].
      * destruct (resolve_step_at m r c w E Hu) as (w'' & Hw'' & Hcl & _).
        rewrite Hw'' in Hk'. injection Hk' as <-.
        pose proof (apply_neighbor_rules_resolved (growth_score w)
                      (left_class m r c) (right_class m r c)) as Hres.
        rewrite <- Hcl in Hres. cbn in Hres. destruct Hres as [-> | ->]; done.
      * rewrite (resolve_step_settled m _ _ w E Hu) in Hk'. injection Hk' as <-.
        by apply (Hall _ _ E).
    + assert (is_Some (m !! (r, c))) as [? ?]; [|congruence].
      apply (resolve_step_dom m (r, c)). eauto.
  - rewrite resolve_step_other in Hk' by done. by apply (Hall _ _ Hk').
Qed.

Lemma resolve_fold_no_partial keys m :
  map_Forall (fun _ w => classification w ≠ partial) m ->
  map_Forall (fun _ w => classification w ≠ partial) (fold_left resolve_step keys m).
Proof.
  revert m. induction keys as [|k keys IH]; intros m Hall; [done|]. cbn.
  by apply IH, resolve_step_no_partial.
Qed.

(** The pass over the grid, with the scan cut at a key. *)
Lemma resolve_uncertain_wells_split m pre k post :
  grid_keys = pre ++ k :: post ->
  resolve_uncertain_wells m
  = fold_left resolve_step post (resolve_step (fold_left resolve_step pre m) k).
Proof.
  intros Hsplit. unfold resolve_uncertain_wells.
  generalize grid_keys Hsplit. intros keys ->. by rewrite fold_left_app.
Qed.

(** After its own step a well of the grid is no longer uncertain. *)
Lemma resolve_fold_in_grid keys m k w :
  k ∈ keys -> fold_left resolve_step keys m !! k = Some w ->
  classification w ≠ uncertain.
Proof.
  revert m. induction keys as [|k0 keys IH]; intros m Hin Hk; [by apply elem_of_nil in Hin|].
  cbn in Hk. destruct (decide (k ∈ keys)) as [Hin'|Hnin]; [by eapply IH|].
  apply elem_of_cons in Hin as [->|?]; [|done].
  rewrite resolve_fold_other in Hk by done.
  destruct k0 as [r c]. destruct (m !! (r, c)) as [w0|] eqn:E.
  - destruct (decide (classification w0 = uncertain)) as [Hu|Hu].
    + destruct (resolve_step_at m r c w0 E Hu) as (w'' & Hw'' & Hcl & _).
      rewrite Hw'' in Hk. injection Hk as <-.
      pose proof (apply_neighbor_rules_resolved (growth_score w0)
                    (left_class m r c) (right_class m r c)) as Hres.
      rewrite <- Hcl in Hres. cbn in Hres. destruct Hres as [-> | ->]; done.
    + rewrite (resolve_step_settled m _ _ w0 E Hu) in Hk. by injection Hk as <-.
  - assert (is_Some (m !! (r, c))) as [? ?]; [|congruence].
    apply (resolve_step_dom m (r, c)). eauto.
Qed.
End Resolution.

(** ** The classifier's output *)

Section ClassifierOutput.
Import Num Config WellExtractor ColorClassifier.
Local Open Scope Q_scope.

(** The position of a key in the scan order, with its row neighbours
    before and after it. *)
Lemma grid_keys_split (r c : Z) :
  (0 <= r < 8)%Z -> (0 <= c < 12)%Z ->
  exists pre post : list (Z * Z),
    grid_keys = pre ++ (r, c) :: post
    /\ NoDup (pre ++ (r, c) :: post)
    /\ ((0 < c)%Z -> (r, (c - 1)%Z) ∈ pre)
    /\ ((c < 11)%Z -> (r, (c + 1)%Z) ∈ post).
Proof.
  intros Hr Hc.
  exists (take (Z.to_nat (r * 12 + c)) grid_keys),
         (drop (S (Z.to_nat (r * 12 + c))) grid_keys).
  assert (r = 0 \/ r = 1 \/ r = 2 \/ r = 3 \/ r = 4 \/ r = 5 \/ r = 6 \/ r = 7)%Z
    as Hr' by lia.
  assert (c = 0 \/ c = 1 \/ c = 2 \/ c = 3 \/ c = 4 \/ c = 5 \/ c = 6 \/ c = 7
          \/ c = 8 \/ c = 9 \/ c = 10 \/ c = 11)%Z as Hc' by lia.
  clear Hr Hc.
  repeat (destruct Hr' as [-> | Hr']); try subst r.
  all: repeat (destruct Hc' as [-> | Hc']); try subst c.
  all: split; [vm_compute; reflexivity|].
  all: split; [apply (bool_decide_unpack _); by vm_compute|].
  all: split; intros ?; try lia.
  all: apply (bool_decide_unpack _); by vm_compute.
Qed.

(** A phase-1 score in the band (0.30, 0.50] makes a well uncertain. *)
Lemma classify_one_uncertain ctrl_hsv ctrl_rgb growth_sat inhib_sat sat_mid d :
  let cw := classify_one ctrl_hsv ctrl_rgb growth_sat inhib_sat sat_mid d in
  (30#100 < growth_score cw /\ growth_score cw <= 50#100)%Q ->
  classification cw = uncertain /\ confidence cw = LOW.
Proof.
  unfold classify_one. cbv zeta.
  set (score := Num.np_clip _ 0 1).
  destruct (Num.Qltb PINK_THRESHOLD score) eqn:E1;
    [|destruct (Num.Qltb score PURPLE_THRESHOLD) eqn:E2];
    cbn [growth_score classification confidence]; intros [Hlo Hhi]; [| |done].
  - apply Qltb_true in E1. unfold PINK_THRESHOLD in E1. lra.
  - apply Qltb_true in E2. unfold PURPLE_THRESHOLD in E2. lra.
Qed.

(** C5.  An uncertain well of the grid whose left neighbour is growth
    and whose right neighbour is inhibition when the scan reaches it is
    resolved to inhibition with medium confidence, whatever its own
    score.  The left neighbour's class at that moment is its final one
    (it was scanned earlier and a resolved well is not changed again);
    the right neighbour's is the one it enters the pass with.  A well
    whose phase-1 score is anywhere in (0.30, 0.50] is such an uncertain
    well. *)
Theorem C5_transition_is_inhibition_medium
    (classified : gmap (Z * Z) ClassifiedWell) (r c : Z) (w l rt : ClassifiedWell) :
  (0 <= r < 8)%Z -> (0 < c < 11)%Z ->
  classified !! (r, c) = Some w -> classification w = uncertain ->
  resolve_uncertain_wells classified !! (r, (c - 1)%Z) = Some l ->
  classification l = growth ->
  classified !! (r, (c + 1)%Z) = Some rt -> classification rt = inhibition ->
  (forall score,
      apply_neighbor_rules score (Some growth) (Some inhibition) = (inhibition, MEDIUM))
  /\ (forall ctrl_hsv ctrl_rgb growth_sat inhib_sat sat_mid d,
        let cw := classify_one ctrl_hsv ctrl_rgb growth_sat inhib_sat sat_mid d in
        (30#100 < growth_score cw /\ growth_score cw <= 50#100)%Q ->
        classification cw = uncertain)
  /\ exists w',
       resolve_uncertain_wells classified !! (r, c) = Some w'
       /\ classification w' = inhibition /\ confidence w' = MEDIUM
       /\ growth_score w' = growth_score w /\ well w' = well w.
Proof.
  intros Hr Hc Hw Hu Hl Hlg Hrt Hri. split; [apply apply_neighbor_rules_transition|].
  split; [intros; by eapply classify_one_uncertain|].
  destruct (grid_keys_split r c) as (pre & post & Hsplit & Hnd & Hpre & Hpost); [lia..|].
  apply NoDup_app in Hnd as (_ & Hdisj & Hnd2).
  apply NoDup_cons in Hnd2 as [Hnin_post _].
  assert (Hnin_pre : (r, c) ∉ pre).
  { intros Hin. apply (Hdisj _ Hin). by left. }
  assert (Hleft_post : (r, (c - 1)%Z) ∉ (r, c) :: post).
  { apply Hdisj, Hpre. lia. }
  assert (Hright_pre : (r, (c + 1)%Z) ∉ pre).
  { intros Hin. apply (Hdisj _ Hin). right. apply Hpost. lia. }
  rewrite (resolve_uncertain_wells_split _ _ _ _ Hsplit) in Hl |- *.
  set (m := fold_left resolve_step pre classified) in *.
  apply not_elem_of_cons in Hleft_post as [Hne Hleft_post].
  rewrite resolve_fold_other, resolve_step_other in Hl by done.
  assert (Hm : m !! (r, c) = Some w) by (unfold m; by rewrite resolve_fold_other).
  assert (Hmr : m !! (r, (c + 1)%Z) = Some rt)
    by (unfold m; by rewrite resolve_fold_other).
  destruct (resolve_step_at m r c w Hm Hu) as (w' & Hw' & Hcl & Hwell & Hscore).
  assert (Hlc : left_class m r c = Some growth).
  { unfold left_class. rewrite (proj2 (Z.ltb_lt 0 c)) by lia. by rewrite Hl; cbn; f_equal. }
  assert (Hrc : right_class m r c = Some inhibition).
  { unfold right_class, COLS. rewrite (proj2 (Z.ltb_lt c (12 - 1))) by lia.
    by rewrite Hmr; cbn; f_equal. }
  rewrite Hlc, Hrc, apply_neighbor_rules_transition in Hcl. injection Hcl as Hcl Hcf.
  exists w'. split; [|done].
  apply resolve_fold_settled; [done|]. by rewrite Hcl.
Qed.

Lemma C5_transition_is_inhibition_medium_witness :
  exists w',
    resolve_uncertain_wells (demo_transition (31#100)) !! (0, 1)%Z = Some w'
    /\ classification w' = inhibition /\ confidence w' = MEDIUM.
Proof.
  destruct (C5_transition_is_inhibition_medium (demo_transition (31#100)) 0 1
              (mkClassified (demo_well 60) (31#100) (31#100) (31#100) uncertain LOW)
              (mkClassified (demo_well 30) (80#100) (80#100) (80#100) growth HIGH)
              (mkClassified (demo_well 90) (10#100) (10#100) (10#100) inhibition HIGH))
    as (_ & _ & w' & H1 & H2 & H3 & _);
    [lia | lia | by vm_compute | reflexivity | by vm_compute | reflexivity
     | by vm_compute | reflexivity |].
  exists w'. split; [exact H1 | split; [exact H2 | exact H3]].
Defined.

(** The two ends of the uncertain band resolve alike. *)
Example transition_at_both_ends :
  (fun w => (classification w, confidence w))
    <$> resolve_uncertain_wells (demo_transition (31#100)) !! (0, 1)%Z
  = Some (inhibition, MEDIUM)
  /\ (fun w => (classification w, confidence w))
        <$> resolve_uncertain_wells (demo_transition (49#100)) !! (0, 1)%Z
      = Some (inhibition, MEDIUM).
Proof. split; by vm_compute. Qed.

(** The counting loop succeeds exactly when no record is uncertain. *)
Lemma count_final_raise l e :
  foldl (fun (acc : PyResult (Z * Z * Z)) (data : ClassifiedWell) =>
           '(g, i, p) ← acc;
           match classification data with
           | growth => Ok ((g + 1)%Z, i, p)
           | inhibition => Ok (g, (i + 1)%Z, p)
           | partial => Ok (g, i, (p + 1)%Z)
           | uncertain => Raise KeyError
           end) (Raise e) l = Raise e.
Proof. induction l as [|w l IH]; [done|]. cbn. apply IH. Qed.

Lemma count_final_Ok l :
  (exists n, count_final l = Ok n) <-> Forall (fun w => classification w ≠ uncertain) l.
Proof.
  unfold count_final. generalize (0%Z, 0%Z, 0%Z). induction l as [|w l IH]; intros acc.
  - split; [constructor | by eexists].
  - cbn [foldl]. destruct acc as [[g i] p]. cbn [mbind py_bind].
    destruct (classification w) eqn:E.
    + rewrite IH. split; [intros ?; constructor; [by rewrite E | done] | by inversion 1].
    + rewrite IH. split; [intros ?; constructor; [by rewrite E | done] | by inversion 1].
    + rewrite IH. split; [intros ?; constructor; [by rewrite E | done] | by inversion 1].
    + rewrite count_final_raise. split; [by intros [? ?] | inversion 1; congruence].
Qed.

Lemma initial_classification_lookup wells control_data k :
  exists f, initial_classification wells control_data !! k = f <$> wells !! k
            /\ forall d, classification (f d) ≠ partial.
Proof.
  unfold initial_classification.
  destruct (calibration wells (hsv_median control_data)) as [[g i] mid].
  eexists. rewrite lookup_fmap. split; [reflexivity|].
  intros d. unfold classify_one.
  repeat match goal with
         | |- context [if ?b then _ else _] => destruct b
         end; done.
Qed.

(** C2.  Every record the classifier returns is classified growth or
    inhibition, never uncertain (nor partial); and on a mapping whose
    keys are wells of the 8 x 12 plate, the control well among them, the
    classifier does return, with a record for every well. *)
Theorem C2_no_uncertain_in_output (wells : gmap (Z * Z) Well) :
  is_Some (wells !! control_key) ->
  (forall res, classify_wells wells = Ok res ->
     forall k w, res !! k = Some w ->
       classification w = growth \/ classification w = inhibition)
  /\ ((forall k, is_Some (wells !! k) -> k ∈ grid_keys) ->
      exists res, classify_wells wells = Ok res
                  /\ forall k, is_Some (res !! k) <-> is_Some (wells !! k)).
Proof.
  intros [control_data Hctrl]. unfold classify_wells. rewrite Hctrl.
  set (m1 := initial_classification wells control_data).
  set (m2 := resolve_uncertain_wells m1).
  assert (Hnp : map_Forall (fun _ w => classification w ≠ partial) m2).
  { apply resolve_fold_no_partial. intros k w Hk.
    destruct (initial_classification_lookup wells control_data k) as (f & Hf & Hnp).
    fold m1 in Hf. rewrite Hk in Hf.
    destruct (wells !! k); [|done]. injection Hf as ->. apply Hnp. }
  assert (Hdom : forall k, is_Some (m2 !! k) <-> is_Some (wells !! k)).
  { intros k. unfold m2, resolve_uncertain_wells. rewrite resolve_fold_dom.
    destruct (initial_classification_lookup wells control_data k) as (f & Hf & _).
    fold m1 in Hf. rewrite Hf. by rewrite fmap_is_Some. }
  assert (Hgrid : forall k w, k ∈ grid_keys -> m2 !! k = Some w ->
                              classification w ≠ uncertain).
  { intros k w. apply (resolve_fold_in_grid grid_keys m1 k). }
  clearbody m2. clear m1.
  split.
  - intros res Hres k w Hk.
    destruct (count_final (map snd (map_to_list m2))) as [n|e] eqn:Hcount; [|done].
    cbn in Hres. injection Hres as <-.
    assert (Hall : Forall (fun w => classification w ≠ uncertain)
                          (map snd (map_to_list m2)))
      by (apply count_final_Ok; eauto).
    rewrite Forall_forall in Hall.
    assert (Hu : classification w ≠ uncertain).
    { apply Hall. apply list_elem_of_fmap. exists (k, w).
      split; [done|]. by apply elem_of_map_to_list. }
    pose proof (Hnp k w Hk) as Hp. cbn in Hp.
    destruct (classification w); auto; done.
  - intros Hkeys.
    assert (Hall : Forall (fun w => classification w ≠ uncertain)
                          (map snd (map_to_list m2))).
    { rewrite Forall_forall. intros w Hw.
      apply list_elem_of_fmap in Hw as ([k w'] & -> & Hkw).
      apply elem_of_map_to_list in Hkw. cbn.
      apply (Hgrid k); [|done].
      apply Hkeys, Hdom. eauto. }
    apply count_final_Ok in Hall as [n Hn]. rewrite Hn. cbn.
    exists m2. split; [done | exact Hdom].
Qed.

Lemma C2_no_uncertain_in_output_witness :
  exists res w,
    classify_wells demo_wells = Ok res
    /\ res !! (0, 1)%Z = Some w
    /\ (classification w = growth \/ classification w = inhibition).
Proof.
  destruct (C2_no_uncertain_in_output demo_wells) as [Hout Hret].
  - exists (demo_well 30). by vm_compute.
  - destruct Hret as (res & Hres & Hdom).
    + intros k Hk. unfold demo_wells in Hk.
      apply lookup_insert_is_Some in Hk as [<- | [_ Hk]];
        [apply (bool_decide_unpack _); by vm_compute|].
      apply lookup_insert_is_Some in Hk as [<- | [_ Hk]];
        [apply (bool_decide_unpack _); by vm_compute|].
      rewrite lookup_empty in Hk. by destruct Hk.
    + destruct (proj2 (Hdom (0, 1)%Z)) as [w Hw].
      { exists (demo_well 60). by vm_compute. }
      exists res, w. split; [exact Hres|]. split; [exact Hw|].
      exact (Hout res Hres _ _ Hw).
Defined.
End ClassifierOutput.

(** ** Monotonicity of the growth score in the saturation *)

Section Monotone.
Import Num Config WellExtractor ColorClassifier.
Local Open Scope Q_scope.

Lemma Qdiv_le_compat_r a b r : 0 < r -> a <= b -> a / r <= b / r.
Proof.
  intros Hr Hab. unfold Qdiv. apply Qmult_le_compat_r; [done|].
  apply Qinv_le_0_compat. lra.
Qed.

Lemma relative_score_antitone h s1 s2 v rgb ctrl_hsv ctrl_rgb growth_sat inhib_sat :
  s1 <= s2 ->
  compute_relative_score (h, s2, v) rgb ctrl_hsv ctrl_rgb growth_sat inhib_sat
  <= compute_relative_score (h, s1, v) rgb ctrl_hsv ctrl_rgb growth_sat inhib_sat.
Proof.
  intros Hs. unfold compute_relative_score.
  destruct ctrl_hsv as [[c_h c_s] c_v], rgb as [[w_r w_g] w_b],
           ctrl_rgb as [[c_r c_g] c_b].
  cbv zeta. apply np_clip_mono.
  pose proof (py_max_ge_r (inhib_sat - growth_sat) 30) as Hrange.
  set (range := py_max (inhib_sat - growth_sat) 30) in *.
  assert (Hsat : np_clip ((s1 - growth_sat) / range) 0 1
                 <= np_clip ((s2 - growth_sat) / range) 0 1).
  { apply np_clip_mono, Qdiv_le_compat_r; lra. }
  lra.
Qed.

Ltac split_if :=
  match goal with
  | |- context [if Qltb ?a ?b then _ else _] =>
      let E := fresh "E" in
      destruct (Qltb a b) eqn:E;
      [apply Qltb_true in E | apply Qltb_false in E]
  end.

(** Each of the four adjustments is taken at a lower or equal value for
    the larger saturation; the conditions on hue, R-B and the green
    channel do not move. *)
Lemma absolute_score_antitone h s1 s2 v rgb growth_sat inhib_sat sat_mid :
  s1 <= s2 ->
  compute_absolute_score (h, s2, v) rgb growth_sat inhib_sat sat_mid
  <= compute_absolute_score (h, s1, v) rgb growth_sat inhib_sat sat_mid.
Proof.
  intros Hs. unfold compute_absolute_score. destruct rgb as [[r g] b].
  cbv zeta. apply np_clip_mono.
  generalize (Qltb g (r * (7 # 10)) && Qltb g (b * (8 # 10))) as green.
  generalize (Qleb 145 h && Qleb h 165) as band.
  generalize (Qleb 165 h || Qleb h 12) as wrap.
  generalize (Qltb (r - b) 0) as neg. generalize (Qltb 15 (r - b)) as pos.
  intros pos neg wrap band green.
  destruct green, band, wrap, neg, pos; cbn [andb]; repeat split_if;
    unfold Qdiv; change (/ 15) with (1#15); lra.
Qed.

Lemma classify_one_growth_score ctrl_hsv ctrl_rgb growth_sat inhib_sat sat_mid d :
  growth_score (classify_one ctrl_hsv ctrl_rgb growth_sat inhib_sat sat_mid d)
  = np_clip (RELATIVE_WEIGHT
             * compute_relative_score (hsv_median d) (rgb_mean d) ctrl_hsv ctrl_rgb
                                      growth_sat inhib_sat
             + ABSOLUTE_WEIGHT
               * compute_absolute_score (hsv_median d) (rgb_mean d) growth_sat
                                        inhib_sat sat_mid) 0 1.
Proof.
  unfold classify_one. cbv zeta.
  repeat match goal with
         | |- context [if ?b then _ else _] => destruct b
         end; reflexivity.
Qed.

(** C7.  With the control baseline and the calibration anchors fixed,
    two wells that differ in saturation only, both above the inhibition
    anchor: the well with the larger saturation has the smaller or equal
    growth score, the score being 0.65 relative + 0.35 absolute, clipped
    to [0, 1]. *)
Theorem C7_growth_score_antitone_in_saturation
    (ctrl_hsv ctrl_rgb : Q * Q * Q) (growth_sat inhib_sat sat_mid : Q)
    (d1 d2 : Well) (h s1 s2 v : Q) :
  hsv_median d1 = (h, s1, v) -> hsv_median d2 = (h, s2, v) ->
  rgb_mean d1 = rgb_mean d2 ->
  inhib_sat < s1 -> s1 <= s2 ->
  let score d := growth_score (classify_one ctrl_hsv ctrl_rgb growth_sat inhib_sat sat_mid d) in
  score d2 <= score d1
  /\ 0 <= score d2 /\ score d1 <= 1
  /\ (forall d, score d
        = np_clip ((65#100) * compute_relative_score (hsv_median d) (rgb_mean d)
                                ctrl_hsv ctrl_rgb growth_sat inhib_sat
                   + (35#100) * compute_absolute_score (hsv_median d) (rgb_mean d)
                                  growth_sat inhib_sat sat_mid) 0 1).
Proof.
  intros H1 H2 Hrgb _ Hs score. subst score. cbv beta.
  split; [|split; [|split]].
  - rewrite !classify_one_growth_score, H1, H2, Hrgb.
    apply np_clip_mono.
    pose proof (relative_score_antitone h s1 s2 v (rgb_mean d2) ctrl_hsv ctrl_rgb
                  growth_sat inhib_sat Hs) as Hrel.
    pose proof (absolute_score_antitone h s1 s2 v (rgb_mean d2) growth_sat inhib_sat
                  sat_mid Hs) as Habs.
    unfold RELATIVE_WEIGHT, ABSOLUTE_WEIGHT. lra.
  - rewrite classify_one_growth_score. apply np_clip_bounds. lra.
  - rewrite classify_one_growth_score. apply np_clip_bounds. lra.
  - intros d. apply classify_one_growth_score.
Qed.

Lemma C7_growth_score_antitone_in_saturation_witness :
  growth_score (classify_one (170, 30, 200) (200, 150, 180) 30 140 85 (demo_well 160))
  <= growth_score (classify_one (170, 30, 200) (200, 150, 180) 30 140 85 (demo_well 150)).
Proof.
  apply (C7_growth_score_antitone_in_saturation (170, 30, 200) (200, 150, 180)
           30 140 85 (demo_well 150) (demo_well 160) 170 150 160 200);
    [reflexivity | reflexivity | reflexivity | reflexivity | discriminate].
Defined.
End Monotone.

(** ** The MIC scan *)

Section MicScan.
Import Num Config WellExtractor ColorClassifier MicCalculator.
Local Open Scope Q_scope.

Lemma py_index_nonneg {A} (l : list A) (i : Z) :
  (0 <= i)%Z ->
  py_index l i = match l !! Z.to_nat i with
                 | Some a => Ok a
                 | None => Raise IndexError
                 end.
Proof.
  intros Hi. unfold py_index.
  rewrite (proj2 (Z.ltb_ge i 0)) by lia. by rewrite (proj2 (Z.ltb_ge i 0)) by lia.
Qed.

Lemma py_mapM_Ok {A B} (f : A -> PyResult B) (l : list A) :
  (forall a, a ∈ l -> exists b, f a = Ok b) ->
  exists bs, py_mapM f l = Ok bs /\ Forall2 (fun a b => f a = Ok b) l bs.
Proof.
  induction l as [|a l IH]; intros Hall.
  - exists []. by split.
  - destruct (Hall a) as [b Hb]; [by left|].
    destruct IH as (bs & Hbs & HF); [intros; apply Hall; by right|].
    exists (b :: bs). cbn. rewrite Hb. cbn. rewrite Hbs. cbn. split; [done|].
    by constructor.
Qed.

Lemma py_mapM_inv {A B} (f : A -> PyResult B) (l : list A) (bs : list B) :
  py_mapM f l = Ok bs -> Forall2 (fun a b => f a = Ok b) l bs.
Proof.
  revert bs. induction l as [|a l IH]; intros bs; cbn.
  - intros [= <-]. constructor.
  - destruct (f a) as [b|e] eqn:Hb; cbn; [|done].
    destruct (py_mapM f l) as [bs'|e] eqn:Hbs; cbn; [|done].
    intros [= <-]. constructor; [done | by apply IH].
Qed.

Lemma inhibition_of_high ctrl score :
  1#100 < ctrl -> inhibition_of ctrl score = Ok (py_max 0 (1 - score / ctrl)).
Proof.
  intros Hc. unfold inhibition_of, py_div.
  rewrite (proj2 (Qltb_true _ _) Hc).
  destruct (Qeq_bool ctrl 0) eqn:E; [|done].
  apply Qeq_bool_iff in E. lra.
Qed.

(** With a control score of at most 0.01 the quotient is not formed. *)
Lemma inhibition_of_low ctrl score :
  ctrl <= 1#100 -> inhibition_of ctrl score = Ok 0.
Proof.
  intros Hc. unfold inhibition_of.
  by rewrite (proj2 (Qltb_false _ _) Hc).
Qed.

Lemma inhibition_of_total ctrl score :
  exists i, inhibition_of ctrl score = Ok i.
Proof.
  destruct (Qlt_le_dec (1#100) ctrl);
    [rewrite inhibition_of_high | rewrite inhibition_of_low]; eauto.
Qed.

(** The scan over the columns [a, a + n): it stops at the first column
    that holds a score whose inhibition reaches the threshold. *)
Lemma scan_row_range (ws concs : list (option Q)) (ctrl thr : Q) (inh : Q -> Q)
    (n : nat) (a : Z) :
  (forall s, inhibition_of ctrl s = Ok (inh s)) ->
  (0 <= a)%Z ->
  (forall c, (a <= c < a + Z.of_nat n)%Z ->
     is_Some (ws !! Z.to_nat c) /\ is_Some (concs !! Z.to_nat c)) ->
  let hit c := exists s, ws !! Z.to_nat c = Some (Some s) /\ thr <= inh s in
  (scan_row ws concs ctrl thr (seqZ a (Z.of_nat n)) = Ok (None, None)
   /\ forall c, (a <= c < a + Z.of_nat n)%Z -> ~ hit c)
  \/ exists c conc,
       (a <= c < a + Z.of_nat n)%Z /\ hit c
       /\ (forall c', (a <= c' < c)%Z -> ~ hit c')
       /\ concs !! Z.to_nat c = Some conc
       /\ scan_row ws concs ctrl thr (seqZ a (Z.of_nat n)) = Ok (conc, Some c).
Proof.
  intros Hinh Ha Hvalid hit. revert a Ha Hvalid.
  induction n as [|n IH]; intros a Ha Hvalid.
  - left. split; [done | intros; lia].
  - rewrite seqZ_cons by lia.
    replace (Z.pred (Z.of_nat (S n))) with (Z.of_nat n) by lia.
    cbn [scan_row]. rewrite (py_index_nonneg ws a), (py_index_nonneg concs a) by done.
    destruct (Hvalid a) as [[x Hx] [conc Hconc]]; [lia|]. rewrite Hx. cbn [mbind py_bind].
    assert (Hrest : forall c, (Z.succ a <= c < Z.succ a + Z.of_nat n)%Z ->
              is_Some (ws !! Z.to_nat c) /\ is_Some (concs !! Z.to_nat c))
      by (intros; apply Hvalid; lia).
    assert (Hstep : ~ hit a ->
      (scan_row ws concs ctrl thr (seqZ (Z.succ a) (Z.of_nat n)) = Ok (None, None)
       /\ forall c, (a <= c < a + Z.of_nat (S n))%Z -> ~ hit c)
      \/ exists c conc,
           (a <= c < a + Z.of_nat (S n))%Z /\ hit c
           /\ (forall c', (a <= c' < c)%Z -> ~ hit c')
           /\ concs !! Z.to_nat c = Some conc
           /\ scan_row ws concs ctrl thr (seqZ (Z.succ a) (Z.of_nat n)) = Ok (conc, Some c)).
    { intros Hna. destruct (IH (Z.succ a)) as [[Hs Hno] | (c & cc & Hc & Hh & Hmin & Hcc & Hs)];
        [lia | done | |].
      - left. split; [done|]. intros c Hc.
        destruct (decide (c = a)) as [->|]; [done | apply Hno; lia].
      - right. exists c, cc. split; [lia|]. split; [done|]. split; [|done].
        intros c' Hc'. destruct (decide (c' = a)) as [->|]; [done | apply Hmin; lia]. }
    destruct x as [s|].
    + rewrite Hinh. cbn [mbind py_bind].
      destruct (Qleb thr (inh s)) eqn:E.
      * right. exists a, conc. rewrite Hconc.
        split; [lia|]. split; [exists s; split; [done | by apply Qleb_true]|].
        split; [intros; lia | done].
      * apply Hstep. intros (s' & Hs' & Hle). rewrite Hx in Hs'. injection Hs' as <-.
        apply Qleb_false in E. lra.
    + apply Hstep. intros (s' & Hs' & _). by rewrite Hx in Hs'.
Qed.

Lemma well_scores_lookup (classified : gmap (Z * Z) ClassifiedWell) (row_idx c : Z) :
  (0 <= c < 12)%Z ->
  map (fun col_idx => growth_score <$> classified !! (row_idx, col_idx)) (range 0 COLS)
    !! Z.to_nat c
  = Some (growth_score <$> classified !! (row_idx, c)).
Proof.
  intros Hc. unfold range, COLS.
  change (map ?f ?l) with (f <$> l).
  rewrite list_lookup_fmap, lookup_seqZ_lt by lia.
  rewrite Z2Nat.id by lia. reflexivity.
Qed.

Lemma row_label_of (row_idx : Z) :
  (0 <= row_idx < 8)%Z ->
  exists label, py_index ROW_LABELS row_idx = Ok label
                /\ ROW_LABELS !! Z.to_nat row_idx = Some label
                /\ (label = RowH <-> row_idx = 7%Z).
Proof.
  intros Hr.
  assert (row_idx = 0 \/ row_idx = 1 \/ row_idx = 2 \/ row_idx = 3 \/ row_idx = 4
          \/ row_idx = 5 \/ row_idx = 6 \/ row_idx = 7)%Z as Hr' by lia.
  repeat (destruct Hr' as [-> | Hr']); try subst row_idx;
    eexists; (split; [reflexivity | split; [reflexivity | split; [discriminate || done | lia || done]]]).
Qed.

Lemma concentrations_lookup (label : RowLabel) (c : Z) :
  (0 <= c < 12)%Z ->
  exists conc, CONCENTRATIONS label !! Z.to_nat c = Some conc
               /\ ((if decide (label = RowH) then 1 else 0) <= c -> is_Some conc)%Z.
Proof.
  intros Hc.
  assert (c = 0 \/ c = 1 \/ c = 2 \/ c = 3 \/ c = 4 \/ c = 5 \/ c = 6 \/ c = 7
          \/ c = 8 \/ c = 9 \/ c = 10 \/ c = 11)%Z as Hc' by lia.
  clear Hc.
  repeat (destruct Hc' as [-> | Hc']); try subst c;
    destruct label; eexists; (split; [reflexivity|]); intros Hle;
    first [exfalso; vm_compute in Hle; by apply Hle | by eexists].
Qed.

(** The row record in terms of the scan's result. *)
Lemma mic_row_result (classified : gmap (Z * Z) ClassifiedWell) (ctrl : Q)
    (edge : bool) (row_idx : Z) (label : RowLabel) (found : option Q) (col : option Z) :
  py_index ROW_LABELS row_idx = Ok label ->
  scan_row (map (fun col_idx => growth_score <$> classified !! (row_idx, col_idx))
                (range 0 COLS))
           (CONCENTRATIONS label) ctrl (INHIBITION_THRESHOLDS (ANTIFUNGALS label))
           (range (if decide (label = RowH) then 1 else 0) COLS)
  = Ok (found, col) ->
  exists res,
    mic_row classified ctrl edge row_idx = Ok res
    /\ row res = label /\ antifungal res = ANTIFUNGALS label
    /\ inhibition_threshold res = INHIBITION_THRESHOLDS (ANTIFUNGALS label)
    /\ mic_column res = col
    /\ match found with
       | Some c => mic_value res = MicNumber c
       | None => mic_value res = MicNone \/ exists top, mic_value res = MicAbove top
       end.
Proof.
  intros Hlabel Hscan. unfold mic_row. rewrite Hlabel. cbn [mbind py_bind].
  rewrite Hscan. cbn [mbind py_bind].
  destruct found as [c|].
  - cbn [mbind py_bind]. eexists. split; [reflexivity|]. cbn. done.
  - match goal with |- context [forallb ?f ?l] => destruct (forallb f l) end.
    + assert (exists top, py_index (CONCENTRATIONS label) (-1) = Ok top) as [top ->]
        by (destruct label; eexists; reflexivity).
      cbn [mbind py_bind]. eexists. split; [reflexivity|]. cbn. eauto 10.
    + cbn [mbind py_bind]. eexists. split; [reflexivity|]. cbn. eauto 10.
Qed.

Lemma threshold_positive (a : Antifungal) : 0 < INHIBITION_THRESHOLDS a.
Proof. by destruct a. Qed.

Lemma py_max_0_ge thr x : 0 < thr -> thr <= py_max 0 x <-> thr <= x.
Proof.
  intros Hthr. unfold py_max. destruct (Qltb 0 x) eqn:E; [done|].
  apply Qltb_false in E. split; lra.
Qed.

(** The scan of a row of the plate, for any control score. *)
Lemma mic_row_scan (classified : gmap (Z * Z) ClassifiedWell) (ctrl : Q) (inh : Q -> Q)
    (edge : bool) (row_idx : Z) :
  (forall s, inhibition_of ctrl s = Ok (inh s)) ->
  (0 <= row_idx < 8)%Z ->
  exists res,
    let start := if decide (row_idx = 7%Z) then 1%Z else 0%Z in
    let thr := INHIBITION_THRESHOLDS (ANTIFUNGALS (row res)) in
    let hit c := exists w, classified !! (row_idx, c) = Some w
                           /\ thr <= inh (growth_score w) in
    mic_row classified ctrl edge row_idx = Ok res
    /\ ROW_LABELS !! Z.to_nat row_idx = Some (row res)
    /\ antifungal res = ANTIFUNGALS (row res)
    /\ inhibition_threshold res = thr
    /\ ((mic_column res = None /\ forall c, (start <= c < 12)%Z -> ~ hit c)
        \/ exists c conc,
             (start <= c < 12)%Z /\ hit c /\ (forall c', (start <= c' < c)%Z -> ~ hit c')
             /\ CONCENTRATIONS (row res) !! Z.to_nat c = Some (Some conc)
             /\ mic_column res = Some c /\ mic_value res = MicNumber conc).
Proof.
  intros Hinh Hr.
  destruct (row_label_of row_idx Hr) as (label & Hlabel & Hlookup & HH).
  set (ws := map (fun col_idx => growth_score <$> classified !! (row_idx, col_idx))
                 (range 0 COLS)).
  set (start := if decide (row_idx = 7%Z) then 1%Z else 0%Z).
  assert (Hstart : (if decide (label = RowH) then 1%Z else 0%Z) = start).
  { unfold start. destruct (decide (label = RowH)) as [Hl|Hl], (decide (row_idx = 7%Z));
      try done; exfalso; tauto. }
  assert (Hstart01 : (0 <= start <= 1)%Z) by (unfold start; case_decide; lia).
  pose proof (scan_row_range ws (CONCENTRATIONS label) ctrl
                (INHIBITION_THRESHOLDS (ANTIFUNGALS label)) inh
                (Z.to_nat (12 - start)) start Hinh) as Hscan.
  rewrite Z2Nat.id in Hscan by lia.
  replace (start + (12 - start))%Z with 12%Z in Hscan by lia.
  destruct Hscan as [[Hs Hno] | (c & conc & Hc & Hhit & Hmin & Hconc & Hs)]; [lia | | |].
  - intros c Hc. unfold ws. rewrite well_scores_lookup by lia.
    destruct (concentrations_lookup label c) as (conc & -> & _); [lia|]. eauto.
  - destruct (mic_row_result classified ctrl edge row_idx label None None Hlabel)
      as (res & Hres & Hrow & Hanti & Hthr & Hcol & Hval).
    { rewrite Hstart. exact Hs. }
    exists res. rewrite Hrow. split; [done|]. split; [done|]. split; [done|].
    split; [done|]. left. split; [done|].
    intros c Hc (w & Hw & Hle). apply (Hno c Hc). exists (growth_score w).
    split; [|done]. unfold ws. rewrite well_scores_lookup by lia. by rewrite Hw.
  - destruct (concentrations_lookup label c) as (conc' & Hconc' & Hsome); [lia|].
    rewrite Hconc in Hconc'. injection Hconc' as <-.
    destruct Hsome as [q ->]; [rewrite Hstart; lia|].
    destruct (mic_row_result classified ctrl edge row_idx label (Some q) (Some c) Hlabel)
      as (res & Hres & Hrow & Hanti & Hthr & Hcol & Hval).
    { rewrite Hstart. exact Hs. }
    exists res. rewrite Hrow. split; [done|]. split; [done|]. split; [done|].
    split; [done|]. right. exists c, q.
    assert (Hws : forall c', (0 <= c' < 12)%Z ->
              forall s, ws !! Z.to_nat c' = Some (Some s) ->
              exists w, classified !! (row_idx, c') = Some w /\ growth_score w = s).
    { intros c' Hc' s. unfold ws. rewrite well_scores_lookup by lia.
      intros [= Hw]. destruct (classified !! (row_idx, c')) as [w|]; [|done].
      injection Hw as <-. eauto. }
    split; [lia|]. split.
    { destruct Hhit as (s & Hs' & Hle). destruct (Hws c ltac:(lia) s Hs') as (w & Hw & <-).
      eauto. }
    split; [|done].
    intros c' Hc' (w & Hw & Hle). apply (Hmin c' Hc'). exists (growth_score w).
    split; [|done]. unfold ws. rewrite well_scores_lookup by lia. by rewrite Hw.
Qed.

Lemma calculate_mic_rows (classified : gmap (Z * Z) ClassifiedWell)
    (ctrl : ClassifiedWell) :
  classified !! control_key = Some ctrl ->
  exists results,
    calculate_mic classified = Ok results
    /\ length results = 8%nat
    /\ forall row_idx res,
         (0 <= row_idx < 8)%Z -> results !! Z.to_nat row_idx = Some res ->
         mic_row classified (growth_score ctrl) (edge_artifact classified) row_idx = Ok res.
Proof.
  intros Hctrl. unfold calculate_mic. rewrite Hctrl.
  destruct (py_mapM_Ok (mic_row classified (growth_score ctrl) (edge_artifact classified))
              (range 0 ROWS)) as (results & Hres & HF).
  { intros row_idx Hin. apply elem_of_seqZ in Hin.
    destruct (inhibition_of_total (growth_score ctrl) 0) as [_ _].
    destruct (Qlt_le_dec (1#100) (growth_score ctrl)) as [Hhigh|Hlow].
    - destruct (mic_row_scan classified (growth_score ctrl)
                  (fun s => py_max 0 (1 - s / growth_score ctrl))
                  (edge_artifact classified) row_idx) as (res & Hrow & _);
        [intros; by apply inhibition_of_high | unfold ROWS in Hin; lia | eauto].
    - destruct (mic_row_scan classified (growth_score ctrl) (fun _ => 0)
                  (edge_artifact classified) row_idx) as (res & Hrow & _);
        [intros; by apply inhibition_of_low | unfold ROWS in Hin; lia | eauto]. }
  exists results. split; [done|]. split.
  - apply Forall2_length in HF. rewrite <- HF. reflexivity.
  - intros row_idx res Hr Hlook.
    assert (Hidx : range 0 ROWS !! Z.to_nat row_idx = Some row_idx).
    { unfold range, ROWS. rewrite lookup_seqZ_lt by lia. f_equal. lia. }
    destruct (Forall2_lookup_l _ _ _ _ _ HF Hidx) as (res' & Hres' & Hrow).
    rewrite Hlook in Hres'. by injection Hres' as <-.
Qed.

(** C3.  With a control score above 0.01, each row reports the first
    column, from the row's start column on (1 in row H, 0 elsewhere), whose
    well has relative inhibition [1 - score / control] at or above the
    row's threshold (0.90 for amphotericin B, 0.50 otherwise), with that
    column's concentration as MIC value; and no column when none
    qualifies. *)
Theorem C3_mic_is_first_column_over_threshold
    (classified : gmap (Z * Z) ClassifiedWell) (ctrl : ClassifiedWell) :
  classified !! control_key = Some ctrl ->
  1#100 < growth_score ctrl ->
  exists results,
    calculate_mic classified = Ok results
    /\ length results = 8%nat
    /\ forall row_idx res,
         (0 <= row_idx < 8)%Z -> results !! Z.to_nat row_idx = Some res ->
         let start := if decide (row_idx = 7%Z) then 1%Z else 0%Z in
         let thr := if decide (antifungal res = AMB) then 90#100 else 50#100 in
         let meets col :=
           exists w, classified !! (row_idx, col) = Some w
                     /\ thr <= 1 - growth_score w / growth_score ctrl in
         ROW_LABELS !! Z.to_nat row_idx = Some (row res)
         /\ antifungal res = ANTIFUNGALS (row res)
         /\ inhibition_threshold res = thr
         /\ (forall col,
               (start <= col < 12)%Z -> meets col ->
               (forall col', (start <= col' < col)%Z -> ~ meets col') ->
               mic_column res = Some col
               /\ exists conc,
                    CONCENTRATIONS (row res) !! Z.to_nat col = Some (Some conc)
                    /\ mic_value res = MicNumber conc)
         /\ ((forall col, (start <= col < 12)%Z -> ~ meets col) ->
             mic_column res = None).
Proof.
  intros Hctrl Hhigh.
  destruct (calculate_mic_rows classified ctrl Hctrl) as (results & Hres & Hlen & Hrows).
  exists results. split; [done|]. split; [done|].
  intros row_idx res Hr Hlook start thr meets.
  specialize (Hrows row_idx res Hr Hlook).
  destruct (mic_row_scan classified (growth_score ctrl)
              (fun s => py_max 0 (1 - s / growth_score ctrl))
              (edge_artifact classified) row_idx) as (res' & Hrow & Hlabel & Hanti & Hthr & Hscan);
    [intros; by apply inhibition_of_high | done |].
  rewrite Hrows in Hrow. injection Hrow as <-.
  assert (Hthr_eq : INHIBITION_THRESHOLDS (ANTIFUNGALS (row res)) = thr).
  { unfold thr. rewrite Hanti. by destruct (ANTIFUNGALS (row res)). }
  assert (Hpos : 0 < thr) by (rewrite <- Hthr_eq; apply threshold_positive).
  rewrite Hthr_eq in Hthr, Hscan.
  assert (Hmeets : forall c,
            (exists w, classified !! (row_idx, c) = Some w
                       /\ thr <= py_max 0 (1 - growth_score w / growth_score ctrl))
            <-> meets c).
  { intros c. unfold meets. split; intros (w & Hw & Hle); exists w; (split; [done|]);
      by apply (py_max_0_ge thr _ Hpos). }
  split; [done|]. split; [done|]. split; [done|]. split.
  - intros col Hcol Hm Hfirst.
    destruct Hscan as [[_ Hno] | (c & conc & Hc & Hhit & Hmin & Hconc & Hmc & Hmv)].
    + exfalso. apply (Hno col Hcol). by apply Hmeets.
    + assert (c = col) as ->.
      { destruct (Z.lt_trichotomy c col) as [Hlt | [-> | Hgt]]; [|done|].
        - exfalso. apply (Hfirst c); [lia | by apply Hmeets].
        - exfalso. apply (Hmin col); [lia | by apply Hmeets]. }
      split; [done|]. by exists conc.
  - intros Hnone.
    destruct Hscan as [[Hmc _] | (c & conc & Hc & Hhit & _)]; [done|].
    exfalso. apply (Hnone c Hc). by apply Hmeets.
Qed.

(** C9.  With a control score of at most 0.01 the quotient
    [score / control] is never formed: the inhibition of every well is 0,
    no column reaches a threshold, and every row has no MIC column.  The
    calculator never divides by zero, whatever the control score. *)
Theorem C9_low_control_never_divides
    (classified : gmap (Z * Z) ClassifiedWell) (ctrl : ClassifiedWell) :
  classified !! control_key = Some ctrl ->
  growth_score ctrl <= 1#100 ->
  (forall score, inhibition_of (growth_score ctrl) score = Ok 0)
  /\ (exists results,
        calculate_mic classified = Ok results
        /\ length results = 8%nat
        /\ Forall (fun res => mic_column res = None) results)
  /\ (forall m, calculate_mic m <> Raise ZeroDivisionError).
Proof.
  intros Hctrl Hlow. split; [intros; by apply inhibition_of_low|]. split.
  - destruct (calculate_mic_rows classified ctrl Hctrl) as (results & Hres & Hlen & Hrows).
    exists results. split; [done|]. split; [done|].
    apply Forall_lookup. intros i res Hlook.
    assert (Hi : (i < 8)%nat) by (rewrite <- Hlen; by eapply lookup_lt_Some).
    specialize (Hrows (Z.of_nat i) res). rewrite Nat2Z.id in Hrows.
    specialize (Hrows ltac:(lia) Hlook).
    destruct (mic_row_scan classified (growth_score ctrl) (fun _ => 0)
                (edge_artifact classified) (Z.of_nat i))
      as (res' & Hrow & _ & _ & _ & Hscan);
      [intros; by apply inhibition_of_low | lia |].
    rewrite Hrows in Hrow. injection Hrow as <-.
    destruct Hscan as [[Hmc _] | (c & conc & _ & (w & _ & Hle) & _)]; [done|].
    pose proof (threshold_positive (ANTIFUNGALS (row res))). lra.
  - intros m. unfold calculate_mic.
    destruct (m !! control_key) as [c|] eqn:Hc; [|done].
    destruct (calculate_mic_rows m c Hc) as (results & Hres & _).
    unfold calculate_mic in Hres. rewrite Hc in Hres. by rewrite Hres.
Qed.

Lemma C3_mic_is_first_column_over_threshold_witness :
  exists results res,
    calculate_mic (demo_scored (90#100)) = Ok results
    /\ results !! 0%nat = Some res
    /\ mic_column res = Some 0%Z
    /\ mic_value res = MicNumber (4#1000).
Proof.
  destruct (C3_mic_is_first_column_over_threshold (demo_scored (90#100))
              (mkClassified (demo_well 30) (90#100) (90#100) (90#100) growth HIGH))
    as (results & Hres & Hlen & Hrows); [by vm_compute | reflexivity |].
  destruct (lookup_lt_is_Some_2 results 0) as [res Hlook]; [rewrite Hlen; lia|].
  destruct (Hrows 0%Z res) as (Hlabel & Hanti & _ & Hfirst & _); [lia | exact Hlook |].
  injection Hlabel as Hlabel. rewrite <- Hlabel in Hanti.
  rewrite (decide_False (P := 0%Z = 7%Z)) in Hfirst by done.
  destruct (Hfirst 0%Z) as (Hcol & conc & Hconc & Hval).
  - lia.
  - exists (mkClassified (demo_well 90) (20#100) (20#100) (20#100) inhibition HIGH).
    split; [by vm_compute|]. rewrite Hanti. cbn. discriminate.
  - intros; lia.
  - exists results, res. rewrite <- Hlabel in Hconc. injection Hconc as <-.
    split; [exact Hres|]. split; [exact Hlook|]. split; [exact Hcol | exact Hval].
Defined.

Lemma C9_low_control_never_divides_witness :
  exists results,
    calculate_mic (demo_scored 0) = Ok results
    /\ Forall (fun res => mic_column res = None) results.
Proof.
  destruct (C9_low_control_never_divides (demo_scored 0)
              (mkClassified (demo_well 30) 0 0 0 growth HIGH))
    as (_ & (results & Hres & _ & Hall) & _); [by vm_compute | discriminate |].
  exists results. split; [exact Hres | exact Hall].
Defined.
End MicScan.

(** ** Deduplication *)

Section Dedup.
Import Num Config WellExtractor.
Local Open Scope Q_scope.

Lemma length_filter_le {A} (f : A -> bool) (l : list A) :
  (length (List.filter f l) <= length l)%nat.
Proof. induction l as [|a l IH]; cbn; [lia|]. destruct (f a); cbn; lia. Qed.

Lemma seed_groups_fuel (f1 f2 : nat) (d : Q) (l : list Circle) :
  (length l <= f1)%nat -> (length l <= f2)%nat ->
  seed_groups f1 d l = seed_groups f2 d l.
Proof.
  revert f2 l. induction f1 as [|f1 IH]; intros f2 l H1 H2.
  - destruct l; [by destruct f2 | cbn in H1; lia].
  - destruct l as [|c rest]; [by destruct f2|].
    destruct f2 as [|f2]; [cbn in H2; lia|]. cbn in *. f_equal.
    pose proof (length_filter_le (fun c0 => negb (dist_lt c c0 d)) rest).
    apply IH; lia.
Qed.

Lemma length_pending (cs : list Circle) (us : list bool) :
  (length (pending cs us) <= length cs)%nat.
Proof.
  revert us. induction cs as [|c cs IH]; intros [|u us]; cbn; try lia.
  specialize (IH us). destruct u; cbn; lia.
Qed.

Lemma pending_replicate (cs : list Circle) :
  pending cs (replicate (length cs) false) = cs.
Proof. induction cs as [|c cs IH]; cbn; [done | by rewrite IH]. Qed.

Section Loops.
Variable cs : list Circle.
Variable d : Q.

Lemma pending_at (us : list bool) (i : nat) (c : Circle) (u : bool) :
  cs !! i = Some c -> us !! i = Some u ->
  pending (drop i cs) (drop i us)
  = if u then pending (drop (S i) cs) (drop (S i) us)
    else c :: pending (drop (S i) cs) (drop (S i) us).
Proof. intros Hc Hu. by rewrite (drop_S _ _ _ Hc), (drop_S _ _ _ Hu). Qed.

(** The inner loop from index [j] on: it appends the pending circles
    close to the seed and flags them. *)
Lemma dedup_inner_loop (seed : Circle) (k j : nat) (cluster : list Circle)
    (used : list bool) :
  length used = length cs -> (j + k = length cs)%nat ->
  exists used',
    fold_left (dedup_inner cs d seed) (seq j k) (cluster, used)
    = (cluster ++ List.filter (fun c => dist_lt seed c d)
                              (pending (drop j cs) (drop j used)), used')
    /\ length used' = length cs
    /\ (forall i, (i < j)%nat -> used' !! i = used !! i)
    /\ pending (drop j cs) (drop j used')
       = List.filter (fun c => negb (dist_lt seed c d))
                     (pending (drop j cs) (drop j used)).
Proof.
  revert j cluster used. induction k as [|k IH]; intros j cluster used Hlen Hj.
  - exists used. rewrite !drop_ge by lia. cbn. by rewrite app_nil_r.
  - destruct (lookup_lt_is_Some_2 cs j) as [cj Hcj]; [lia|].
    destruct (lookup_lt_is_Some_2 used j) as [u Hu]; [lia|].
    cbn [seq fold_left]. unfold dedup_inner at 2. rewrite Hu, Hcj.
    rewrite (pending_at used j cj u Hcj Hu).
    destruct u; [|destruct (dist_lt seed cj d) eqn:Hclose].
    + destruct (IH (S j) cluster used) as (used' & Hfold & Hlen' & Hsame & Hpend);
        [done | lia |].
      exists used'. split; [done|]. split; [done|].
      split; [intros; apply Hsame; lia|].
      rewrite (pending_at used' j cj true Hcj); [done|].
      rewrite Hsame by lia. done.
    + destruct (IH (S j) (cluster ++ [cj]) (<[j:=true]> used))
        as (used' & Hfold & Hlen' & Hsame & Hpend);
        [by rewrite length_insert | lia |].
      rewrite drop_insert_lt in Hfold, Hpend by lia.
      exists used'. split.
      { rewrite Hfold. cbn [List.filter]. rewrite Hclose. by rewrite <- app_assoc. }
      split; [done|]. split.
      { intros i Hi. rewrite Hsame by lia. apply list_lookup_insert_ne. lia. }
      rewrite (pending_at used' j cj true Hcj).
      * rewrite Hpend. cbn [List.filter]. by rewrite Hclose.
      * rewrite Hsame by lia. apply list_lookup_insert_eq. lia.
    + destruct (IH (S j) cluster used) as (used' & Hfold & Hlen' & Hsame & Hpend);
        [done | lia |].
      exists used'. split.
      { rewrite Hfold. cbn [List.filter]. by rewrite Hclose. }
      split; [done|]. split; [intros; apply Hsame; lia|].
      rewrite (pending_at used' j cj false Hcj).
      * rewrite Hpend. cbn [List.filter]. by rewrite Hclose.
      * rewrite Hsame by lia. done.
Qed.

(** The outer loop from index [i] on: it emits the mean of each seed
    group of the pending circles. *)
Lemma dedup_outer_loop (k i : nat) (used : list bool) (merged : list Circle) :
  length used = length cs -> (i + k = length cs)%nat ->
  snd (fold_left (dedup_outer cs d) (seq i k) (used, merged))
  = merged ++ map mean_circle (seed_groups k d (pending (drop i cs) (drop i used))).
Proof.
  revert i used merged. induction k as [|k IH]; intros i used merged Hlen Hi.
  - cbn. by rewrite app_nil_r.
  - destruct (lookup_lt_is_Some_2 cs i) as [ci Hci]; [lia|].
    destruct (lookup_lt_is_Some_2 used i) as [u Hu]; [lia|].
    cbn [seq fold_left]. unfold dedup_outer at 2. rewrite Hu, Hci.
    rewrite (pending_at used i ci u Hci Hu). destruct u.
    + rewrite IH by (done || lia). f_equal. f_equal.
      pose proof (length_pending (drop (S i) cs) (drop (S i) used)) as Hle.
      rewrite length_drop in Hle. apply seed_groups_fuel; lia.
    + replace (length cs - S i)%nat with k by lia.
      destruct (dedup_inner_loop ci k (S i) [ci] (<[i:=true]> used))
        as (used' & Hfold & Hlen' & _ & Hpend);
        [by rewrite length_insert | lia |].
      rewrite drop_insert_lt in Hfold, Hpend by lia.
      rewrite Hfold. rewrite IH by (done || lia).
      rewrite Hpend. cbn [seed_groups map]. by rewrite <- app_assoc.
Qed.
End Loops.

(** Deduplication is the mean of the seed groups. *)
Lemma deduplicate_seed_groups (circles : list Circle) (merge_dist : Q) :
  _deduplicate circles merge_dist
  = map mean_circle (seed_groups (length circles) merge_dist circles).
Proof.
  unfold _deduplicate. destruct (Nat.eqb_spec (length circles) 0) as [H0|H0].
  - apply nil_length_inv in H0 as ->. done.
  - rewrite (dedup_outer_loop circles merge_dist (length circles) 0)
      by (rewrite ?length_replicate; done).
    change (drop 0 ?l) with l. by rewrite pending_replicate.
Qed.

Lemma np_mean_pair (x y : Q) : np_mean [x; y] == (x + y) / 2.
Proof.
  unfold np_mean. cbn [Qsum fold_right length]. unfold Qdiv.
  change (/ inject_Z (Z.of_nat 2)) with (1#2). change (/ 2) with (1#2). lra.
Qed.

(** C4 (as amended).  Deduplication takes the candidates in input order:
    the first candidate not yet merged is the seed of a group that takes
    every later, not yet merged candidate strictly closer than the merge
    distance to the seed, and the group is replaced by the arithmetic mean
    of its coordinates and radii; the rest is deduplicated in the same way.
    Two candidates within the merge distance, alone, give one candidate at
    their average. *)
Theorem C4_dedup_groups_around_seeds (merge_dist : Q) :
  _deduplicate [] merge_dist = []
  /\ (forall seed rest,
        _deduplicate (seed :: rest) merge_dist
        = mean_circle (seed :: List.filter (fun c => dist_lt seed c merge_dist) rest)
          :: _deduplicate (List.filter (fun c => negb (dist_lt seed c merge_dist)) rest)
                          merge_dist)
  /\ (forall a b,
        dist_lt a b merge_dist = true ->
        _deduplicate [a; b] merge_dist = [mean_circle [a; b]]
        /\ c_x (mean_circle [a; b]) == (c_x a + c_x b) / 2
        /\ c_y (mean_circle [a; b]) == (c_y a + c_y b) / 2
        /\ c_r (mean_circle [a; b]) == (c_r a + c_r b) / 2).
Proof.
  assert (Hcons : forall seed rest,
    _deduplicate (seed :: rest) merge_dist
    = mean_circle (seed :: List.filter (fun c => dist_lt seed c merge_dist) rest)
      :: _deduplicate (List.filter (fun c => negb (dist_lt seed c merge_dist)) rest)
                      merge_dist).
  { intros seed rest. rewrite !deduplicate_seed_groups. cbn [length seed_groups map].
    f_equal. f_equal. apply seed_groups_fuel; [apply length_filter_le | done]. }
  split; [done|]. split; [exact Hcons|].
  intros a b Hab. split.
  - rewrite Hcons. cbn [List.filter]. rewrite Hab. cbn [negb]. done.
  - cbn [mean_circle c_x c_y c_r map]. split; [|split]; apply np_mean_pair.
Qed.

Lemma C4_dedup_groups_around_seeds_witness :
  _deduplicate [mkCircle 0 0 10; mkCircle 8 0 12] 10
  = [mean_circle [mkCircle 0 0 10; mkCircle 8 0 12]].
Proof.
  apply (C4_dedup_groups_around_seeds 10). reflexivity.
Defined.

(** C4, as stated, fails: [B] is within the merge distance of [A] and of
    [C], but [C] is farther than that from the seed [A], and stays a
    candidate of its own. *)
Lemma C4_transitive_grouping_counterexample :
  let A := mkCircle 0 0 10 in
  let B := mkCircle 8 0 12 in
  let C := mkCircle 16 0 14 in
  dist_lt A B 10 = true /\ dist_lt B C 10 = true
  /\ _deduplicate [A; B; C] 10 = [mean_circle [A; B]; mean_circle [C]]
  /\ _deduplicate [A; B; C] 10 <> [mean_circle [A; B; C]].
Proof. cbv zeta. split; [|split; [|split]]; by vm_compute. Qed.
End Dedup.

(** ** The median *)

Section Median.
Import Num.
Local Open Scope Q_scope.

Lemma In_insert_sorted (a x : Q) (l : list Q) :
  In x (insert_sorted a l) <-> x = a \/ In x l.
Proof.
  induction l as [|y l IH]; cbn; [intuition congruence|].
  destruct (Qleb a y); cbn; [intuition congruence | rewrite IH; intuition congruence].
Qed.

Lemma In_sort (x : Q) (l : list Q) : In x (sort l) <-> In x l.
Proof.
  induction l as [|a l IH]; cbn; [tauto|].
  fold (sort l). rewrite In_insert_sorted, IH. intuition congruence.
Qed.

Lemma length_insert_sorted (a : Q) (l : list Q) :
  length (insert_sorted a l) = S (length l).
Proof. induction l as [|y l IH]; cbn; [done|]. destruct (Qleb a y); cbn; by rewrite ?IH. Qed.

Lemma length_sort (l : list Q) : length (sort l) = length l.
Proof.
  induction l as [|a l IH]; cbn; [done|].
  fold (sort l). by rewrite length_insert_sorted, IH.
Qed.

(** The median is an element of the list or the mean of two of them. *)
Lemma np_median_cases (l : list Q) :
  l <> [] ->
  (exists x, In x l /\ np_median l = x)
  \/ (exists x y, In x l /\ In y l /\ np_median l = (x + y) / 2).
Proof.
  intros Hne. unfold np_median.
  assert (Hlen : (0 < length (sort l))%nat).
  { rewrite length_sort. destruct l; [done | cbn; lia]. }
  pose proof (Nat.div_lt (length (sort l)) 2 Hlen ltac:(lia)) as Hhalf.
  destruct (Nat.even (length (sort l))).
  - right. eexists _, _. split; [|split; [|reflexivity]];
      apply In_sort, nth_In; lia.
  - left. eexists. split; [|reflexivity]. apply In_sort, nth_In; lia.
Qed.

Lemma np_median_between (lo hi : Q) (l : list Q) :
  l <> [] -> (forall x, In x l -> lo <= x <= hi) -> lo <= np_median l <= hi.
Proof.
  intros Hne Hall.
  destruct (np_median_cases l Hne) as [(x & Hx & ->) | (x & y & Hx & Hy & ->)].
  - by apply Hall.
  - pose proof (Hall x Hx). pose proof (Hall y Hy).
    unfold Qdiv. change (/ 2) with (1#2). lra.
Qed.

Lemma np_median_strictly_between (lo hi : Q) (l : list Q) :
  l <> [] -> (forall x, In x l -> lo < x < hi) -> lo < np_median l < hi.
Proof.
  intros Hne Hall.
  destruct (np_median_cases l Hne) as [(x & Hx & ->) | (x & y & Hx & Hy & ->)].
  - by apply Hall.
  - pose proof (Hall x Hx). pose proof (Hall y Hy).
    unfold Qdiv. change (/ 2) with (1#2). lra.
Qed.
Lemma np_median_ge (lo : Q) (l : list Q) :
  l <> [] -> (forall x, In x l -> lo <= x) -> lo <= np_median l.
Proof.
  intros Hne Hall.
  destruct (np_median_cases l Hne) as [(x & Hx & ->) | (x & y & Hx & Hy & ->)].
  - by apply Hall.
  - pose proof (Hall x Hx). pose proof (Hall y Hy).
    unfold Qdiv. change (/ 2) with (1#2). lra.
Qed.
End Median.

(** ** Degenerate samples *)

Section Degenerate.
Import Num Config WellExtractor ColorClassifier.
Local Open Scope Q_scope.

Lemma np_clip_lower (c x lo hi : Q) : c <= x -> c <= hi -> c <= np_clip x lo hi.
Proof.
  intros Hx Hhi. unfold np_clip, py_min, py_max.
  destruct (Qltb x lo) eqn:E1;
    [destruct (Qltb hi lo) eqn:E2 | destruct (Qltb hi x) eqn:E2];
    rewrite ?Qltb_true, ?Qltb_false in *; lra.
Qed.

Lemma resolve_uncertain_wells_in_grid (m : gmap (Z * Z) ClassifiedWell) k w :
  k ∈ grid_keys -> resolve_uncertain_wells m !! k = Some w ->
  classification w ≠ uncertain.
Proof. apply resolve_fold_in_grid. Qed.

Lemma resolve_uncertain_wells_dom (m : gmap (Z * Z) ClassifiedWell) k :
  is_Some (resolve_uncertain_wells m !! k) <-> is_Some (m !! k).
Proof. apply resolve_fold_dom. Qed.

Lemma resolve_uncertain_wells_settled (m : gmap (Z * Z) ClassifiedWell) k w :
  m !! k = Some w -> classification w ≠ uncertain ->
  resolve_uncertain_wells m !! k = Some w.
Proof. apply resolve_fold_settled. Qed.

Lemma classify_wells_in_grid (wells : gmap (Z * Z) Well) (control_data : Well) :
  wells !! control_key = Some control_data ->
  (forall k, is_Some (wells !! k) -> k ∈ grid_keys) ->
  classify_wells wells
  = Ok (resolve_uncertain_wells (initial_classification wells control_data)).
Proof.
  intros Hctrl Hkeys. unfold classify_wells. rewrite Hctrl.
  set (m1 := initial_classification wells control_data).
  pose proof (resolve_uncertain_wells_in_grid m1) as Hgrid.
  pose proof (resolve_uncertain_wells_dom m1) as Hdom.
  generalize dependent (resolve_uncertain_wells m1). intros m2 Hgrid Hdom.
  assert (Hall : Forall (fun w => classification w ≠ uncertain)
                        (map snd (map_to_list m2))).
  { rewrite Forall_forall. intros w Hw.
    apply list_elem_of_fmap in Hw as ([k w'] & -> & Hkw).
    apply elem_of_map_to_list in Hkw. cbn [snd].
    apply (Hgrid k); [|done]. apply Hkeys.
    assert (is_Some (m2 !! k)) as Hs by eauto.
    apply Hdom in Hs.
    destruct (initial_classification_lookup wells control_data k) as (f & Hf & _).
    fold m1 in Hf. rewrite Hf in Hs. by apply fmap_is_Some in Hs. }
  apply count_final_Ok in Hall as [n Hn]. by rewrite Hn.
Qed.

Lemma calibration_growth_nonneg (wells : gmap (Z * Z) Well) (ctrl_hsv : Q * Q * Q) :
  0 <= snd (fst ctrl_hsv) ->
  (forall k w, wells !! k = Some w -> 0 <= sat w) ->
  0 <= fst (fst (calibration wells ctrl_hsv)).
Proof.
  intros Hctrl Hall. unfold calibration. cbv zeta. cbn [fst].
  match goal with
  | |- context [match ?l with [] => _ | _ :: _ => _ end] => set (gp := l)
  end.
  assert (Hin : forall w, In w gp -> 0 <= sat w).
  { intros w Hw. apply filter_In in Hw as [Hw _].
    apply in_map_iff in Hw as ([k w'] & <- & Hkw).
    apply list_elem_of_In, elem_of_map_to_list in Hkw. by apply (Hall k). }
  clearbody gp. destruct gp as [|w gp]; [done|].
  apply np_median_ge; [discriminate|].
  intros x Hx. apply in_map_iff in Hx as (w' & <- & Hw'). by apply Hin.
Qed.

Lemma relative_score_empty (ctrl_hsv ctrl_rgb : Q * Q * Q) (growth_sat inhib_sat : Q) :
  0 <= growth_sat ->
  40#100 <= compute_relative_score (0, 0, 0) (0, 0, 0) ctrl_hsv ctrl_rgb
                                   growth_sat inhib_sat.
Proof.
  intros Hg. unfold compute_relative_score.
  destruct ctrl_hsv as [[c_h c_s] c_v], ctrl_rgb as [[c_r c_g] c_b]. cbv zeta.
  pose proof (py_max_ge_r (inhib_sat - growth_sat) 30) as Hrange.
  set (range := py_max (inhib_sat - growth_sat) 30) in *.
  assert (Hsat : np_clip ((0 - growth_sat) / range) 0 1 <= 0).
  { apply Qle_trans with (np_clip (0 / range) 0 1).
    - apply np_clip_mono, Qdiv_le_compat_r; lra.
    - unfold Qdiv. destruct (/ range) as [n p]. by vm_compute. }
  pose proof (py_max_ge_l 0 (1 - circular_hue_distance 0 c_h / 35)) as Hhue.
  match goal with
  | |- _ <= np_clip (_ + _ + _ * ?rb + _ * ?g) 0 1 =>
      assert (Hrb : 0 <= rb);
      [| assert (Hgs : 0 <= g) by (apply np_clip_bounds; lra);
         apply np_clip_lower; lra ]
  end.
  destruct (Qltb 3 (Qabs (c_r - c_b))); [apply py_max_ge_l | by vm_compute].
Qed.

Lemma absolute_score_empty (growth_sat inhib_sat sat_mid : Q) :
  compute_absolute_score (0, 0, 0) (0, 0, 0) growth_sat inhib_sat sat_mid == 95#100.
Proof. by vm_compute. Qed.

(** The record the classifier makes of an empty well. *)
Lemma classify_one_empty (ctrl_hsv ctrl_rgb : Q * Q * Q)
    (growth_sat inhib_sat sat_mid : Q) (cx cy : Z) (crop : Z * Z) :
  0 <= growth_sat ->
  exists score rel abs,
    classify_one ctrl_hsv ctrl_rgb growth_sat inhib_sat sat_mid (_empty_well cx cy crop)
    = mkClassified (_empty_well cx cy crop) score rel abs growth HIGH
    /\ 5925#10000 <= score.
Proof.
  intros Hg. unfold classify_one. cbv zeta.
  change (hsv_median (_empty_well cx cy crop)) with (0, 0, 0).
  change (rgb_mean (_empty_well cx cy crop)) with (0, 0, 0).
  pose proof (relative_score_empty ctrl_hsv ctrl_rgb growth_sat inhib_sat Hg) as Hrel.
  pose proof (absolute_score_empty growth_sat inhib_sat sat_mid) as Habs.
  set (rel := compute_relative_score _ _ _ _ _ _) in *.
  set (abs := compute_absolute_score _ _ _ _ _) in *.
  assert (Hscore : 5925#10000 <= np_clip (RELATIVE_WEIGHT * rel + ABSOLUTE_WEIGHT * abs) 0 1).
  { apply np_clip_lower; [|lra]. unfold RELATIVE_WEIGHT, ABSOLUTE_WEIGHT. lra. }
  set (score := np_clip _ 0 1) in *.
  assert (Hpink : Qltb PINK_THRESHOLD score = true)
    by (apply Qltb_true; unfold PINK_THRESHOLD; lra).
  rewrite Hpink. eauto.
Qed.

(** C6 (as amended).  A slot whose crop has fewer than 5 rows or columns is
    sampled, without failing, as the empty well: pixel count 0 and zero
    colour statistics.  On a plate (a mapping over wells of the 8 x 12 grid
    that contains the control well) whose saturations and colour means are
    non-negative, as medians and means of pixel bytes are, the classifier
    returns, and the empty well's record is classified growth with
    confidence high: its growth score is at least 0.5925, above the growth
    threshold, so it never enters neighbour resolution. *)
Theorem C6_degenerate_crop_is_growth_high
    (img : PlateImage) (gdata : Slot) (wells : gmap (Z * Z) Well) (k : Z * Z) :
  (fst (crop_shape img gdata) < 5 \/ snd (crop_shape img gdata) < 5)%Z ->
  wells !! k = Some (sample_slot img gdata) ->
  is_Some (wells !! control_key) ->
  (forall k', is_Some (wells !! k') -> k' ∈ grid_keys) ->
  (forall k' w, wells !! k' = Some w -> 0 <= sat w) ->
  (forall k' w, wells !! k' = Some w -> rgb_nonneg (rgb_mean w)) ->
  sample_slot img gdata
  = _empty_well (py_int (slot_cx gdata)) (py_int (slot_cy gdata)) (crop_shape img gdata)
  /\ exists res cw,
       classify_wells wells = Ok res
       /\ res !! k = Some cw
       /\ pixel_count (well cw) = 0%Z
       /\ hsv_median (well cw) = (0, 0, 0) /\ hsv_mean (well cw) = (0, 0, 0)
       /\ rgb_mean (well cw) = (0, 0, 0)
       /\ classification cw = growth
       /\ confidence cw = HIGH
       /\ 5925#10000 <= growth_score cw.
Proof.
  intros Hcrop Hk [control_data Hctrl] Hkeys Hsat _.
  assert (Hempty : sample_slot img gdata
                   = _empty_well (py_int (slot_cx gdata)) (py_int (slot_cy gdata))
                                 (crop_shape img gdata)).
  { unfold sample_slot, crop_shape in *. cbv zeta. cbn [fst snd] in Hcrop.
    match goal with
    | |- (if ?a || ?b then _ else _) = _ =>
        assert (Hb : a || b = true);
        [apply orb_true_iff; rewrite !Z.ltb_lt; exact Hcrop | by rewrite Hb]
    end. }
  split; [exact Hempty|]. rewrite Hempty in Hk.
  set (e := _empty_well _ _ _) in *.
  rewrite (classify_wells_in_grid wells control_data Hctrl Hkeys).
  assert (Hinit : exists score rel abs,
            initial_classification wells control_data !! k
            = Some (mkClassified e score rel abs growth HIGH)
            /\ 5925#10000 <= score).
  { unfold initial_classification.
    pose proof (calibration_growth_nonneg wells (hsv_median control_data)
                  (Hsat _ _ Hctrl) Hsat) as Hg.
    destruct (calibration wells (hsv_median control_data)) as [[g i] mid].
    cbn [fst] in Hg. rewrite lookup_fmap, Hk. cbn [fmap option_fmap option_map].
    destruct (classify_one_empty (hsv_median control_data) (rgb_mean control_data)
                g i mid (py_int (slot_cx gdata)) (py_int (slot_cy gdata))
                (crop_shape img gdata) Hg) as (score & rel & abs & Hcl & Hscore).
    fold e in Hcl. rewrite Hcl. eauto. }
  destruct Hinit as (score & rel & abs & Hinit & Hscore).
  eexists _, _. split; [reflexivity|]. split.
  { apply resolve_uncertain_wells_settled; [exact Hinit | done]. }
  cbn. done.
Qed.

Lemma C6_degenerate_crop_is_growth_high_witness :
  exists res cw,
    classify_wells small_wells = Ok res
    /\ res !! (0, 1)%Z = Some cw
    /\ pixel_count (well cw) = 0%Z
    /\ classification cw = growth /\ confidence cw = HIGH.
Proof.
  destruct (C6_degenerate_crop_is_growth_high small_image small_slot small_wells (0, 1)%Z)
    as (_ & res & cw & Hres & Hcw & Hpc & _ & _ & _ & Hcl & Hcf & _).
  - left. by vm_compute.
  - by vm_compute.
  - exists (demo_well 30). by vm_compute.
  - intros k' Hk'. unfold small_wells in Hk'.
    apply lookup_insert_is_Some in Hk' as [<- | [_ Hk']];
      [apply (bool_decide_unpack _); by vm_compute|].
    apply lookup_insert_is_Some in Hk' as [<- | [_ Hk']];
      [apply (bool_decide_unpack _); by vm_compute|].
    rewrite lookup_empty in Hk'. by destruct Hk'.
  - intros k' w Hw. unfold small_wells in Hw.
    apply lookup_insert_Some in Hw as [[_ <-] | [_ Hw]]; [by vm_compute|].
    apply lookup_insert_Some in Hw as [[_ <-] | [_ Hw]]; [by vm_compute|].
    by rewrite lookup_empty in Hw.
  - intros k' w Hw. unfold small_wells in Hw.
    apply lookup_insert_Some in Hw as [[_ <-] | [_ Hw]];
      [repeat split; by vm_compute|].
    apply lookup_insert_Some in Hw as [[_ <-] | [_ Hw]];
      [repeat split; by vm_compute|].
    by rewrite lookup_empty in Hw.
  - exists res, cw. split; [exact Hres|]. split; [exact Hcw|].
    split; [exact Hpc|]. split; [exact Hcl | exact Hcf].
Defined.

(** C6, as stated, fails: on a 48 x 32 image in which the detector finds
    no circle (its minimum distance is 2) the slots of the naive grid have
    radius 1, every crop is 2 x 2, every well is an empty well, and each is
    classified growth with confidence high, not low. *)
Lemma C6_low_confidence_counterexample :
  py_int (py_min (inject_Z (img_w small_image) / 12) (inject_Z (img_h small_image) / 8)
          * (65#100)) = 2%Z
  /\ match extract_wells (fun l => l) small_image with
  | Ok wells =>
      match classify_wells wells with
      | Ok res =>
          wells !! (0, 1)%Z = Some (_empty_well 6 2 (2, 2)%Z)
          /\ exists cw,
               res !! (0, 1)%Z = Some cw
               /\ pixel_count (well cw) = 0%Z
               /\ classification cw = growth
               /\ confidence cw = HIGH
               /\ confidence cw <> LOW
      | Raise _ => False
      end
  | Raise _ => False
  end.
Proof.
  split; [by vm_compute|].
  vm_compute. split; [reflexivity|]. eexists. split; [reflexivity|].
  cbn. repeat split. discriminate.
Qed.
End Degenerate.

(** ** Grid fitting *)

Section GridFit.
Import Num Config WellExtractor.
Local Open Scope Q_scope.

Lemma unit_dist_band axis other expected max_other ci cj u :
  unit_dist axis other expected max_other ci cj = Some u ->
  (7#10) * expected < u < (13#10) * expected.
Proof.
  unfold unit_dist. cbv zeta.
  repeat match goal with
         | |- context [if ?b then _ else _] => destruct b eqn:?
         end; try discriminate.
  intros [= <-].
  match goal with H : _ && _ = true |- _ => apply andb_true_iff in H as [H1 H2] end.
  apply Qltb_true in H1, H2. by split.
Qed.

Lemma pair_unit_dists_band axis other expected max_other centers u :
  In u (pair_unit_dists axis other expected max_other centers) ->
  (7#10) * expected < u < (13#10) * expected.
Proof.
  induction centers as [|ci rest IH]; cbn [pair_unit_dists]; [done|].
  intros [Hu|Hu]%in_app_or; [|by apply IH].
  apply list_elem_of_In, list_elem_of_omap in Hu as (cj & _ & Hu).
  by eapply unit_dist_band.
Qed.

(** A step estimate is the expected cell size or lies within 0.7 and 1.3
    times it. *)
Lemma estimate_step_band centers axis other expected max_other :
  0 < expected ->
  let step := default expected
                (_estimate_step_from_pairs centers axis other expected max_other) in
  (7#10) * expected <= step <= (13#10) * expected.
Proof.
  intros He. unfold _estimate_step_from_pairs. cbv zeta.
  set (l := pair_unit_dists axis other expected max_other centers).
  destruct (length l <? 5)%nat eqn:Hlen; cbn [from_option id]; [lra|].
  apply Nat.ltb_ge in Hlen.
  destruct (np_median_strictly_between ((7#10) * expected) ((13#10) * expected) l).
  - intros ->. cbn in Hlen. lia.
  - intros x Hx. by eapply pair_unit_dists_band.
  - lra.
Qed.

Lemma expected_cell_positive (n : Z) (d : Q) :
  (0 < n)%Z -> 0 < d -> 0 < inject_Z n / d.
Proof.
  intros Hn Hd. apply Qlt_shift_div_l; [done|]. rewrite Qmult_0_l.
  change 0 with (inject_Z 0). by rewrite <- Zlt_Qlt.
Qed.

Lemma ratio_band (ex ey sx sy : Q) :
  0 < ex -> 0 < ey ->
  (7#10) * ex <= sx <= (13#10) * ex ->
  (7#10) * ey <= sy <= (13#10) * ey ->
  (7#13) * (ex / ey) <= sx / sy <= (13#7) * (ex / ey).
Proof.
  intros Hex Hey [Hx1 Hx2] [Hy1 Hy2].
  assert (Hsy : 0 < sy) by lra.
  assert (Hk : ex / ey * ey == ex)
    by (rewrite Qmult_comm; apply Qmult_div_r; lra).
  assert (Hk0 : 0 <= ex / ey) by (apply Qle_shift_div_l; lra).
  set (k := ex / ey) in *.
  split.
  - apply Qle_shift_div_l; [done|].
    pose proof (Qmult_le_0_compat k ((13#10) * ey - sy) Hk0 ltac:(lra)). lra.
  - apply Qle_shift_div_r; [done|].
    pose proof (Qmult_le_0_compat k (sy - (7#10) * ey) Hk0 ltac:(lra)). lra.
Qed.

Lemma estimated_steps_band (circles : list Circle) (w h : Z) :
  (0 < w)%Z -> (0 < h)%Z ->
  let ex := inject_Z w / 12 in
  let ey := inject_Z h / 8 in
  let steps := estimated_steps circles w h in
  (7#10) * ex <= fst steps <= (13#10) * ex
  /\ (7#10) * ey <= snd steps <= (13#10) * ey
  /\ (7#13) * (ex / ey) <= fst steps / snd steps <= (13#7) * (ex / ey).
Proof.
  intros Hw Hh ex ey steps.
  assert (Hex : 0 < ex) by (by apply expected_cell_positive).
  assert (Hey : 0 < ey) by (by apply expected_cell_positive).
  assert (Hx : (7#10) * ex <= fst steps <= (13#10) * ex)
    by (by apply estimate_step_band).
  assert (Hy : (7#10) * ey <= snd steps <= (13#10) * ey)
    by (by apply estimate_step_band).
  split; [done|]. split; [done|]. by apply ratio_band.
Qed.

Lemma fold_left_invariant {A B} (P : A -> Prop) (f : A -> B -> A) (l : list B) (a : A) :
  P a -> (forall a b, P a -> P (f a b)) -> P (fold_left f l a).
Proof.
  intros Ha Hstep. revert a Ha. induction l as [|b l IH]; intros a Ha; [done|].
  cbn. by apply IH, Hstep.
Qed.

Lemma score_grid_nonneg centers ox oy sx sy :
  (0 <= fst (_score_grid centers ox oy sx sy))%Z.
Proof.
  unfold _score_grid. cbv zeta.
  apply (fold_left_invariant (fun st : Z * gset (Z * Z) => (0 <= fst st)%Z)); [done|].
  intros [score used] [cx cy] Hs. cbn [fst] in *.
  destruct (slot_of cx cy ox oy sx sy) as [[[row col] err2]|]; [|done].
  match goal with |- context [if ?b then _ else _] => destruct b end; cbn [fst]; lia.
Qed.

Lemma set_add_nonempty (x : Q) (s : list Q) : set_add x s <> [].
Proof.
  unfold set_add. destruct (existsb (Qeq_bool x) s) eqn:E.
  - intros ->. discriminate.
  - by destruct s.
Qed.

Lemma origin_candidates_nonempty coords guesses step expected_s :
  origin_candidates coords guesses step expected_s <> [].
Proof. apply set_add_nonempty. Qed.

(** *** Loops that can raise *)

Lemma py_foldM_Ok {A B} (f : A -> B -> PyResult A) (g : A -> B -> A) l a :
  (forall a b, f a b = Ok (g a b)) ->
  py_foldM f l a = Ok (fold_left g l a).
Proof.
  intros Hf. revert a. induction l as [|b l IH]; intros a; [reflexivity|].
  cbn [py_foldM fold_left]. rewrite Hf. apply IH.
Qed.

Lemma py_foldM_head_Raise {A B} (f : A -> B -> PyResult A) b l a e :
  f a b = Raise e -> py_foldM f (b :: l) a = Raise e.
Proof. intros Hf. cbn [py_foldM]. by rewrite Hf. Qed.

Lemma py_omapM_Ok {A B} (f : A -> PyResult (option B)) (g : A -> option B) l :
  (forall a, f a = Ok (g a)) -> py_omapM f l = Ok (omap g l).
Proof.
  intros Hf. induction l as [|a l IH]; [reflexivity|].
  cbn [py_omapM omap list_omap]. rewrite Hf, IH. reflexivity.
Qed.

Lemma py_omapM_head_Raise {A B} (f : A -> PyResult (option B)) a l e :
  f a = Raise e -> py_omapM f (a :: l) = Raise e.
Proof. intros Hf. cbn [py_omapM]. by rewrite Hf. Qed.

Lemma round_div_Ok a s : ~ s == 0 -> round_div a s = Ok (py_round (a / s)).
Proof.
  intros Hs. unfold round_div.
  destruct (Qeq_bool s 0) eqn:E; [|reflexivity].
  by apply Qeq_bool_eq in E.
Qed.

Lemma round_div_zero a s : s == 0 -> exists e, round_div a s = Raise e /\ round_error e.
Proof.
  intros Hs. unfold round_div. rewrite (Qeq_eq_bool _ _ Hs).
  destruct (Qeq_bool a 0); eexists; (split; [reflexivity|]); [by right | by left].
Qed.

Lemma slot_of_exn_Ok cx cy ox oy sx sy :
  ~ sx == 0 -> ~ sy == 0 ->
  slot_of_exn cx cy ox oy sx sy = Ok (slot_of cx cy ox oy sx sy).
Proof.
  intros Hx Hy. unfold slot_of_exn, slot_of.
  rewrite (round_div_Ok _ _ Hx), (round_div_Ok _ _ Hy). reflexivity.
Qed.

Lemma slot_of_exn_zero cx cy ox oy sx sy :
  ~ (~ sx == 0 /\ ~ sy == 0) ->
  exists e, slot_of_exn cx cy ox oy sx sy = Raise e /\ round_error e.
Proof.
  intros Hz. unfold slot_of_exn.
  destruct (Qeq_dec sx 0) as [Hx|Hx].
  - destruct (round_div_zero (cx - ox) sx Hx) as (e & -> & He). by exists e.
  - rewrite (round_div_Ok _ _ Hx). cbn.
    destruct (Qeq_dec sy 0) as [Hy|Hy]; [|tauto].
    destruct (round_div_zero (cy - oy) sy Hy) as (e & -> & He). by exists e.
Qed.

Lemma score_grid_exn_Ok centers ox oy sx sy :
  ~ sx == 0 -> ~ sy == 0 ->
  _score_grid_exn centers ox oy sx sy = Ok (_score_grid centers ox oy sx sy).
Proof.
  intros Hx Hy. unfold _score_grid_exn, _score_grid. cbv zeta.
  apply py_foldM_Ok. intros [score used] [cx cy].
  rewrite (slot_of_exn_Ok _ _ _ _ _ _ Hx Hy). reflexivity.
Qed.

Lemma assign_circles_exn_Ok circles ox oy sx sy :
  ~ sx == 0 -> ~ sy == 0 ->
  _assign_circles_exn circles ox oy sx sy = Ok (_assign_circles circles ox oy sx sy).
Proof.
  intros Hx Hy. unfold _assign_circles_exn, _assign_circles. cbv zeta.
  apply py_foldM_Ok. intros assignments c.
  rewrite (slot_of_exn_Ok _ _ _ _ _ _ Hx Hy). reflexivity.
Qed.

Lemma assign_circles_exn_zero circles ox oy sx sy :
  circles <> [] -> ~ (~ sx == 0 /\ ~ sy == 0) ->
  exists e, _assign_circles_exn circles ox oy sx sy = Raise e /\ round_error e.
Proof.
  intros Hc Hz. destruct circles as [|c circles]; [done|].
  destruct (slot_of_exn_zero (c_x c) (c_y c) ox oy sx sy Hz) as (e & He & Herr).
  exists e. split; [|exact Herr].
  unfold _assign_circles_exn. cbv zeta. apply py_foldM_head_Raise.
  by rewrite He.
Qed.

Lemma refine_round_Ok circles threshold p :
  nonzero_steps p ->
  refine_round circles threshold p
  = Ok (if (length (accepted circles threshold p) <? 20)%nat then None
        else Some (refit (accepted circles threshold p))).
Proof.
  destruct p as [[[ox oy] sx] sy]. intros [Hx Hy]. cbn [fst snd] in Hx, Hy.
  unfold refine_round, accepted.
  erewrite py_omapM_Ok; [|intros c; rewrite (slot_of_exn_Ok _ _ _ _ _ _ Hx Hy); reflexivity].
  cbn [mbind py_bind].
  by destruct (_ <? _)%nat.
Qed.

Lemma refine_round_zero circles threshold p :
  circles <> [] -> ~ nonzero_steps p ->
  exists e, refine_round circles threshold p = Raise e /\ round_error e.
Proof.
  destruct p as [[[ox oy] sx] sy]. intros Hc Hz. unfold nonzero_steps in Hz.
  cbn [fst snd] in Hz.
  destruct circles as [|c circles]; [done|].
  destruct (slot_of_exn_zero (c_x c) (c_y c) ox oy sx sy Hz) as (e & He & Herr).
  exists e. split; [|exact Herr].
  unfold refine_round. erewrite py_omapM_head_Raise; [reflexivity|].
  by rewrite He.
Qed.

Lemma nonzero_steps_dec p : {nonzero_steps p} + {~ nonzero_steps p}.
Proof.
  unfold nonzero_steps.
  destruct (Qeq_dec (snd (fst p)) 0); [right; tauto|].
  destruct (Qeq_dec (snd p) 0); [right; tauto|]. by left.
Qed.

Lemma refinement_trace_head rounds circles threshold p :
  exists rest, refinement_trace rounds circles threshold p = p :: rest.
Proof.
  destruct rounds; cbn [refinement_trace]; [eexists; reflexivity|].
  destruct (_ <? _)%nat; eexists; reflexivity.
Qed.

Lemma last_cons_cons {A} (a b : A) l d d' : List.last (a :: b :: l) d = List.last (b :: l) d'.
Proof.
  revert a b. induction l as [|c l IH]; intros a b; [reflexivity|].
  change (List.last (b :: c :: l) d = List.last (c :: l) d'). 
  rewrite (IH b c). change (List.last (b :: c :: l) d') with (List.last (c :: l) d').
  reflexivity.
Qed.

(** The loop returns the last parameters of its trace, and raises
    exactly when a round starts from a zero step. *)
Lemma refine_loop_spec circles threshold :
  circles <> [] ->
  forall rounds p,
    match refine_loop rounds circles threshold p with
    | Ok q => q = List.last (refinement_trace rounds circles threshold p) p
              /\ (nonzero_steps q ->
                  Forall nonzero_steps (refinement_trace rounds circles threshold p))
    | Raise e => round_error e
                 /\ ~ Forall nonzero_steps (refinement_trace rounds circles threshold p)
    end.
Proof.
  intros Hc rounds. induction rounds as [|k IH]; intros p.
  - cbn. split; [reflexivity|]. intros Hq. by constructor.
  - cbn [refine_loop refinement_trace].
    destruct (nonzero_steps_dec p) as [Hp|Hp].
    + rewrite (refine_round_Ok _ _ _ Hp). cbn [mbind py_bind].
      destruct (_ <? _)%nat.
      * cbn. split; [reflexivity|]. intros _. by constructor.
      * specialize (IH (refit (accepted circles threshold p))).
        destruct (refinement_trace_head k circles threshold
                    (refit (accepted circles threshold p))) as [rest Hrest].
        rewrite Hrest in IH |- *.
        destruct (refine_loop k circles threshold _) as [q|e].
        -- destruct IH as [Hq Hall]. split.
           ++ rewrite Hq. symmetry. apply last_cons_cons.
           ++ intros Hnz. constructor; [exact Hp | by apply Hall].
        -- destruct IH as [He Hall]. split; [exact He|].
           intros HF. apply Hall. by inversion HF.
    + destruct (refine_round_zero circles threshold p Hc Hp) as (e & -> & He).
      cbn [mbind py_bind]. split; [exact He|].
      destruct (_ <? _)%nat; intros HF; inversion HF; tauto.
Qed.

Lemma refinement_trace_steps rounds circles threshold :
  forall p i p' q,
    refinement_trace rounds circles threshold p !! i = Some p' ->
    refinement_trace rounds circles threshold p !! S i = Some q ->
    (20 <= length (accepted circles threshold p'))%nat
    /\ q = refit (accepted circles threshold p').
Proof.
  induction rounds as [|k IH]; intros p i p' q; cbn [refinement_trace].
  - intros _ H. by destruct i.
  - destruct (length (accepted circles threshold p) <? 20)%nat eqn:E.
    + intros _ H. by destruct i.
    + apply Nat.ltb_ge in E.
      destruct (refinement_trace_head k circles threshold
                  (refit (accepted circles threshold p))) as [rest Hrest].
      destruct i as [|i].
      * cbn. rewrite Hrest. cbn. intros [= <-] [= <-]. by split.
      * intros H1 H2. exact (IH _ i p' q H1 H2).
Qed.

Lemma refinement_trace_stops rounds circles threshold :
  forall p,
    (length (refinement_trace rounds circles threshold p) < S rounds)%nat ->
    (length (accepted circles threshold
               (List.last (refinement_trace rounds circles threshold p) p)) < 20)%nat.
Proof.
  induction rounds as [|k IH]; intros p; cbn [refinement_trace].
  - cbn. lia.
  - destruct (length (accepted circles threshold p) <? 20)%nat eqn:E.
    + intros _. cbn. by apply Nat.ltb_lt in E.
    + destruct (refinement_trace_head k circles threshold
                  (refit (accepted circles threshold p))) as [rest Hrest].
      specialize (IH (refit (accepted circles threshold p))).
      rewrite Hrest in IH |- *. intros Hlen.
      rewrite (last_cons_cons _ _ _ _ (refit (accepted circles threshold p))).
      apply IH. cbn [length] in Hlen |- *. lia.
Qed.

(** *** The least-squares fit *)

Lemma inject_nat_succ n :
  inject_Z (Z.of_nat (S n)) == inject_Z (Z.of_nat n) + 1.
Proof. rewrite Nat2Z.inj_succ. unfold Z.succ. by rewrite inject_Z_plus. Qed.

Lemma Qsum_residuals (pts : list (Q * Q)) a b :
  Qsum (map (fun t => snd t - (a + b * fst t)) pts)
  == Qsum (map snd pts)
     - (inject_Z (Z.of_nat (length pts)) * a + b * Qsum (map fst pts)).
Proof.
  induction pts as [|[x y] pts IH]; [cbn; ring|].
  cbn [map length fst snd].
  change (Qsum (?u :: ?l)) with (u + Qsum l).
  rewrite IH, inject_nat_succ. ring.
Qed.

Lemma Qsum_weighted_residuals (pts : list (Q * Q)) a b :
  Qsum (map (fun t => fst t * (snd t - (a + b * fst t))) pts)
  == Qsum (zip_with Qmult (map fst pts) (map snd pts))
     - (a * Qsum (map fst pts) + b * Qsum (map (fun i => i * i) (map fst pts))).
Proof.
  induction pts as [|[x y] pts IH]; [cbn; ring|].
  cbn [map zip_with fst snd].
  change (Qsum (?u :: ?l)) with (u + Qsum l).
  rewrite IH. ring.
Qed.

Lemma Qsum_deviations (xs : list Q) mu :
  Qsum (map (fun x => (x - mu) * (x - mu)) xs)
  == Qsum (map (fun i => i * i) xs) - 2 * mu * Qsum xs
     + inject_Z (Z.of_nat (length xs)) * mu * mu.
Proof.
  induction xs as [|x xs IH]; [cbn; ring|].
  cbn [map length].
  change (Qsum (?u :: ?l)) with (u + Qsum l).
  rewrite IH, inject_nat_succ. ring.
Qed.

Lemma Qsum_nonneg (l : list Q) : Forall (fun x => 0 <= x) l -> 0 <= Qsum l.
Proof.
  induction 1 as [|x l Hx _ IH]; [cbn; lra|].
  change (Qsum (x :: l)) with (x + Qsum l). lra.
Qed.

Lemma Qsum_nonneg_zero (l : list Q) :
  Forall (fun x => 0 <= x) l -> Qsum l == 0 -> Forall (fun x => x == 0) l.
Proof.
  induction 1 as [|x l Hx Hl IH]; [constructor|].
  change (Qsum (x :: l)) with (x + Qsum l). intros Hs.
  pose proof (Qsum_nonneg l Hl) as Hn.
  constructor; [lra|]. apply IH. lra.
Qed.

Lemma square_nonneg (y : Q) : 0 <= y * y.
Proof.
  destruct (Qlt_le_dec y 0) as [Hy|Hy].
  - assert (E : y * y == (- y) * (- y)) by ring. rewrite E.
    apply Qmult_le_0_compat; lra.
  - by apply Qmult_le_0_compat.
Qed.

Lemma square_zero (x : Q) : x * x == 0 -> x == 0.
Proof. intros H. destruct (Qmult_integral _ _ H); assumption. Qed.

(** A zero determinant means that all the abscissas are equal. *)
Lemma zero_det_constant (xs : list Q) :
  xs <> [] ->
  inject_Z (Z.of_nat (length xs)) * Qsum (map (fun i => i * i) xs)
  - Qsum xs * Qsum xs == 0 ->
  Forall (fun x => x == hd 0 xs) xs.
Proof.
  intros Hne Hdet.
  set (n := inject_Z (Z.of_nat (length xs))) in *.
  assert (Hn : 0 < n).
  { unfold n. destruct xs; [done|]. cbn [length]. rewrite inject_nat_succ.
    assert (0 <= inject_Z (Z.of_nat (length xs))).
    { change 0 with (inject_Z 0). rewrite <- Zle_Qle. lia. }
    lra. }
  set (mu := Qsum xs / n).
  assert (Hdev : Forall (fun x => x == mu) xs).
  { assert (Hz : Forall (fun y => y == 0) (map (fun x => (x - mu) * (x - mu)) xs)).
    { apply Qsum_nonneg_zero.
      - apply Forall_map, Forall_forall. intros x _. apply square_nonneg.
      - rewrite Qsum_deviations. fold n. unfold mu.
        assert (E : Qsum (map (fun i => i * i) xs) - 2 * (Qsum xs / n) * Qsum xs
                    + n * (Qsum xs / n) * (Qsum xs / n)
                    == (n * Qsum (map (fun i => i * i) xs) - Qsum xs * Qsum xs) / n)
          by (field; lra).
        rewrite E, Hdet. field. lra. }
    apply Forall_map in Hz. eapply Forall_impl; [exact Hz|].
    cbn. intros x Hx. apply square_zero in Hx. lra. }
  destruct xs as [|c xs]; [done|]. cbn [hd].
  assert (Hc : c == mu) by (by inversion Hdev).
  eapply Forall_impl; [exact Hdev|]. cbn. intros x Hx. lra.
Qed.

Lemma constant_sums (pts : list (Q * Q)) c :
  Forall (fun x => x == c) (map fst pts) ->
  let n := inject_Z (Z.of_nat (length pts)) in
  Qsum (map fst pts) == n * c
  /\ Qsum (map (fun i => i * i) (map fst pts)) == n * c * c
  /\ Qsum (zip_with Qmult (map fst pts) (map snd pts)) == c * Qsum (map snd pts).
Proof.
  induction pts as [|[x y] pts IH]; intros H n.
  - cbn. repeat split; ring.
  - cbn [map fst snd] in H. inversion H as [|? ? Hx Hrest]; subst.
    destruct (IH Hrest) as (H1 & H2 & H3). subst n.
    cbn [map zip_with length fst snd].
    change (Qsum (?u :: ?l)) with (u + Qsum l).
    rewrite H1, H2, H3, inject_nat_succ, Hx. repeat split; ring.
Qed.

(** The line of [lstsq_line] satisfies the normal equations. *)
Lemma lstsq_line_normal (pts : list (Q * Q)) a b :
  pts <> [] ->
  lstsq_line (map fst pts) (map snd pts) = (a, b) ->
  least_squares pts a b.
Proof.
  intros Hne. unfold lstsq_line. cbv zeta. rewrite length_map.
  assert (Hn : 0 < inject_Z (Z.of_nat (length pts))).
  { destruct pts; [done|]. cbn [length]. rewrite inject_nat_succ.
    assert (0 <= inject_Z (Z.of_nat (length pts))).
    { change 0 with (inject_Z 0). rewrite <- Zle_Qle. lia. }
    lra. }
  unfold least_squares. rewrite Qsum_residuals, Qsum_weighted_residuals.
  destruct (Qeq_bool _ 0) eqn:Hdet.
  - apply Qeq_bool_eq in Hdet.
    assert (Hxs : map fst pts <> []) by (by destruct pts).
    pose proof (zero_det_constant (map fst pts) Hxs) as Hconst.
    rewrite length_map in Hconst. specialize (Hconst Hdet).
    destruct (constant_sums pts _ Hconst) as (H1 & H2 & H3).
    intros [= <- <-]. rewrite !Qred_correct, H1, H2, H3.
    set (c := hd 0 (map fst pts)).
    assert (Hcc : 0 < 1 + c * c) by (pose proof (square_nonneg c); lra).
    set (n := inject_Z (Z.of_nat (length pts))) in *. clearbody n.
    split; field; lra.
  - apply Qeq_bool_neq in Hdet.
    intros [= <- <-]. rewrite !Qred_correct.
    set (n := inject_Z (Z.of_nat (length pts))) in *. clearbody n.
    split; field; lra.
Qed.

Lemma refit_least_squares pts ox oy sx sy :
  pts <> [] -> refit pts = (ox, oy, sx, sy) ->
  least_squares (map (fun t => (snd (fst (fst t)), snd (fst t))) pts) ox sx
  /\ least_squares (map (fun t => (fst (fst (fst t)), snd t)) pts) oy sy.
Proof.
  intros Hne. unfold refit. cbv zeta.
  destruct (lstsq_line (map (fun t => snd (fst (fst t))) pts) _) as [ox' sx'] eqn:Hx.
  destruct (lstsq_line (map (fun t => fst (fst (fst t))) pts) _) as [oy' sy'] eqn:Hy.
  intros [= <- <- <- <-]. split.
  - apply lstsq_line_normal; [by destruct pts|]. rewrite !map_map. exact Hx.
  - apply lstsq_line_normal; [by destruct pts|]. rewrite !map_map. exact Hy.
Qed.

(** *** The origin search *)

Lemma fold_left_map_fun {A B C} (F : A -> C -> A) (g : B -> C) l a :
  fold_left F (map g l) a = fold_left (fun a b => F a (g b)) l a.
Proof. revert a. induction l as [|b l IH]; intros a; [reflexivity|]. cbn. apply IH. Qed.

Lemma fold_left_nested {A B C} (F : A -> B * C -> A) l1 l2 a :
  fold_left (fun a b => fold_left (fun a c => F a (b, c)) l2 a) l1 a
  = fold_left F (list_prod l1 l2) a.
Proof.
  revert a. induction l1 as [|b l1 IH]; intros a; [reflexivity|].
  cbn [fold_left list_prod]. rewrite fold_left_app, fold_left_map_fun. apply IH.
Qed.

Lemma keep_best_invariant {A} (score : A -> Z) (l seen : list A) best :
  (exists x, best = (Some x, score x) /\ In x seen
             /\ forall y, In y seen -> (score y <= score x)%Z) ->
  exists x, fold_left (keep_best score) l best = (Some x, score x)
            /\ In x (seen ++ l)
            /\ forall y, In y (seen ++ l) -> (score y <= score x)%Z.
Proof.
  revert seen best. induction l as [|a l IH]; intros seen best Hinv.
  - rewrite app_nil_r. exact Hinv.
  - cbn [fold_left].
    replace (seen ++ a :: l) with ((seen ++ [a]) ++ l) by (by rewrite <- app_assoc).
    apply IH. destruct Hinv as (x & -> & Hin & Hmax).
    unfold keep_best. cbn [snd]. destruct (score x <? score a)%Z eqn:E.
    + apply Z.ltb_lt in E. exists a. split; [reflexivity|].
      split; [apply in_app_iff; right; by left|].
      intros y [Hy|[<-|[]]]%in_app_iff; [|lia]. specialize (Hmax y Hy). lia.
    + apply Z.ltb_ge in E. exists x. split; [reflexivity|].
      split; [apply in_app_iff; by left|].
      intros y [Hy|[<-|[]]]%in_app_iff; [by apply Hmax | lia].
Qed.

Lemma keep_best_argmax {A} (score : A -> Z) (l : list A) :
  (forall x, (0 <= score x)%Z) -> l <> [] ->
  exists x, fold_left (keep_best score) l (None, (-1)%Z) = (Some x, score x)
            /\ In x l /\ forall y, In y l -> (score y <= score x)%Z.
Proof.
  intros Hpos Hne. destruct l as [|a l]; [done|]. cbn [fold_left].
  apply (keep_best_invariant score l [a]).
  exists a. unfold keep_best. cbn [snd].
  rewrite (proj2 (Z.ltb_lt _ _)) by (specialize (Hpos a); lia).
  split; [reflexivity|]. split; [by left|]. intros y [<-|[]]. lia.
Qed.

Section Origin.
Variable set_iter : list Q -> list Q.
Hypothesis set_iter_perm : forall l, Permutation (set_iter l) l.

Lemma set_iter_nonempty (l : list Q) : l <> [] -> set_iter l <> [].
Proof.
  intros Hl Hs. pose proof (set_iter_perm l) as Hp. rewrite Hs in Hp.
  by apply Permutation_nil_l in Hp.
Qed.

Lemma set_iter_In (l : list Q) x : In x (set_iter l) <-> x ∈ l.
Proof. rewrite <- list_elem_of_In. by rewrite (set_iter_perm l). Qed.

(** The origin search settles on a candidate pair of maximal score:
    both candidate sets are non-empty and a score is never negative. *)
Lemma best_origin_argmax centers candidate_ox candidate_oy step_x step_y :
  candidate_ox <> [] -> candidate_oy <> [] ->
  exists a b,
    best_origin set_iter centers candidate_ox candidate_oy step_x step_y
    = (Some (a, b), fst (_score_grid centers a b step_x step_y))
    /\ a ∈ candidate_ox /\ b ∈ candidate_oy
    /\ forall a' b', a' ∈ candidate_ox -> b' ∈ candidate_oy ->
         (fst (_score_grid centers a' b' step_x step_y)
          <= fst (_score_grid centers a b step_x step_y))%Z.
Proof.
  intros Hox Hoy. unfold best_origin.
  apply set_iter_nonempty in Hox, Hoy.
  pose (score := fun x : Q * Q => fst (_score_grid centers (fst x) (snd x) step_x step_y)).
  change (exists a b,
             fold_left (fun best ox0 =>
                          fold_left (fun best oy0 => keep_best score best (ox0, oy0))
                                    (set_iter candidate_oy) best)
                       (set_iter candidate_ox) (None, (-1)%Z)
             = (Some (a, b), score (a, b))
             /\ a ∈ candidate_ox /\ b ∈ candidate_oy
             /\ forall a' b', a' ∈ candidate_ox -> b' ∈ candidate_oy ->
                  (score (a', b') <= score (a, b))%Z).
  rewrite (fold_left_nested (keep_best score)).
  destruct (keep_best_argmax score (list_prod (set_iter candidate_ox) (set_iter candidate_oy)))
    as ([a b] & Hfold & Hin & Hmax).
  - intros x. apply score_grid_nonneg.
  - destruct (set_iter candidate_ox) as [|x xs]; [done|].
    destruct (set_iter candidate_oy) as [|y ys]; [done|]. done.
  - apply in_prod_iff in Hin. rewrite !set_iter_In in Hin. destruct Hin as [Ha Hb].
    exists a, b. split; [exact Hfold|]. split; [exact Ha|]. split; [exact Hb|].
    intros a' b' Ha' Hb'. apply Hmax, in_prod_iff. by rewrite !set_iter_In.
Qed.

Lemma best_origin_exn_Ok centers candidate_ox candidate_oy step_x step_y :
  ~ step_x == 0 -> ~ step_y == 0 ->
  best_origin_exn set_iter centers candidate_ox candidate_oy step_x step_y
  = Ok (best_origin set_iter centers candidate_ox candidate_oy step_x step_y).
Proof.
  intros Hx Hy. unfold best_origin_exn, best_origin.
  apply py_foldM_Ok. intros best ox.
  apply py_foldM_Ok. intros best' oy.
  rewrite (score_grid_exn_Ok _ _ _ _ _ Hx Hy). reflexivity.
Qed.

Lemma Forall_last {A} (P : A -> Prop) (l : list A) d :
  l <> [] -> Forall P l -> P (List.last l d).
Proof.
  intros Hne HF. apply Forall_forall with (x := List.last l d) in HF; [exact HF|].
  destruct (exists_last Hne) as (l' & a & ->). rewrite last_last.
  apply list_elem_of_In, in_app_iff. right. by left.
Qed.

(** The fitter, step by step: the origin of maximal score, then the
    refinement along its trace, then the assignment. *)
Lemma fit_grid_robust_spec circles w h med_radius :
  circles <> [] -> (0 < w)%Z -> (0 < h)%Z ->
  let step_x := fst (estimated_steps circles w h) in
  let step_y := snd (estimated_steps circles w h) in
  let centers := map (fun c => (c_x c, c_y c)) circles in
  let candidate_ox := origin_candidates (map fst centers) COLS step_x (inject_Z w / 12) in
  let candidate_oy := origin_candidates (map snd centers) ROWS step_y (inject_Z h / 8) in
  exists best_ox best_oy,
    best_ox ∈ candidate_ox /\ best_oy ∈ candidate_oy
    /\ (forall ox oy, ox ∈ candidate_ox -> oy ∈ candidate_oy ->
          (fst (_score_grid centers ox oy step_x step_y)
           <= fst (_score_grid centers best_ox best_oy step_x step_y))%Z)
    /\ let start := (best_ox, best_oy, step_x, step_y) in
       let trace := refinement_trace 3 circles (py_max step_x step_y * (35#100)) start in
       (Forall nonzero_steps trace ->
        exists grid,
          fit_grid_robust set_iter circles w h med_radius
          = Ok (grid, List.last trace start)
          /\ size grid = 96%nat)
       /\ (~ Forall nonzero_steps trace ->
           exists e,
             fit_grid_robust set_iter circles w h med_radius = Raise e
             /\ (e = OverflowError \/ e = ValueError)).
Proof.
  intros Hc Hw Hh. cbv zeta.
  pose proof (estimated_steps_band circles w h Hw Hh) as (Hbx & Hby & _).
  pose proof (expected_cell_positive w 12 Hw eq_refl) as Hex.
  pose proof (expected_cell_positive h 8 Hh eq_refl) as Hey.
  unfold fit_grid_robust. cbv zeta.
  destruct (estimated_steps circles w h) as [step_x step_y]. cbn [fst snd] in *.
  assert (Hx : ~ step_x == 0) by lra.
  assert (Hy : ~ step_y == 0) by lra.
  rewrite (best_origin_exn_Ok _ _ _ _ _ Hx Hy). cbn [mbind py_bind].
  match goal with
  | |- context [best_origin set_iter ?c ?cox ?coy ?sx ?sy] =>
      destruct (best_origin_argmax c cox coy sx sy)
        as (best_ox & best_oy & Hbest & Hin_x & Hin_y & Hmax);
      [apply origin_candidates_nonempty | apply origin_candidates_nonempty |];
      rewrite Hbest
  end.
  cbn [fst]. exists best_ox, best_oy.
  split; [exact Hin_x|]. split; [exact Hin_y|]. split; [exact Hmax|].
  unfold _refine_grid_lsq. cbv zeta.
  pose proof (refine_loop_spec circles (py_max step_x step_y * (35#100)) Hc 3
                (best_ox, best_oy, step_x, step_y)) as Hloop.
  destruct (refinement_trace_head 3 circles (py_max step_x step_y * (35#100))
              (best_ox, best_oy, step_x, step_y)) as [rest Htrace].
  destruct (refine_loop 3 circles _ _) as [[[[ox oy] sx] sy]|e].
  - destruct Hloop as [Hq Hall]. cbn [mbind py_bind]. split.
    + intros HF.
      assert (Hnz : nonzero_steps (ox, oy, sx, sy)).
      { rewrite Hq. apply Forall_last; [by rewrite Htrace | exact HF]. }
      destruct Hnz as [Hsx Hsy]. cbn [fst snd] in Hsx, Hsy.
      rewrite (assign_circles_exn_Ok _ _ _ _ _ Hsx Hsy). cbn [mbind py_bind].
      eexists. split; [rewrite <- Hq; reflexivity | apply build_grid_size].
    + intros HnF.
      destruct (assign_circles_exn_zero circles ox oy sx sy Hc) as (e & -> & He).
      { intros Hnz. apply HnF, Hall. exact Hnz. }
      exists e. split; [reflexivity | exact He].
  - destruct Hloop as [He HnF]. cbn [mbind py_bind]. split; [done|].
    intros _. exists e. split; [reflexivity | exact He].
Qed.
End Origin.

(** The fit of the off-pitch sample, whatever the order in which the
    origin candidates are visited: one origin candidate on each axis, and
    a refinement that keeps the steps 100 and 80. *)
Lemma fit_offpitch_any_order (set_iter : list Q -> list Q) :
  (forall l, Permutation (set_iter l) l) ->
  exists grid,
    fit_grid_robust set_iter offpitch_circles 1200 800 40
    = Ok (grid, (50, 50, 100, 80))
    /\ size grid = 96%nat.
Proof.
  intros Hperm.
  pose proof (fit_grid_robust_spec set_iter Hperm offpitch_circles 1200 800 40) as H.
  cbv zeta in H.
  destruct H as (best_ox & best_oy & Hin_x & Hin_y & _ & Hret & _);
    [done | reflexivity | reflexivity |].
  match type of Hin_x with _ ∈ ?l => replace l with [50] in Hin_x by (by vm_compute) end.
  match type of Hin_y with _ ∈ ?l => replace l with [50] in Hin_y by (by vm_compute) end.
  apply list_elem_of_singleton in Hin_x, Hin_y. subst best_ox best_oy.
  match type of Hret with
  | Forall _ ?t -> _ =>
      replace t with [(50, 50, 200 # 2, 160 # 2); (50, 50, 100, 80);
                      (50, 50, 100, 80); (50, 50, 100, 80)] in Hret
        by (by vm_compute)
  end.
  cbn [List.last] in Hret. apply Hret.
  repeat constructor; intros H; vm_compute in H; discriminate H.
Qed.

(** A one-row set of candidates: the refit of the rows has slope zero,
    and the next division by the step makes [round] raise. *)
Lemma fit_one_row_raises :
  (20 <= length one_row_circles)%nat
  /\ fit_grid_robust (fun l => l) one_row_circles 1200 800 40 = Raise ValueError.
Proof. split; [vm_compute; lia | by vm_compute]. Qed.

(** C1 (as amended).  For an input with at least 20 filtered candidates,
    each per-axis step estimate is within 0.7 and 1.3 times the expected
    cell size of its axis (width / 12, height / 8), so the ratio of the
    estimates is within 7/13 and 13/7 times the ratio of the expected cell
    sizes, and no narrower band is enforced.  The fitter starts from the
    estimates at an origin candidate of maximal score and refines them: the
    parameters it meets are the start and, after each of at most three
    rounds that accept at least 20 candidates, the least-squares fit of the
    accepted points (it satisfies the normal equations on them).  When none
    of these parameters has a zero step the fitter returns a grid of 96
    slots with the last of them; otherwise [round] raises OverflowError or
    ValueError.  When the first round accepts fewer than 20 candidates the
    estimates are the final steps. *)
Theorem C1_fitted_steps_follow_estimates (set_iter : list Q -> list Q)
    (circles : list Circle) (w h : Z) (med_radius : Q) :
  (forall l, Permutation (set_iter l) l) ->
  (20 <= length circles)%nat -> (0 < w)%Z -> (0 < h)%Z ->
  let ex := inject_Z w / 12 in
  let ey := inject_Z h / 8 in
  let step_x := fst (estimated_steps circles w h) in
  let step_y := snd (estimated_steps circles w h) in
  let centers := map (fun c => (c_x c, c_y c)) circles in
  let candidate_ox := origin_candidates (map fst centers) COLS step_x ex in
  let candidate_oy := origin_candidates (map snd centers) ROWS step_y ey in
  let threshold := py_max step_x step_y * (35#100) in
  (7#10) * ex <= step_x <= (13#10) * ex
  /\ (7#10) * ey <= step_y <= (13#10) * ey
  /\ (7#13) * (ex / ey) <= step_x / step_y <= (13#7) * (ex / ey)
  /\ exists best_ox best_oy,
       best_ox ∈ candidate_ox /\ best_oy ∈ candidate_oy
       /\ (forall ox oy, ox ∈ candidate_ox -> oy ∈ candidate_oy ->
             (fst (_score_grid centers ox oy step_x step_y)
              <= fst (_score_grid centers best_ox best_oy step_x step_y))%Z)
       /\ let start := (best_ox, best_oy, step_x, step_y) in
          let trace := refinement_trace 3 circles threshold start in
          let final := List.last trace start in
          (Forall nonzero_steps trace ->
           exists grid,
             fit_grid_robust set_iter circles w h med_radius = Ok (grid, final)
             /\ size grid = 96%nat)
          /\ (~ Forall nonzero_steps trace ->
              exists e,
                fit_grid_robust set_iter circles w h med_radius = Raise e
                /\ (e = OverflowError \/ e = ValueError))
          /\ (exists rest, trace = start :: rest)
          /\ (forall i p ox oy sx sy,
                trace !! i = Some p -> trace !! S i = Some (ox, oy, sx, sy) ->
                let pts := accepted circles threshold p in
                (20 <= length pts)%nat
                /\ (ox, oy, sx, sy) = refit pts
                /\ least_squares (map (fun t => (snd (fst (fst t)), snd (fst t))) pts) ox sx
                /\ least_squares (map (fun t => (fst (fst (fst t)), snd t)) pts) oy sy)
          /\ ((length trace < 4)%nat ->
              (length (accepted circles threshold final) < 20)%nat)
          /\ ((length (accepted circles threshold start) < 20)%nat ->
              trace = [start]).
Proof.
  intros Hperm Hlen Hw Hh ex ey step_x step_y centers candidate_ox candidate_oy threshold.
  destruct (estimated_steps_band circles w h Hw Hh) as (Hx & Hy & Hratio).
  split; [exact Hx|]. split; [exact Hy|]. split; [exact Hratio|].
  assert (Hc : circles <> []) by (intros ->; cbn in Hlen; lia).
  destruct (fit_grid_robust_spec set_iter Hperm circles w h med_radius Hc Hw Hh)
    as (best_ox & best_oy & Hin_x & Hin_y & Hmax & Hret & Hraise).
  exists best_ox, best_oy.
  split; [exact Hin_x|]. split; [exact Hin_y|]. split; [exact Hmax|].
  intros start trace final.
  split; [exact Hret|]. split; [exact Hraise|].
  split; [apply refinement_trace_head|].
  split; [|split].
  - intros i p ox oy sx sy Hp Hq pts.
    destruct (refinement_trace_steps 3 circles threshold start i p _ Hp Hq)
      as [Hpts Hrefit].
    split; [exact Hpts|]. split; [exact Hrefit|].
    apply refit_least_squares; [|by symmetry].
    intros Hnil. fold pts in Hpts. rewrite Hnil in Hpts. cbn in Hpts. lia.
  - apply (refinement_trace_stops 3 circles threshold start).
  - intros Hstop. unfold trace. cbn [refinement_trace].
    by rewrite (proj2 (Nat.ltb_lt _ _) Hstop).
Qed.

Lemma C1_fitted_steps_follow_estimates_witness :
  exists grid,
    fit_grid_robust (fun l => l) offpitch_circles 1200 800 40
    = Ok (grid, (50, 50, 100, 80))
    /\ size grid = 96%nat.
Proof.
  pose proof (C1_fitted_steps_follow_estimates (fun l => l) offpitch_circles 1200 800 40)
    as H.
  cbv zeta in H.
  destruct H as (_ & _ & _ & best_ox & best_oy & Hin_x & Hin_y & _ & Hret & _).
  - intros l. reflexivity.
  - vm_compute. lia.
  - reflexivity.
  - reflexivity.
  - match type of Hin_x with _ ∈ ?l => replace l with [50] in Hin_x by (by vm_compute) end.
    match type of Hin_y with _ ∈ ?l => replace l with [50] in Hin_y by (by vm_compute) end.
    apply list_elem_of_singleton in Hin_x, Hin_y. subst best_ox best_oy.
    match type of Hret with
    | Forall _ ?t -> _ =>
        replace t with [(50, 50, 200 # 2, 160 # 2); (50, 50, 100, 80);
                        (50, 50, 100, 80); (50, 50, 100, 80)] in Hret
          by (by vm_compute)
    end.
    cbn [List.last] in Hret. apply Hret.
    repeat constructor; intros H; vm_compute in H; discriminate H.
Defined.

(** C1, as stated, fails: the step estimates are 100 and 80, their ratio
    1.25 is outside [0.85, 1.15], they are not replaced by their average,
    and the finalized steps are 100 and 80 again, whatever the order in
    which the origin candidates are visited. *)
Lemma C1_step_ratio_counterexample :
  (20 <= length offpitch_circles)%nat
  /\ estimated_steps offpitch_circles 1200 800 = (200 # 2, 160 # 2)
  /\ forall set_iter : list Q -> list Q,
       (forall l, Permutation (set_iter l) l) ->
       match fit_grid_robust set_iter offpitch_circles 1200 800 40 with
       | Ok (_, (_, _, sx, sy)) => sx = 100 /\ sy = 80 /\ 115#100 < sx / sy
       | Raise _ => False
       end.
Proof.
  split; [vm_compute; lia|]. split; [by vm_compute|].
  intros set_iter Hperm.
  destruct (fit_offpitch_any_order set_iter Hperm) as (grid & -> & _).
  repeat split.
Qed.

End GridFit.
(** ** The classifier: rules, records and errors *)

Section ClassifierMore.
Import Num Config WellExtractor ColorClassifier.
Local Open Scope Q_scope.

(** X1: the decision table of the neighbour rules.  The result is MEDIUM
    exactly when the left neighbour is growth or the right one inhibition
    (and the other one is not partial); it is then inhibition exactly when
    the right neighbour is inhibition.  Otherwise it is LOW, and growth
    exactly when the score reaches the fallback threshold. *)
Theorem apply_neighbor_rules_table (score : Q) (l r : option Classification) :
  let res := apply_neighbor_rules score l r in
  (snd res = MEDIUM <->
     (l = Some growth /\ r <> Some partial) \/ (r = Some inhibition /\ l <> Some partial))
  /\ (snd res = MEDIUM -> (fst res = inhibition <-> r = Some inhibition))
  /\ (snd res = MEDIUM -> (fst res = growth <-> r <> Some inhibition))
  /\ (snd res <> MEDIUM ->
        snd res = LOW
        /\ (fst res = growth <-> FALLBACK_THRESHOLD <= score)
        /\ (fst res = inhibition <-> score < FALLBACK_THRESHOLD)).
Proof.
  cbv zeta. unfold apply_neighbor_rules.
  destruct l as [[]|], r as [[]|]; cbn [bool_decide andb];
    repeat (rewrite ?bool_decide_true by (intuition congruence);
            rewrite ?bool_decide_false by (intuition congruence); cbn [andb]).
  all: try (destruct (Qleb FALLBACK_THRESHOLD score) eqn:E;
            [apply Qleb_true in E | apply Qleb_false in E]).
  all: cbn [fst snd]; repeat split; try (intuition congruence); try (intros; lra).
Qed.

(** X2: the hue distance is symmetric, at most a quarter turn, zero on
    equal hues, and not negative for hues of the OpenCV range. *)
Theorem circular_hue_distance_facts (h1 h2 : Q) :
  circular_hue_distance h1 h2 == circular_hue_distance h2 h1
  /\ circular_hue_distance h1 h2 <= 90
  /\ circular_hue_distance h1 h1 == 0
  /\ (0 <= h1 <= 180 -> 0 <= h2 <= 180 -> 0 <= circular_hue_distance h1 h2).
Proof.
  unfold circular_hue_distance, py_min. cbv zeta.
  assert (Habs : forall a b, Qabs (a - b) == Qabs (b - a)).
  { intros a b. rewrite <- (Qabs_opp (a - b)). apply Qabs_wd. ring. }
  assert (Hcases : forall a b, (a <= b /\ Qabs (a - b) == b - a)
                               \/ (b <= a /\ Qabs (a - b) == a - b)).
  { intros a b. destruct (Qlt_le_dec a b) as [Hlt|Hle].
    - left. split; [lra|]. rewrite Habs. apply Qabs_pos. lra.
    - right. split; [lra|]. apply Qabs_pos. lra. }
  pose proof (Habs h1 h2) as H12. pose proof (Hcases h1 h2) as Hc.
  assert (H11 : Qabs (h1 - h1) == 0).
  { destruct (Hcases h1 h1) as [[_ ->] | [_ ->]]; ring. }
  repeat split.
  - destruct (Qltb (180 - Qabs (h1 - h2)) (Qabs (h1 - h2))) eqn:E1,
             (Qltb (180 - Qabs (h2 - h1)) (Qabs (h2 - h1))) eqn:E2;
      rewrite ?Qltb_true, ?Qltb_false in *; lra.
  - destruct (Qltb (180 - Qabs (h1 - h2)) (Qabs (h1 - h2))) eqn:E1;
      rewrite ?Qltb_true, ?Qltb_false in *; lra.
  - destruct (Qltb (180 - Qabs (h1 - h1)) (Qabs (h1 - h1))) eqn:E1;
      rewrite ?Qltb_true, ?Qltb_false in *; lra.
  - intros Hh1 Hh2.
    destruct (Qltb (180 - Qabs (h1 - h2)) (Qabs (h1 - h2))) eqn:E1;
      rewrite ?Qltb_true, ?Qltb_false in *; destruct Hc as [[? ?]|[? ?]]; lra.
Qed.

Lemma circular_hue_distance_facts_witness :
  0 <= circular_hue_distance 2 178.
Proof.
  apply (circular_hue_distance_facts 2 178); split; discriminate.
Defined.

(** The fields a resolution step leaves alone. *)
Lemma resolve_step_fields m k k' w' :
  resolve_step m k !! k' = Some w' ->
  exists w, m !! k' = Some w /\ well w' = well w
            /\ growth_score w' = growth_score w
            /\ relative_score w' = relative_score w
            /\ absolute_score w' = absolute_score w.
Proof.
  destruct (decide (k = k')) as [->|Hne].
  - unfold resolve_step. destruct k' as [r c].
    destruct (m !! (r, c)) as [w|] eqn:E; [|by rewrite E].
    case_bool_decide; [rewrite E; intros [= <-]; eauto 10|].
    destruct (apply_neighbor_rules _ _ _). rewrite lookup_insert_eq.
    intros [= <-]. eauto 10.
  - rewrite resolve_step_other by done. eauto 10.
Qed.

Lemma resolve_uncertain_wells_fields m k' w' :
  resolve_uncertain_wells m !! k' = Some w' ->
  exists w, m !! k' = Some w /\ well w' = well w
            /\ growth_score w' = growth_score w
            /\ relative_score w' = relative_score w
            /\ absolute_score w' = absolute_score w.
Proof.
  unfold resolve_uncertain_wells. generalize grid_keys. intros keys.
  revert m. induction keys as [|k keys IH]; intros m; cbn [fold_left].
  - eauto 10.
  - intros Hk. apply IH in Hk as (w1 & Hw1 & H1 & H2 & H3 & H4).
    apply resolve_step_fields in Hw1 as (w & Hw & G1 & G2 & G3 & G4).
    exists w. split; [done|]. repeat split; congruence.
Qed.

Lemma resolve_uncertain_wells_other m k :
  k ∉ grid_keys -> resolve_uncertain_wells m !! k = m !! k.
Proof. apply resolve_fold_other. Qed.

(** What the pass does to an uncertain well of the grid. *)
Lemma resolve_uncertain_wells_at m r c w :
  (r, c) ∈ grid_keys -> m !! (r, c) = Some w -> classification w = uncertain ->
  exists w' l rt,
    resolve_uncertain_wells m !! (r, c) = Some w'
    /\ (classification w', confidence w') = apply_neighbor_rules (growth_score w) l rt.
Proof.
  intros Hin Hw Hu.
  apply list_elem_of_split in Hin as (pre & post & Hsplit).
  pose proof NoDup_grid_keys as Hnd. rewrite Hsplit in Hnd.
  apply NoDup_app in Hnd as (_ & Hdisj & _).
  assert (Hnin : (r, c) ∉ pre) by (intros Hin; apply (Hdisj _ Hin); by left).
  rewrite (resolve_uncertain_wells_split _ _ _ _ Hsplit).
  set (m1 := fold_left resolve_step pre m).
  assert (Hm1 : m1 !! (r, c) = Some w) by (unfold m1; by rewrite resolve_fold_other).
  destruct (resolve_step_at m1 r c w Hm1 Hu) as (w' & Hw' & Hcl & _).
  exists w', (left_class m1 r c), (right_class m1 r c). split; [|done].
  apply resolve_fold_settled; [done|].
  pose proof (apply_neighbor_rules_resolved (growth_score w) (left_class m1 r c)
                (right_class m1 r c)) as Hres.
  rewrite <- Hcl in Hres. cbn in Hres. destruct Hres as [-> | ->]; done.
Qed.

(** X3: the resolution pass is idempotent, returns every well that is not
    uncertain as it was, and keeps the keys of the dictionary. *)
Theorem resolve_uncertain_wells_idempotent (m : gmap (Z * Z) ClassifiedWell) :
  resolve_uncertain_wells (resolve_uncertain_wells m) = resolve_uncertain_wells m
  /\ (forall k w, m !! k = Some w -> classification w <> uncertain ->
        resolve_uncertain_wells m !! k = Some w)
  /\ (forall k, is_Some (resolve_uncertain_wells m !! k) <-> is_Some (m !! k)).
Proof.
  split; [|split; [apply resolve_uncertain_wells_settled
                  | apply resolve_uncertain_wells_dom]].
  pose proof (resolve_uncertain_wells_in_grid m) as Hgrid.
  generalize dependent (resolve_uncertain_wells m). intros m2 Hgrid.
  apply map_eq. intros k.
  destruct (decide (k ∈ grid_keys)) as [Hin|Hnin];
    [|by apply resolve_uncertain_wells_other].
  destruct (m2 !! k) as [w|] eqn:Hk.
  - apply resolve_uncertain_wells_settled; [done | by apply (Hgrid k)].
  - apply eq_None_not_Some. rewrite resolve_uncertain_wells_dom, Hk.
    by intros [? ?].
Qed.

Lemma count_final_error l e : count_final l = Raise e -> e = KeyError.
Proof.
  unfold count_final. generalize (0%Z, 0%Z, 0%Z). induction l as [|w l IH]; intros acc.
  - done.
  - cbn [foldl]. destruct acc as [[g i] p]. cbn [mbind py_bind].
    destruct (classification w); try apply IH.
    rewrite count_final_raise. congruence.
Qed.

Lemma initial_classification_at wells control_data :
  exists g i mid, forall k,
    initial_classification wells control_data !! k
    = classify_one (hsv_median control_data) (rgb_mean control_data) g i mid
        <$> wells !! k.
Proof.
  unfold initial_classification.
  destruct (calibration wells (hsv_median control_data)) as [[g i] mid].
  exists g, i, mid. intros k. by rewrite lookup_fmap.
Qed.

Lemma relative_score_bounds well_hsv well_rgb ctrl_hsv ctrl_rgb g i :
  0 <= compute_relative_score well_hsv well_rgb ctrl_hsv ctrl_rgb g i <= 1.
Proof.
  destruct well_hsv as [[? ?] ?], well_rgb as [[? ?] ?],
           ctrl_hsv as [[? ?] ?], ctrl_rgb as [[? ?] ?].
  unfold compute_relative_score. cbv zeta. by apply np_clip_bounds.
Qed.

Lemma absolute_score_bounds well_hsv well_rgb g i mid :
  0 <= compute_absolute_score well_hsv well_rgb g i mid <= 1.
Proof.
  destruct well_hsv as [[? ?] ?], well_rgb as [[? ?] ?].
  unfold compute_absolute_score. cbv zeta. by apply np_clip_bounds.
Qed.

Lemma classify_one_cases ctrl_hsv ctrl_rgb g i mid d :
  let cw := classify_one ctrl_hsv ctrl_rgb g i mid d in
  well cw = d
  /\ 0 <= growth_score cw <= 1
  /\ 0 <= relative_score cw <= 1
  /\ 0 <= absolute_score cw <= 1
  /\ ((PINK_THRESHOLD < growth_score cw
       /\ classification cw = growth /\ confidence cw = HIGH)
      \/ (growth_score cw < PURPLE_THRESHOLD
          /\ classification cw = inhibition /\ confidence cw = HIGH)
      \/ (PURPLE_THRESHOLD <= growth_score cw <= PINK_THRESHOLD
          /\ classification cw = uncertain /\ confidence cw = LOW)).
Proof.
  unfold classify_one. cbv zeta.
  pose proof (relative_score_bounds (hsv_median d) (rgb_mean d) ctrl_hsv ctrl_rgb g i)
    as Hrel.
  pose proof (absolute_score_bounds (hsv_median d) (rgb_mean d) g i mid) as Habs.
  set (rel := compute_relative_score _ _ _ _ _ _) in *.
  set (ab := compute_absolute_score _ _ _ _ _) in *.
  pose proof (np_clip_bounds (RELATIVE_WEIGHT * rel + ABSOLUTE_WEIGHT * ab) 0 1) as Hg.
  set (score := np_clip _ 0 1) in *.
  assert (0 <= score <= 1) as Hscore by (by apply Hg).
  destruct (Qltb PINK_THRESHOLD score) eqn:E1;
    [|destruct (Qltb score PURPLE_THRESHOLD) eqn:E2];
    cbn [well growth_score relative_score absolute_score classification confidence];
    rewrite ?Qltb_true, ?Qltb_false in *; intuition.
Qed.

(** The wells of the input that phase 1 leaves uncertain. *)
Lemma classify_wells_Ok_inv wells res :
  classify_wells wells = Ok res ->
  exists control_data,
    wells !! control_key = Some control_data
    /\ res = resolve_uncertain_wells (initial_classification wells control_data)
    /\ forall k w, res !! k = Some w -> classification w <> uncertain.
Proof.
  unfold classify_wells. destruct (wells !! control_key) as [cd|]; [|done].
  remember (resolve_uncertain_wells (initial_classification wells cd)) as m2 eqn:Hm2.
  destruct (count_final (map snd (map_to_list m2))) as [n|e] eqn:Hcount; [|done].
  cbn. intros [= <-]. exists cd. split; [done|]. split; [exact Hm2|]. clear Hm2.
  intros k w Hk.
  assert (Hall : Forall (fun w => classification w ≠ uncertain)
                        (map snd (map_to_list m2)))
    by (apply count_final_Ok; eauto).
  rewrite Forall_forall in Hall. apply Hall.
  apply list_elem_of_fmap. exists (k, w). split; [done|].
  by apply elem_of_map_to_list.
Qed.

(** X4: a returned record holds the sampled well of its key and three
    scores in [0, 1]; the result has the keys of the input. *)
Theorem classify_wells_records (wells : gmap (Z * Z) Well)
    (res : gmap (Z * Z) ClassifiedWell) :
  classify_wells wells = Ok res ->
  (forall k, is_Some (res !! k) <-> is_Some (wells !! k))
  /\ forall k cw, res !! k = Some cw ->
       wells !! k = Some (well cw)
       /\ 0 <= growth_score cw <= 1
       /\ 0 <= relative_score cw <= 1
       /\ 0 <= absolute_score cw <= 1.
Proof.
  intros Hres. apply classify_wells_Ok_inv in Hres as (cd & _ & -> & _).
  destruct (initial_classification_at wells cd) as (g & i & mid & Hat).
  split.
  - intros k. rewrite resolve_uncertain_wells_dom, Hat. by rewrite fmap_is_Some.
  - intros k cw Hk.
    apply resolve_uncertain_wells_fields in Hk as (w & Hw & -> & -> & -> & ->).
    rewrite Hat in Hw. destruct (wells !! k) as [d|]; [|done].
    injection Hw as <-.
    destruct (classify_one_cases (hsv_median cd) (rgb_mean cd) g i mid d)
      as (-> & ? & ? & ? & _).
    done.
Qed.

Lemma classify_wells_demo :
  exists res, classify_wells demo_wells = Ok res.
Proof. eexists. vm_compute. reflexivity. Qed.

Lemma classify_wells_records_witness :
  exists res, classify_wells demo_wells = Ok res
    /\ forall k cw, res !! k = Some cw ->
         demo_wells !! k = Some (well cw)
         /\ 0 <= growth_score cw <= 1
         /\ 0 <= relative_score cw <= 1
         /\ 0 <= absolute_score cw <= 1.
Proof.
  destruct classify_wells_demo as [res Hres]. exists res. split; [exact Hres|].
  exact (proj2 (classify_wells_records demo_wells res Hres)).
Defined.

Lemma apply_neighbor_rules_fallback (score : Q) (l r : option Classification) :
  snd (apply_neighbor_rules score l r) = LOW ->
  (fst (apply_neighbor_rules score l r) = growth <-> FALLBACK_THRESHOLD <= score).
Proof.
  unfold apply_neighbor_rules.
  repeat match goal with
         | |- context [if bool_decide ?P && bool_decide ?R then _ else _] =>
             destruct (bool_decide P && bool_decide R); [done|]
         end.
  destruct (Qleb FALLBACK_THRESHOLD score) eqn:E;
    [apply Qleb_true in E | apply Qleb_false in E]; cbn [fst snd]; intros _.
  - done.
  - split; [done | intros; lra].
Qed.

Lemma classify_wells_demo_well :
  exists res cw, classify_wells demo_wells = Ok res /\ res !! (0, 1)%Z = Some cw.
Proof. do 2 eexists. split; vm_compute; reflexivity. Qed.

(** X5: in a returned record the class and the confidence follow the
    score: above 0.50 growth and HIGH, below 0.30 inhibition and HIGH, in
    between a well of the 8 x 12 plate, never HIGH, and when LOW the class
    is growth exactly from 0.40 on. *)
Theorem classify_wells_thresholds (wells : gmap (Z * Z) Well)
    (res : gmap (Z * Z) ClassifiedWell) (k : Z * Z) (cw : ClassifiedWell) :
  classify_wells wells = Ok res -> res !! k = Some cw ->
  (PINK_THRESHOLD < growth_score cw ->
     classification cw = growth /\ confidence cw = HIGH)
  /\ (growth_score cw < PURPLE_THRESHOLD ->
        classification cw = inhibition /\ confidence cw = HIGH)
  /\ (PURPLE_THRESHOLD <= growth_score cw <= PINK_THRESHOLD ->
        k ∈ grid_keys
        /\ confidence cw <> HIGH
        /\ (confidence cw = LOW ->
              (classification cw = growth <-> FALLBACK_THRESHOLD <= growth_score cw))).
Proof.
  intros Hres Hk. apply classify_wells_Ok_inv in Hres as (cd & _ & -> & Hnu).
  destruct (initial_classification_at wells cd) as (g & i & mid & Hat).
  set (m1 := initial_classification wells cd) in *. clearbody m1.
  destruct (resolve_uncertain_wells_fields _ _ _ Hk) as (w & Hw & _ & Hgs & _).
  pose proof Hw as Hw'. rewrite Hat in Hw'.
  destruct (wells !! k) as [d|]; [|done]. injection Hw' as Hwd.
  destruct (classify_one_cases (hsv_median cd) (rgb_mean cd) g i mid d)
    as (_ & _ & _ & _ & Hcases).
  rewrite Hwd in Hcases. cbv zeta in Hcases.
  unfold PINK_THRESHOLD, PURPLE_THRESHOLD, FALLBACK_THRESHOLD in *.
  destruct Hcases as [(Hs & Hc & Hf) | [(Hs & Hc & Hf) | (Hs & Hc & Hf)]].
  - assert (cw = w) as ->.
    { rewrite resolve_uncertain_wells_settled with (w := w) in Hk;
        [congruence | done | by rewrite Hc]. }
    repeat split; try done; intros; lra.
  - assert (cw = w) as ->.
    { rewrite resolve_uncertain_wells_settled with (w := w) in Hk;
        [congruence | done | by rewrite Hc]. }
    repeat split; try done; intros; lra.
  - destruct (decide (k ∈ grid_keys)) as [Hin|Hnin].
    + destruct k as [r c].
      destruct (resolve_uncertain_wells_at m1 r c w Hin Hw Hc)
        as (w' & l & rt & Hw'' & Hrule).
      assert (w' = cw) as -> by congruence.
      pose proof (apply_neighbor_rules_fallback (growth_score w) l rt) as Hlow.
      rewrite <- Hrule in Hlow. cbn [fst snd] in Hlow. rewrite Hgs.
      split; [intros; lra|]. split; [intros; lra|]. intros _.
      split; [done|].
      pose proof (apply_neighbor_rules_resolved (growth_score w) l rt) as Hres.
      destruct (confidence cw) eqn:Hconf.
      * exfalso.
        unfold apply_neighbor_rules in Hrule.
        repeat match type of Hrule with
               | context [if ?b then _ else _] => destruct b
               end; congruence.
      * split; [done|]. intros; done.
      * split; [done|]. intros _. by apply Hlow.
    + exfalso. apply (Hnu k cw Hk).
      rewrite resolve_uncertain_wells_other in Hk by done. congruence.
Qed.

Lemma classify_wells_thresholds_witness :
  exists res cw, classify_wells demo_wells = Ok res /\ res !! (0, 1)%Z = Some cw
    /\ (growth_score cw < PURPLE_THRESHOLD ->
          classification cw = inhibition /\ confidence cw = HIGH).
Proof.
  destruct classify_wells_demo_well as (res & cw & Hres & Hcw).
  exists res, cw. split; [exact Hres|]. split; [exact Hcw|].
  exact (proj1 (proj2 (classify_wells_thresholds demo_wells res _ cw Hres Hcw))).
Defined.

(** X6: on wells whose colour means are not negative (so that no
    division fails), [classify_wells] fails in two ways only: ValueError
    exactly when the control well H1 is missing, KeyError exactly when a well
    outside the 8 x 12 plate is left uncertain by the thresholds. *)
Theorem classify_wells_errors (wells : gmap (Z * Z) Well) :
  (forall k d, wells !! k = Some d -> rgb_nonneg (rgb_mean d)) ->
  (classify_wells wells = Raise ValueError <-> wells !! control_key = None)
  /\ (forall e, classify_wells wells = Raise e -> e = ValueError \/ e = KeyError)
  /\ (classify_wells wells = Raise KeyError <->
        exists control_data k w,
          wells !! control_key = Some control_data
          /\ (k ∉ grid_keys)
          /\ initial_classification wells control_data !! k = Some w
          /\ classification w = uncertain).
Proof.
  intros _. unfold classify_wells.
  destruct (wells !! control_key) as [cd|] eqn:Hctrl.
  2:{ split; [done|]. split; [intros e [= <-]; by left|].
      split; [done | by intros (? & ? & ? & ? & _)]. }
  pose proof (resolve_uncertain_wells_in_grid (initial_classification wells cd))
    as Hgrid.
  pose proof (resolve_uncertain_wells_other (initial_classification wells cd))
    as Hother.
  set (m2 := resolve_uncertain_wells _) in *. clearbody m2.
  destruct (count_final (map snd (map_to_list m2))) as [n|e] eqn:Hcount;
    cbn [mbind py_bind].
  - split; [done|]. split; [done|]. split; [done|].
    intros (cd' & k & w & [= <-] & Hnin & Hw & Hu). exfalso.
    assert (Hall : Forall (fun w => classification w ≠ uncertain)
                          (map snd (map_to_list m2)))
      by (apply count_final_Ok; eauto).
    rewrite Forall_forall in Hall. apply (Hall w); [|done].
    apply list_elem_of_fmap. exists (k, w). split; [done|].
    apply elem_of_map_to_list. by rewrite Hother by done.
  - pose proof (count_final_error _ _ Hcount) as ->.
    split; [done|]. split; [intros e [= <-]; by right|].
    split; [intros _ | done].
    assert (Hnall : ~ Forall (fun w => classification w ≠ uncertain)
                             (map snd (map_to_list m2))).
    { intros Hall. apply count_final_Ok in Hall as [n Hn]. congruence. }
    apply not_Forall_Exists in Hnall; [|intros w; apply _].
    apply Exists_exists in Hnall as (w & Hw & Hu).
    apply list_elem_of_fmap in Hw as ([k w'] & -> & Hkw).
    apply elem_of_map_to_list in Hkw. cbn in Hu.
    assert (Hu' : classification w' = uncertain)
      by (destruct (classification w'); try done; exfalso; by apply Hu).
    exists cd, k, w'. split; [done|].
    assert (Hnin : k ∉ grid_keys) by (intros Hin; by apply (Hgrid k w' Hin)).
    split; [done|]. split; [|done]. by rewrite <- Hother.
Qed.

Lemma classify_wells_errors_witness :
  classify_wells demo_wells = Raise ValueError <-> demo_wells !! control_key = None.
Proof.
  apply (classify_wells_errors demo_wells).
  intros k d Hk. unfold demo_wells in Hk.
  apply lookup_insert_Some in Hk as [[_ <-]|[_ Hk]]; [by vm_compute|].
  apply lookup_insert_Some in Hk as [[_ <-]|[_ Hk]]; [by vm_compute|].
  by rewrite lookup_empty in Hk.
Defined.
End ClassifierMore.
(** ** The MIC table: records, values and notes *)

Section MicTable.
Import Num Config WellExtractor ColorClassifier MicCalculator.
Local Open Scope Q_scope.

Lemma inhibition_of_fun ctrl :
  exists inh, forall s, inhibition_of ctrl s = Ok (inh s).
Proof.
  destruct (Qlt_le_dec (1#100) ctrl).
  - exists (fun s => py_max 0 (1 - s / ctrl)). intros; by apply inhibition_of_high.
  - exists (fun _ => 0). intros; by apply inhibition_of_low.
Qed.

(** The test [all(s is not None and s > 0.5 for s in well_scores[start_col:])]. *)
Lemma all_growing_spec (classified : gmap (Z * Z) ClassifiedWell) (row_idx start : Z) :
  (0 <= start <= 12)%Z ->
  forallb (fun s : option Q => match s with Some s => Qltb (5#10) s | None => false end)
          (drop (Z.to_nat start)
                (map (fun col_idx => growth_score <$> classified !! (row_idx, col_idx))
                     (range 0 COLS))) = true
  <-> forall c, (start <= c < 12)%Z ->
        exists w, classified !! (row_idx, c) = Some w /\ 5#10 < growth_score w.
Proof.
  intros Hstart. rewrite forallb_forall. split.
  - intros Hall c Hc.
    specialize (Hall (growth_score <$> classified !! (row_idx, c))).
    destruct (classified !! (row_idx, c)) as [w|] eqn:Hw; cbn in Hall.
    + exists w. split; [done|]. apply Qltb_true. apply Hall.
      apply list_elem_of_In. apply (list_elem_of_lookup_2 _ (Z.to_nat (c - start))).
      rewrite lookup_drop. replace (Z.to_nat start + Z.to_nat (c - start))%nat
        with (Z.to_nat c) by lia.
      rewrite well_scores_lookup by lia. by rewrite Hw.
    + exfalso. enough (false = true) by done. apply Hall.
      apply list_elem_of_In. apply (list_elem_of_lookup_2 _ (Z.to_nat (c - start))).
      rewrite lookup_drop. replace (Z.to_nat start + Z.to_nat (c - start))%nat
        with (Z.to_nat c) by lia.
      rewrite well_scores_lookup by lia. by rewrite Hw.
  - intros Hall x Hx. apply list_elem_of_In, list_elem_of_lookup in Hx as [i Hi].
    rewrite lookup_drop in Hi.
    assert (Hlt : (Z.to_nat start + i < 12)%nat).
    { apply lookup_lt_Some in Hi. rewrite length_map in Hi.
      unfold range, COLS in Hi. by rewrite length_seqZ in Hi. }
    replace (Z.to_nat start + i)%nat with (Z.to_nat (start + Z.of_nat i)) in Hi by lia.
    rewrite well_scores_lookup in Hi by lia. injection Hi as <-.
    destruct (Hall (start + Z.of_nat i)%Z) as (w & -> & Hw); [lia|].
    cbn. by apply Qltb_true.
Qed.

(** The last entry of a row of concentrations. *)
Lemma top_concentration (label : RowLabel) :
  py_index (CONCENTRATIONS label) (-1)
  = Ok (Some (if decide (label = RowG) then 128 else 8)).
Proof. by destruct label. Qed.

(** What one turn of the row loop stores, for a row of the plate. *)
Lemma mic_row_spec (classified : gmap (Z * Z) ClassifiedWell) (ctrl : Q) (inh : Q -> Q)
    (edge : bool) (row_idx : Z) (res : MicResult) :
  (forall s, inhibition_of ctrl s = Ok (inh s)) ->
  (0 <= row_idx < 8)%Z ->
  mic_row classified ctrl edge row_idx = Ok res ->
  let start := if decide (row_idx = 7%Z) then 1%Z else 0%Z in
  let thr := INHIBITION_THRESHOLDS (ANTIFUNGALS (row res)) in
  let hit c := exists w, classified !! (row_idx, c) = Some w
                         /\ thr <= inh (growth_score w) in
  let growing c := exists w, classified !! (row_idx, c) = Some w
                             /\ 5#10 < growth_score w in
  ROW_LABELS !! Z.to_nat row_idx = Some (row res)
  /\ antifungal res = ANTIFUNGALS (row res)
  /\ antifungal_name res = ANTIFUNGAL_FULL_NAMES (antifungal res)
  /\ inhibition_threshold res = thr
  /\ well_scores res
     = map (fun col_idx => growth_score <$> classified !! (row_idx, col_idx))
           (range 0 COLS)
  /\ match mic_value res with
     | MicNumber c =>
         exists col,
           mic_column res = Some col /\ (start <= col < 12)%Z
           /\ hit col /\ (forall c', (start <= c' < col)%Z -> ~ hit c')
           /\ CONCENTRATIONS (row res) !! Z.to_nat col = Some (Some c)
           /\ note res = (if decide (col = start) then NoteAtMost c else NoteEmpty)
     | MicAbove top =>
         mic_column res = None
         /\ (forall c, (start <= c < 12)%Z -> ~ hit c)
         /\ (forall c, (start <= c < 12)%Z -> growing c)
         /\ top = Some (if decide (row res = RowG) then 128 else 8)
         /\ note res = NoteAbove top edge
     | MicNone =>
         mic_column res = None
         /\ (forall c, (start <= c < 12)%Z -> ~ hit c)
         /\ ~ (forall c, (start <= c < 12)%Z -> growing c)
         /\ note res = NoteUndetermined
     end.
Proof.
  intros Hinh Hr Hres.
  destruct (row_label_of row_idx Hr) as (label & Hlabel & Hlookup & HH).
  set (start := if decide (row_idx = 7%Z) then 1%Z else 0%Z).
  assert (Hstart : (if decide (label = RowH) then 1%Z else 0%Z) = start).
  { unfold start. destruct (decide (label = RowH)) as [Hl|Hl], (decide (row_idx = 7%Z));
      try done; exfalso; tauto. }
  assert (Hstart01 : (0 <= start <= 1)%Z) by (unfold start; case_decide; lia).
  pose proof (all_growing_spec classified row_idx start ltac:(lia)) as Hgrow.
  unfold mic_row in Hres. rewrite Hlabel in Hres. cbn [mbind py_bind] in Hres.
  rewrite Hstart in Hres.
  set (ws := map (fun col_idx => growth_score <$> classified !! (row_idx, col_idx))
                 (range 0 COLS)) in *.
  pose proof (scan_row_range ws (CONCENTRATIONS label) ctrl
                (INHIBITION_THRESHOLDS (ANTIFUNGALS label)) inh
                (Z.to_nat (12 - start)) start Hinh) as Hscan.
  rewrite Z2Nat.id in Hscan by lia.
  replace (start + (12 - start))%Z with 12%Z in Hscan by lia.
  assert (Hws : forall c', (0 <= c' < 12)%Z ->
            forall s, ws !! Z.to_nat c' = Some (Some s) ->
            exists w, classified !! (row_idx, c') = Some w /\ growth_score w = s).
  { intros c' Hc' s. unfold ws. rewrite well_scores_lookup by lia.
    intros [= Hw]. destruct (classified !! (row_idx, c')) as [w|]; [|done].
    injection Hw as <-. eauto. }
  assert (Hnohit : forall c, (0 <= c < 12)%Z ->
            ~ (exists s, ws !! Z.to_nat c = Some (Some s)
                         /\ INHIBITION_THRESHOLDS (ANTIFUNGALS label) <= inh s) ->
            ~ (exists w, classified !! (row_idx, c) = Some w
                         /\ INHIBITION_THRESHOLDS (ANTIFUNGALS label)
                            <= inh (growth_score w))).
  { intros c Hc Hno (w & Hw & Hle). apply Hno. exists (growth_score w).
    split; [|done]. unfold ws. rewrite well_scores_lookup by lia. by rewrite Hw. }
  destruct Hscan as [[Hs Hno] | (c & conc & Hc & Hhit & Hmin & Hconc & Hs)]; [lia | | |].
  - intros c Hc. unfold ws. rewrite well_scores_lookup by lia.
    destruct (concentrations_lookup label c) as (conc & -> & _); [lia|]. eauto.
  - unfold range, COLS in Hres. rewrite Hs in Hres. cbn [mbind py_bind] in Hres.
    destruct (forallb _ (drop (Z.to_nat start) ws)) eqn:Hall.
    + rewrite top_concentration in Hres. cbn [mbind py_bind] in Hres.
      injection Hres as <-. cbn. repeat split; try done.
      * intros c Hc. apply Hnohit; [lia | by apply Hno].
      * by apply Hgrow.
    + cbn [mbind py_bind] in Hres. injection Hres as <-. cbn. repeat split; try done.
      * intros c Hc. apply Hnohit; [lia | by apply Hno].
      * intros Hg. apply Hgrow in Hg. congruence.
  - destruct (concentrations_lookup label c) as (conc' & Hconc' & Hsome); [lia|].
    rewrite Hconc in Hconc'. injection Hconc' as <-.
    destruct Hsome as [q ->]; [rewrite Hstart; lia|].
    unfold range, COLS in Hres. rewrite Hs in Hres. cbn [mbind py_bind] in Hres.
    injection Hres as <-. cbn. repeat split; try done.
    exists c. split; [done|]. split; [lia|]. split.
    { destruct Hhit as (s & Hs' & Hle). destruct (Hws c ltac:(lia) s Hs') as (w & Hw & <-).
      eauto. }
    split; [intros c' Hc'; apply Hnohit; [lia | by apply Hmin]|].
    split; [done|].
    case_bool_decide as Hcol; destruct (decide (c = start)) as [Hd|Hd];
      try done; exfalso; congruence.
Qed.

(** Along a row the concentrations increase from the first scanned column. *)
Lemma concentrations_increasing (label : RowLabel) (c1 c2 : Z) (q1 q2 : Q) :
  (0 <= c1 < c2)%Z ->
  CONCENTRATIONS label !! Z.to_nat c1 = Some (Some q1) ->
  CONCENTRATIONS label !! Z.to_nat c2 = Some (Some q2) ->
  q1 < q2.
Proof.
  intros Hc H1 H2.
  assert (Hlen : length (CONCENTRATIONS label) = 12%nat) by (by destruct label).
  apply lookup_lt_Some in H2 as Hlt. rewrite Hlen in Hlt.
  assert (Hsorted : forall l : list Q, StronglySorted Qlt l ->
            forall i j a b, (i < j)%nat -> l !! i = Some a -> l !! j = Some b -> a < b).
  { induction 1 as [|x l Hs IH Hall]; intros i j a b Hij Hi Hj; [done|].
    destruct j as [|j]; [lia|]. cbn in Hj. destruct i as [|i].
    - injection Hi as <-. rewrite Forall_forall in Hall. apply Hall.
      by eapply list_elem_of_lookup_2.
    - cbn in Hi. apply (IH i j); [lia | done | done]. }
  assert (Hrow : exists pre l, CONCENTRATIONS label = pre ++ map Some l
                               /\ Forall (fun x => x = None) pre
                               /\ StronglySorted Qlt l).
  { pose (low := [4#1000; 8#1000; 16#1000; 32#1000; 64#1000; 125#1000;
                  25#100; 5#10; 1; 2; 4; 8] : list Q).
    destruct label;
      [exists [], low | exists [], low | exists [], low | exists [], low
       | exists [], low | exists [], low
       | exists [], [64#1000; 125#1000; 25#100; 5#10; 1; 2; 4; 8; 16; 32; 64; 128]
       | exists [None], [8#1000; 16#1000; 32#1000; 64#1000; 125#1000;
                         25#100; 5#10; 1; 2; 4; 8]];
      (split; [reflexivity|]); (split; [by repeat constructor|]);
      repeat (apply SSorted_cons;
              [|repeat (constructor; [by vm_compute|]); constructor]);
      apply SSorted_nil. }
  destruct Hrow as (pre & l & Heq & Hpre & Hs). rewrite Heq in H1, H2.
  assert (Hge : forall c q, (pre ++ map Some l) !! c = Some (Some q) ->
            (length pre <= c)%nat /\ l !! (c - length pre)%nat = Some q).
  { intros c q Hcq. destruct (decide (c < length pre)%nat) as [Hl|Hl].
    - rewrite lookup_app_l in Hcq by done. rewrite Forall_forall in Hpre.
      exfalso. assert (Some q = None); [|done]. apply Hpre.
      by eapply list_elem_of_lookup_2.
    - split; [lia|]. rewrite lookup_app_r in Hcq by lia.
      rewrite list_lookup_fmap in Hcq.
      destruct (l !! (c - length pre)%nat); [|done]. by injection Hcq as ->. }
  apply Hge in H1 as [Hp1 H1]. apply Hge in H2 as [Hp2 H2].
  apply (Hsorted l Hs (Z.to_nat c1 - length pre)%nat (Z.to_nat c2 - length pre)%nat);
    [lia | done | done].
Qed.

Lemma calculate_mic_Ok_inv (classified : gmap (Z * Z) ClassifiedWell)
    (results : list MicResult) :
  calculate_mic classified = Ok results ->
  exists ctrl,
    classified !! control_key = Some ctrl
    /\ length results = 8%nat
    /\ forall row_idx res,
         (0 <= row_idx)%Z -> results !! Z.to_nat row_idx = Some res ->
         (row_idx < 8)%Z
         /\ mic_row classified (growth_score ctrl) (edge_artifact classified) row_idx
            = Ok res.
Proof.
  intros Hres. destruct (classified !! control_key) as [ctrl|] eqn:Hctrl;
    [|unfold calculate_mic in Hres; by rewrite Hctrl in Hres].
  destruct (calculate_mic_rows classified ctrl Hctrl) as (results' & Hres' & Hlen & Hrows).
  rewrite Hres in Hres'. injection Hres' as <-.
  exists ctrl. split; [done|]. split; [done|].
  intros row_idx res Hr Hlook.
  assert (row_idx < 8)%Z.
  { apply lookup_lt_Some in Hlook. lia. }
  split; [done|]. apply Hrows; [lia | done].
Qed.

(** X7: [calculate_mic] raises only ValueError, and exactly when the
    control well H1 is missing.  Otherwise there is one record for each
    row A..H in order, with the agent of the row, its full name and threshold,
    and the twelve growth scores of the row as the dictionary has them. *)
Theorem calculate_mic_records (classified : gmap (Z * Z) ClassifiedWell) :
  (calculate_mic classified = Raise ValueError <-> classified !! control_key = None)
  /\ (forall e, calculate_mic classified = Raise e -> e = ValueError)
  /\ (forall results, calculate_mic classified = Ok results ->
        map row results = ROW_LABELS
        /\ forall i res, results !! i = Some res ->
             antifungal res = ANTIFUNGALS (row res)
             /\ antifungal_name res = ANTIFUNGAL_FULL_NAMES (antifungal res)
             /\ inhibition_threshold res = INHIBITION_THRESHOLDS (antifungal res)
             /\ well_scores res
                = map (fun c => growth_score <$> classified !! (Z.of_nat i, c))
                      (range 0 COLS)).
Proof.
  assert (Herr : forall e, calculate_mic classified = Raise e ->
                           e = ValueError /\ classified !! control_key = None).
  { intros e He. destruct (classified !! control_key) as [ctrl|] eqn:Hctrl.
    - destruct (calculate_mic_rows classified ctrl Hctrl) as (results & Hres & _).
      congruence.
    - unfold calculate_mic in He. rewrite Hctrl in He. by injection He as <-. }
  split; [split; [by intros [_ ?]%Herr | intros Hn; unfold calculate_mic; by rewrite Hn]|].
  split; [by intros e [? _]%Herr|].
  intros results Hres.
  apply calculate_mic_Ok_inv in Hres as (ctrl & Hctrl & Hlen & Hrows).
  destruct (inhibition_of_fun (growth_score ctrl)) as [inh Hinh].
  assert (Hrec : forall i res, results !! i = Some res ->
            ROW_LABELS !! i = Some (row res)
            /\ antifungal res = ANTIFUNGALS (row res)
            /\ antifungal_name res = ANTIFUNGAL_FULL_NAMES (antifungal res)
            /\ inhibition_threshold res = INHIBITION_THRESHOLDS (antifungal res)
            /\ well_scores res
               = map (fun c => growth_score <$> classified !! (Z.of_nat i, c))
                     (range 0 COLS)).
  { intros i res Hi.
    destruct (Hrows (Z.of_nat i) res ltac:(lia)) as [Hlt Hrow];
      [by rewrite Nat2Z.id|].
    destruct (mic_row_spec classified (growth_score ctrl) inh _ (Z.of_nat i) res Hinh
                ltac:(lia) Hrow) as (Hlab & Hanti & Hname & Hthr & Hws & _).
    rewrite Nat2Z.id in Hlab. rewrite Hanti at 3. done. }
  split.
  - apply list_eq. intros i. rewrite list_lookup_fmap.
    destruct (results !! i) as [res|] eqn:Hi.
    + destruct (Hrec i res Hi) as [-> _]. done.
    + cbn. symmetry. apply lookup_ge_None. apply lookup_ge_None in Hi.
      cbn. lia.
  - intros i res Hi. by destruct (Hrec i res Hi) as (_ & ? & ? & ? & ?).
Qed.

(** X8: value, column and note of a record agree.  A number comes with
    its column and is the concentration of that column, with the note
    "at most" exactly at the first scanned column; the value "above the top
    concentration" comes without a column and only when every scanned well
    is present with a score above 0.5; no value at all comes with the note
    "undetermined" and some scanned well missing or not above 0.5. *)
Theorem calculate_mic_value_and_note (classified : gmap (Z * Z) ClassifiedWell)
    (results : list MicResult) (row_idx : Z) (res : MicResult) :
  calculate_mic classified = Ok results ->
  (0 <= row_idx)%Z -> results !! Z.to_nat row_idx = Some res ->
  let start := if decide (row_idx = 7%Z) then 1%Z else 0%Z in
  let growing c := exists w, classified !! (row_idx, c) = Some w
                             /\ 5#10 < growth_score w in
  match mic_value res with
  | MicNumber c =>
      exists col,
        mic_column res = Some col /\ (start <= col < 12)%Z
        /\ CONCENTRATIONS (row res) !! Z.to_nat col = Some (Some c)
        /\ note res = (if decide (col = start) then NoteAtMost c else NoteEmpty)
  | MicAbove top =>
      mic_column res = None
      /\ (forall c, (start <= c < 12)%Z -> growing c)
      /\ top = Some (if decide (row res = RowG) then 128 else 8)
      /\ note res = NoteAbove top (edge_artifact classified)
  | MicNone =>
      mic_column res = None
      /\ ~ (forall c, (start <= c < 12)%Z -> growing c)
      /\ note res = NoteUndetermined
  end.
Proof.
  intros Hres Hr Hlook.
  apply calculate_mic_Ok_inv in Hres as (ctrl & Hctrl & Hlen & Hrows).
  destruct (Hrows row_idx res Hr Hlook) as [Hlt Hrow].
  destruct (inhibition_of_fun (growth_score ctrl)) as [inh Hinh].
  destruct (mic_row_spec classified (growth_score ctrl) inh _ row_idx res Hinh
              ltac:(lia) Hrow) as (_ & _ & _ & _ & _ & Hval).
  cbv zeta. destruct (mic_value res) as [|c|top].
  - destruct Hval as (? & _ & ? & ?). done.
  - destruct Hval as (col & ? & ? & _ & _ & ? & ?). exists col. done.
  - destruct Hval as (? & _ & ? & ? & ?). done.
Qed.

Lemma calculate_mic_demo :
  exists results res,
    calculate_mic (demo_scored (90#100)) = Ok results
    /\ results !! Z.to_nat 0 = Some res.
Proof. do 2 eexists. split; vm_compute; reflexivity. Qed.

Lemma calculate_mic_value_and_note_witness :
  exists results res,
    calculate_mic (demo_scored (90#100)) = Ok results
    /\ results !! Z.to_nat 0 = Some res
    /\ match mic_value res with
       | MicNumber c =>
           exists col,
             mic_column res = Some col /\ (0 <= col < 12)%Z
             /\ CONCENTRATIONS (row res) !! Z.to_nat col = Some (Some c)
             /\ note res = (if decide (col = 0%Z) then NoteAtMost c else NoteEmpty)
       | MicAbove top =>
           mic_column res = None
           /\ (forall c, (0 <= c < 12)%Z ->
                 exists w, demo_scored (90#100) !! (0%Z, c) = Some w
                           /\ 5#10 < growth_score w)
           /\ top = Some (if decide (row res = RowG) then 128 else 8)
           /\ note res = NoteAbove top (edge_artifact (demo_scored (90#100)))
       | MicNone =>
           mic_column res = None
           /\ ~ (forall c, (0 <= c < 12)%Z ->
                   exists w, demo_scored (90#100) !! (0%Z, c) = Some w
                             /\ 5#10 < growth_score w)
           /\ note res = NoteUndetermined
       end.
Proof.
  destruct calculate_mic_demo as (results & res & Hres & Hlook).
  exists results, res. split; [exact Hres|]. split; [exact Hlook|].
  assert (H0 : (0 <= 0)%Z) by lia.
  exact (calculate_mic_value_and_note (demo_scored (90#100)) results 0%Z res Hres
           H0 Hlook).
Defined.

(** X9: the reported number is the lowest concentration of the row whose
    well meets the inhibition threshold, among the scanned columns; when no
    number is reported no scanned well meets it. *)
Theorem calculate_mic_lowest_concentration (classified : gmap (Z * Z) ClassifiedWell)
    (ctrl : ClassifiedWell) (results : list MicResult) (row_idx : Z) (res : MicResult) :
  classified !! control_key = Some ctrl ->
  calculate_mic classified = Ok results ->
  (0 <= row_idx)%Z -> results !! Z.to_nat row_idx = Some res ->
  let start := if decide (row_idx = 7%Z) then 1%Z else 0%Z in
  let meets c conc :=
    exists w i, classified !! (row_idx, c) = Some w
                /\ inhibition_of (growth_score ctrl) (growth_score w) = Ok i
                /\ inhibition_threshold res <= i
                /\ CONCENTRATIONS (row res) !! Z.to_nat c = Some (Some conc) in
  (forall m, mic_value res = MicNumber m ->
     (exists c, (start <= c < 12)%Z /\ meets c m)
     /\ forall c conc, (start <= c < 12)%Z -> meets c conc -> m <= conc)
  /\ ((forall m, mic_value res <> MicNumber m) ->
      forall c conc, (start <= c < 12)%Z -> ~ meets c conc).
Proof.
  intros Hctrl Hres Hr Hlook.
  apply calculate_mic_Ok_inv in Hres as (ctrl' & Hctrl' & Hlen & Hrows).
  rewrite Hctrl in Hctrl'. injection Hctrl' as <-.
  destruct (Hrows row_idx res Hr Hlook) as [Hlt Hrow].
  destruct (inhibition_of_fun (growth_score ctrl)) as [inh Hinh].
  destruct (mic_row_spec classified (growth_score ctrl) inh _ row_idx res Hinh
              ltac:(lia) Hrow) as (_ & _ & _ & Hthr & _ & Hval).
  cbv zeta. rewrite Hthr.
  set (thr := INHIBITION_THRESHOLDS (ANTIFUNGALS (row res))) in *.
  assert (Hmeets : forall c conc,
            (exists w i, classified !! (row_idx, c) = Some w
                         /\ inhibition_of (growth_score ctrl) (growth_score w) = Ok i
                         /\ thr <= i
                         /\ CONCENTRATIONS (row res) !! Z.to_nat c = Some (Some conc)) ->
            exists w, classified !! (row_idx, c) = Some w
                      /\ thr <= inh (growth_score w)).
  { intros c conc (w & i & Hw & Hi & Hle & _). exists w. split; [done|].
    rewrite Hinh in Hi. by injection Hi as ->. }
  split.
  - intros m Hm. rewrite Hm in Hval.
    destruct Hval as (col & Hcol & Hrange & (w & Hw & Hle) & Hmin & Hconc & _).
    assert (Hcol0 : (0 <= col)%Z) by (destruct (decide (row_idx = 7%Z)); lia).
    split.
    + exists col. split; [done|]. exists w, (inh (growth_score w)). by rewrite Hinh.
    + intros c conc Hc Hmc. pose proof (Hmeets c conc Hmc) as Hhit.
      destruct Hmc as (_ & _ & _ & _ & _ & Hcc).
      destruct (Z.lt_trichotomy c col) as [Hlt'|[->|Hgt]].
      * exfalso. apply (Hmin c); [lia | done].
      * rewrite Hconc in Hcc. injection Hcc as ->. apply Qle_refl.
      * apply Qlt_le_weak.
        apply (concentrations_increasing (row res) col c); [lia | done | done].
  - intros Hnum c conc Hc Hmc. apply Hmeets in Hmc.
    destruct (mic_value res) as [|m|top].
    + destruct Hval as (_ & Hno & _). by apply (Hno c).
    + by destruct (Hnum m).
    + destruct Hval as (_ & Hno & _). by apply (Hno c).
Qed.

Lemma calculate_mic_lowest_concentration_witness :
  exists results res,
    calculate_mic (demo_scored (90#100)) = Ok results
    /\ results !! Z.to_nat 0 = Some res
    /\ forall m, mic_value res = MicNumber m ->
         forall c conc, (0 <= c < 12)%Z ->
           (exists w i, demo_scored (90#100) !! (0%Z, c) = Some w
                        /\ inhibition_of (90#100) (growth_score w) = Ok i
                        /\ inhibition_threshold res <= i
                        /\ CONCENTRATIONS (row res) !! Z.to_nat c = Some (Some conc)) ->
           m <= conc.
Proof.
  destruct calculate_mic_demo as (results & res & Hres & Hlook).
  exists results, res. split; [exact Hres|]. split; [exact Hlook|].
  assert (Hctrl : demo_scored (90#100) !! control_key
                  = Some (mkClassified (demo_well 30) (90#100) (90#100) (90#100)
                                       growth HIGH)) by (by vm_compute).
  assert (H0 : (0 <= 0)%Z) by lia.
  intros m Hm.
  exact (proj2 (proj1 (calculate_mic_lowest_concentration (demo_scored (90#100))
                         _ results 0%Z res Hctrl Hres H0 Hlook) m Hm)).
Defined.
End MicTable.

(** ** The classifier: divisions *)

Section ClassifierDivisions.
Import Num Config WellExtractor ColorClassifier.
Local Open Scope Q_scope.

Lemma py_div_Ok x y : ~ y == 0 -> py_div x y = Ok (x / y).
Proof.
  intros Hy. unfold py_div. destruct (Qeq_bool y 0) eqn:E; [|done].
  by apply Qeq_bool_eq in E.
Qed.

Lemma py_div_Raise x y : y == 0 -> py_div x y = Raise ZeroDivisionError.
Proof. intros Hy. unfold py_div. by rewrite (Qeq_eq_bool _ _ Hy). Qed.

(** X10: the only division of [compute_relative_score] that can fail is
    the one by the mean of the three colour channels plus one: the function
    raises ZeroDivisionError exactly when that mean is -1 for the well or
    for the control, and otherwise returns the value of the embedding with
    total division.  So it never raises on colour means that are not
    negative. *)
Theorem relative_score_division (well_hsv well_rgb ctrl_hsv ctrl_rgb : Q * Q * Q)
    (growth_sat inhib_sat : Q) :
  let mean3 (rgb : Q * Q * Q) := (fst (fst rgb) + snd (fst rgb) + snd rgb) / 3 in
  let checked := compute_relative_score_exn well_hsv well_rgb ctrl_hsv ctrl_rgb
                                            growth_sat inhib_sat in
  let value := compute_relative_score well_hsv well_rgb ctrl_hsv ctrl_rgb
                                      growth_sat inhib_sat in
  (checked = Raise ZeroDivisionError <-> mean3 well_rgb == -1 \/ mean3 ctrl_rgb == -1)
  /\ (checked <> Raise ZeroDivisionError -> checked = Ok value)
  /\ (rgb_nonneg well_rgb -> rgb_nonneg ctrl_rgb -> checked = Ok value).
Proof.
  destruct well_hsv as [[w_h w_s] w_v], well_rgb as [[w_r w_g] w_b],
           ctrl_hsv as [[c_h c_s] c_v], ctrl_rgb as [[c_r c_g] c_b].
  cbv zeta. cbn [fst snd]. unfold rgb_nonneg. cbn [fst snd].
  unfold compute_relative_score_exn, compute_relative_score. cbv zeta.
  assert (Hsat : ~ py_max (inhib_sat - growth_sat) 30 == 0).
  { pose proof (py_max_ge_r (inhib_sat - growth_sat) 30). lra. }
  rewrite (py_div_Ok _ _ Hsat). cbn [mbind py_bind].
  assert (Hrb : Qltb 3 (Qabs (c_r - c_b)) = true -> ~ c_r - c_b == 0).
  { intros Hlt%Qltb_true Hz. rewrite (Qabs_wd _ _ Hz) in Hlt. by vm_compute in Hlt. }
  assert (Hmean : forall r g b, (r + g + b) / 3 + 1 == 0 <-> (r + g + b) / 3 == -1)
    by (intros; split; intros; lra).
  destruct (Qltb 3 (Qabs (c_r - c_b))) eqn:E3;
    [rewrite (py_div_Ok _ _ (Hrb eq_refl))|]; cbn [mbind py_bind].
  all: destruct (Qeq_dec ((w_r + w_g + w_b) / 3 + 1) 0) as [Hw|Hw];
    [rewrite (py_div_Raise _ _ Hw) | rewrite (py_div_Ok _ _ Hw)];
    cbn [mbind py_bind].
  all: try (destruct (Qeq_dec ((c_r + c_g + c_b) / 3 + 1) 0) as [Hc|Hc];
    [rewrite (py_div_Raise _ _ Hc) | rewrite (py_div_Ok _ _ Hc)];
    cbn [mbind py_bind]).
  all: rewrite <- !Hmean.
  all: split; [split; [try done; intros; by (left + right) | try done; tauto]|].
  all: split; [done|].
  all: intros (? & ? & ?) (? & ? & ?); try done; exfalso.
  all: unfold Qdiv in *; change (/ 3) with (1#3) in *; lra.
Qed.

Lemma relative_score_division_witness :
  compute_relative_score_exn (170, 60, 200) (200, 150, 180) (170, 30, 200)
                             (200, 150, 180) 30 140
  = Ok (compute_relative_score (170, 60, 200) (200, 150, 180) (170, 30, 200)
                               (200, 150, 180) 30 140).
Proof.
  apply (relative_score_division (170, 60, 200) (200, 150, 180) (170, 30, 200)
           (200, 150, 180) 30 140); by vm_compute.
Defined.
End ClassifierDivisions.

(** ** The extractor: detection, grouping and slots *)


Section ExtractorMore.
Import Num Config WellExtractor ColorClassifier.
Local Open Scope Q_scope.

Lemma filter_split_Permutation {A} (f : A -> bool) (l : list A) :
  Permutation (List.filter f l ++ List.filter (fun x => negb (f x)) l) l.
Proof.
  induction l as [|a l IH]; cbn; [done|].
  destruct (f a); cbn.
  - by constructor.
  - etrans; [symmetry; apply Permutation_middle|]. by constructor.
Qed.

Lemma elem_of_List_filter {A} (f : A -> bool) (l : list A) (x : A) :
  x ∈ List.filter f l <-> x ∈ l /\ f x = true.
Proof. rewrite !list_elem_of_In. apply filter_In. Qed.

Lemma seed_groups_Permutation (fuel : nat) (d : Q) (l : list Circle) :
  (length l <= fuel)%nat -> Permutation (concat (seed_groups fuel d l)) l.
Proof.
  revert l. induction fuel as [|fuel IH]; intros l Hl.
  - destruct l; [done | cbn in Hl; lia].
  - destruct l as [|seed rest]; [done|]. cbn [seed_groups concat].
    cbn [app]. constructor.
    etrans; [|apply (filter_split_Permutation (fun c => dist_lt seed c d))].
    apply Permutation_app_head. apply IH.
    pose proof (length_filter_le (fun c => negb (dist_lt seed c d)) rest).
    cbn in Hl. lia.
Qed.

Lemma seed_groups_members (fuel : nat) (d : Q) (l : list Circle) g c :
  g ∈ seed_groups fuel d l -> c ∈ g -> c ∈ l.
Proof.
  revert l. induction fuel as [|fuel IH]; intros l Hg Hc; [by inversion Hg|].
  destruct l as [|seed rest]; [by inversion Hg|]. cbn [seed_groups] in Hg.
  apply elem_of_cons in Hg as [-> | Hg].
  - apply elem_of_cons in Hc as [-> | Hc]; [by left|].
    right. by apply elem_of_List_filter in Hc as [? _].
  - right. specialize (IH _ Hg Hc). by apply elem_of_List_filter in IH as [? _].
Qed.

Lemma seed_groups_shape (fuel : nat) (d : Q) (l : list Circle) :
  Forall (fun g => exists seed rest,
            g = seed :: rest /\ seed ∈ l
            /\ Forall (fun c => dist_lt seed c d = true) rest)
         (seed_groups fuel d l).
Proof.
  revert l. induction fuel as [|fuel IH]; intros l; [constructor|].
  destruct l as [|seed rest]; [constructor|]. cbn [seed_groups]. constructor.
  - exists seed, (List.filter (fun c => dist_lt seed c d) rest).
    split; [done|]. split; [by left|].
    apply Forall_forall. intros c Hc. by apply elem_of_List_filter in Hc as [_ ?].
  - eapply Forall_impl; [apply IH|].
    intros g (s & r & -> & Hs & Hr). exists s, r. split; [done|]. split; [|done].
    right. by apply elem_of_List_filter in Hs as [? _].
Qed.

Lemma seed_groups_apart (fuel : nat) (d : Q) (l : list Circle) (i j : nat) gi gj si c :
  (i < j)%nat ->
  seed_groups fuel d l !! i = Some gi -> seed_groups fuel d l !! j = Some gj ->
  head gi = Some si -> c ∈ gj -> dist_lt si c d = false.
Proof.
  revert l i j. induction fuel as [|fuel IH]; intros l i j Hij Hi Hj Hsi Hc; [done|].
  destruct l as [|seed rest]; [done|]. cbn [seed_groups] in Hi, Hj.
  destruct j as [|j]; [lia|]. cbn in Hj. destruct i as [|i].
  - cbn in Hi. injection Hi as <-. cbn in Hsi. injection Hsi as <-.
    apply list_elem_of_lookup_2 in Hj.
    pose proof (seed_groups_members _ _ _ _ _ Hj Hc) as Hin.
    apply elem_of_List_filter in Hin as [_ Hn]. by apply negb_true_iff in Hn.
  - cbn in Hi. eapply (IH _ i j); [lia | exact Hi | exact Hj | done | done].
Qed.

(** X11: merging partitions the candidates.  The merged circles are the
    means of groups whose members are, up to order, the candidates; each
    group is a seed followed by candidates closer than [merge_dist] to it;
    no member of a later group is that close to the seed of an earlier one;
    so there are at most as many merged circles as candidates. *)
Theorem deduplicate_partition (circles : list Circle) (merge_dist : Q) :
  exists groups,
    _deduplicate circles merge_dist = map mean_circle groups
    /\ Permutation (concat groups) circles
    /\ Forall (fun g => exists seed rest,
                 g = seed :: rest
                 /\ Forall (fun c => dist_lt seed c merge_dist = true) rest) groups
    /\ (forall i j gi gj si c,
          (i < j)%nat -> groups !! i = Some gi -> groups !! j = Some gj ->
          head gi = Some si -> c ∈ gj -> dist_lt si c merge_dist = false)
    /\ (length (_deduplicate circles merge_dist) <= length circles)%nat.
Proof.
  exists (seed_groups (length circles) merge_dist circles).
  pose proof (seed_groups_Permutation (length circles) merge_dist circles
                ltac:(lia)) as Hperm.
  pose proof (seed_groups_shape (length circles) merge_dist circles) as Hshape.
  split; [apply deduplicate_seed_groups|]. split; [done|]. split.
  - eapply Forall_impl; [exact Hshape|]. intros g (s & r & ? & _ & ?). eauto.
  - split; [apply seed_groups_apart|].
    rewrite deduplicate_seed_groups, length_map.
    apply Permutation_length in Hperm. revert Hperm Hshape.
    generalize (seed_groups (length circles) merge_dist circles).
    intros gs <- Hshape.
    induction Hshape as [|g gs (s & r & -> & _) _ IH]; [done|].
    cbn. rewrite length_app. lia.
Qed.

(** X12: the circles that [detect_circles] returns passed both filters
    relative to the returned median radius: radius within 0.6 and 1.4
    times the median, centre more than half a median radius inside every
    border of the image.  Each one is the mean of a group of circles that the
    Hough sweeps found. *)
Theorem detect_circles_filtered (img : PlateImage) (c : Circle) :
  c ∈ fst (detect_circles img) ->
  let med_r := snd (detect_circles img) in
  let expected_cell := py_min (inject_Z (img_w img) / 12) (inject_Z (img_h img) / 8) in
  med_r * (6#10) <= c_r c <= med_r * (14#10)
  /\ med_r * (5#10) < c_x c < inject_Z (img_w img) - med_r * (5#10)
  /\ med_r * (5#10) < c_y c < inject_Z (img_h img) - med_r * (5#10)
  /\ exists group,
       c = mean_circle group /\ group <> []
       /\ forall m, m ∈ group ->
            exists blur_size param2 found,
              (blur_size, param2) ∈ sweep
              /\ hough img blur_size param2
                       (py_int (expected_cell * (65#100)))
                       (py_int (expected_cell * (42#100) * (5#10)))
                       (py_int (expected_cell * (42#100) * (13#10))) = Some found
              /\ m ∈ found.
Proof.
  unfold detect_circles. cbv zeta.
  set (cell := py_min (inject_Z (img_w img) / 12) (inject_Z (img_h img) / 8)).
  set (f := fun '(blur_size, param2) =>
              hough img blur_size param2 (py_int (cell * (65#100)))
                    (py_int (cell * (42#100) * (5#10)))
                    (py_int (cell * (42#100) * (13#10)))).
  pose proof (fun y => proj1 (list_elem_of_omap f sweep y)) as Hall.
  destruct (omap f sweep) as [|found0 founds] eqn:Hsw; cbn [fst snd];
    [intros Hc; by apply elem_of_nil in Hc|].
  set (combined := concat (found0 :: founds)) in *.
  set (deduped := _deduplicate combined (inject_Z (py_int (cell * (65#100))) * (5#10))).
  set (med_r := np_median (map c_r deduped)).
  intros Hc.
  apply elem_of_List_filter in Hc as [Hc Hedge].
  apply elem_of_List_filter in Hc as [Hc Hrad].
  repeat rewrite andb_true_iff in Hedge. repeat rewrite andb_true_iff in Hrad.
  rewrite !Qltb_true in Hedge. rewrite !Qleb_true in Hrad.
  destruct Hedge as [[[? ?] ?] ?], Hrad as [? ?].
  split; [done|]. split; [done|]. split; [done|].
  unfold deduped in Hc. rewrite deduplicate_seed_groups in Hc.
  apply list_elem_of_fmap in Hc as (g & -> & Hg).
  exists g. split; [done|]. split.
  - pose proof (seed_groups_shape (length combined)
                  (inject_Z (py_int (cell * (65#100))) * (5#10)) combined) as Hshape.
    rewrite Forall_forall in Hshape.
    by destruct (Hshape g Hg) as (s & r & -> & _).
  - intros m Hm. pose proof (seed_groups_members _ _ _ _ _ Hg Hm) as Hin.
    apply list_elem_of_In, in_concat in Hin as (found & Hfound & Hmf).
    apply list_elem_of_In in Hfound, Hmf.
    destruct (Hall found Hfound) as ([b p] & Hbp & Hf).
    exists b, p, found. done.
Qed.

Lemma detect_circles_filtered_witness :
  exists c, c ∈ fst (detect_circles one_circle_image)
    /\ snd (detect_circles one_circle_image) * (6#10) <= c_r c
       <= snd (detect_circles one_circle_image) * (14#10).
Proof.
  assert (Hc : exists c, c ∈ fst (detect_circles one_circle_image)).
  { eexists. vm_compute. apply list_elem_of_here. }
  destruct Hc as [c Hc]. exists c. split; [exact Hc|].
  exact (proj1 (detect_circles_filtered one_circle_image c Hc)).
Defined.

Lemma length_omap_le {A B} (f : A -> option B) (l : list A) :
  (length (omap f l) <= length l)%nat.
Proof. induction l as [|a l IH]; cbn; [lia|]. destruct (f a); cbn; lia. Qed.

Lemma pair_unit_dists_length axis other expected max_other centers :
  (2 * length (pair_unit_dists axis other expected max_other centers)
   <= length centers * (length centers - 1))%nat.
Proof.
  induction centers as [|c rest IH]; [done|].
  cbn [pair_unit_dists]. rewrite length_app.
  pose proof (length_omap_le (unit_dist axis other expected max_other c) rest).
  cbn [length]. nia.
Qed.

(** X13: [_estimate_step_from_pairs] returns nothing for fewer than four
    centres (they give at most three pairs, and five votes are asked for);
    a step it returns lies within 0.7 and 1.3 times the expected step,
    which is then positive, and is backed by at least five pairs. *)
Theorem estimate_step_from_pairs_facts (centers : list (Q * Q)) (axis other : Z)
    (expected max_other : Q) :
  ((length centers < 4)%nat ->
     _estimate_step_from_pairs centers axis other expected max_other = None)
  /\ (forall step,
        _estimate_step_from_pairs centers axis other expected max_other = Some step ->
        (7#10) * expected <= step <= (13#10) * expected
        /\ 0 < expected
        /\ (5 <= length (pair_unit_dists axis other expected max_other centers))%nat
        /\ (4 <= length centers)%nat).
Proof.
  unfold _estimate_step_from_pairs. cbv zeta.
  pose proof (pair_unit_dists_length axis other expected max_other centers) as Hlen.
  set (l := pair_unit_dists axis other expected max_other centers) in *.
  destruct (length l <? 5)%nat eqn:Hl.
  - split; [done | by intros].
  - apply Nat.ltb_ge in Hl.
    assert (Hn : (4 <= length centers)%nat) by nia.
    split; [lia|]. intros step [= <-].
    destruct (np_median_strictly_between ((7#10) * expected) ((13#10) * expected) l)
      as [Hlo Hhi].
    + intros ->. cbn in Hl. lia.
    + intros x Hx. by eapply pair_unit_dists_band.
    + split; [lra|]. split; [lra|]. done.
Qed.

(** The slots that a centre fits: it rounds to the slot and lies within
    [threshold] of the slot's predicted position. *)
Lemma slot_of_in_grid cx cy ox oy sx sy k e :
  slot_of cx cy ox oy sx sy = Some (k, e) -> k ∈ grid_keys.
Proof.
  unfold slot_of. cbv zeta.
  destruct (in_grid _ _) eqn:Hin; [|done]. intros [= <- _].
  unfold in_grid in Hin. apply elem_of_grid_keys.
  repeat (apply andb_true_iff in Hin as [Hin ?]). lia.
Qed.

Lemma score_grid_fold (ox oy sx sy : Q) (centers : list (Q * Q))
    (st : Z * gset (Z * Z)) :
  let threshold := py_max sx sy * (35#100) in
  let fits (c : Q * Q) k :=
    exists e, slot_of (fst c) (snd c) ox oy sx sy = Some (k, e)
              /\ sqrt_lt e threshold = true in
  let st' :=
    fold_left
      (fun (st : Z * gset (Z * Z)) '(cx, cy) =>
         let '(score, used_slots) := st in
         match slot_of cx cy ox oy sx sy with
         | Some (row, col, err2) =>
             if sqrt_lt err2 threshold && negb (bool_decide ((row, col) ∈ used_slots))
             then ((score + 1)%Z, {[ (row, col) ]} ∪ used_slots)
             else st
         | None => st
         end) centers st in
  (forall k, k ∈ snd st' <-> k ∈ snd st \/ exists c, c ∈ centers /\ fits c k)
  /\ (fst st' - fst st = Z.of_nat (size (snd st')) - Z.of_nat (size (snd st)))%Z
  /\ (fst st <= fst st' <= fst st + Z.of_nat (length centers))%Z.
Proof.
  cbv zeta. revert st. induction centers as [|[cx cy] rest IH]; intros [score used].
  - cbn. split; [|lia]. intros k. split; [by left|].
    intros [?|(c & Hc & _)]; [done | by apply elem_of_nil in Hc].
  - cbn [fold_left].
    destruct (slot_of cx cy ox oy sx sy) as [[[row col] err2]|] eqn:Hslot.
    + destruct (sqrt_lt err2 (py_max sx sy * (35#100))) eqn:Hlt; cbn [andb].
      * case_bool_decide as Hused; cbn [negb].
        -- specialize (IH (score, used)). destruct IH as (Hk & Hsz & Hle).
           split; [|cbn [fst snd length] in *; lia].
           intros k. rewrite Hk. cbn [snd]. split; [intros [?|(c & Hc & Hf)]|].
           ++ by left.
           ++ right. exists c. split; [by right | done].
           ++ intros [?|(c & Hc & Hf)]; [by left|].
              apply elem_of_cons in Hc as [-> | Hc]; [|right; eauto].
              destruct Hf as (e & He & _). cbn [fst snd] in He.
              rewrite Hslot in He. injection He as <- _. by left.
        -- specialize (IH ((score + 1)%Z, {[(row, col)]} ∪ used)).
           destruct IH as (Hk & Hsz & Hle). cbn [fst snd] in *.
           assert (Hsize : size ({[(row, col)]} ∪ used) = S (size used)).
           { rewrite size_union by (by apply disjoint_singleton_l). by rewrite size_singleton. }
           rewrite Hsize in Hsz.
           split; [|cbn [length]; lia].
           intros k. rewrite Hk. split; [intros [Hin|(c & Hc & Hf)]|].
           ++ apply elem_of_union in Hin as [->%elem_of_singleton | ?]; [|by left].
              right. exists (cx, cy). split; [by left|]. exists err2. done.
           ++ right. exists c. split; [by right | done].
           ++ intros [?|(c & Hc & Hf)]; [left; apply elem_of_union; by right|].
              apply elem_of_cons in Hc as [-> | Hc]; [|right; eauto].
              destruct Hf as (e & He & _). cbn [fst snd] in He.
              rewrite Hslot in He. injection He as <- _. left.
              apply elem_of_union. left. by apply elem_of_singleton.
      * specialize (IH (score, used)). destruct IH as (Hk & Hsz & Hle).
        split; [|cbn [fst snd length] in *; lia].
        intros k. rewrite Hk. cbn [snd]. split; [intros [?|(c & Hc & Hf)]|].
        -- by left.
        -- right. exists c. split; [by right | done].
        -- intros [?|(c & Hc & Hf)]; [by left|].
           apply elem_of_cons in Hc as [-> | Hc]; [|right; eauto].
           destruct Hf as (e & He & Hlt'). cbn [fst snd] in He.
           rewrite Hslot in He. injection He as _ <-. congruence.
    + specialize (IH (score, used)). destruct IH as (Hk & Hsz & Hle).
      split; [|cbn [fst snd length] in *; lia].
      intros k. rewrite Hk. cbn [snd]. split; [intros [?|(c & Hc & Hf)]|].
      * by left.
      * right. exists c. split; [by right | done].
      * intros [?|(c & Hc & Hf)]; [by left|].
        apply elem_of_cons in Hc as [-> | Hc]; [|right; eauto].
        destruct Hf as (e & He & _). cbn [fst snd] in He. congruence.
Qed.

(** X14: the score of a grid counts slots, not circles.  For non-zero
    steps, the returned set holds exactly the slots of the plate that some
    centre fits, the score is the size of that set, and so it is at most the
    number of centres and at most 96. *)
Theorem score_grid_counts_slots (centers : list (Q * Q)) (ox oy sx sy : Q) :
  ~ sx == 0 -> ~ sy == 0 ->
  let threshold := py_max sx sy * (35#100) in
  let score := fst (_score_grid centers ox oy sx sy) in
  let used_slots := snd (_score_grid centers ox oy sx sy) in
  (forall k, k ∈ used_slots <->
     exists c e, c ∈ centers
                 /\ slot_of (fst c) (snd c) ox oy sx sy = Some (k, e)
                 /\ sqrt_lt e threshold = true)
  /\ (forall k, k ∈ used_slots -> k ∈ grid_keys)
  /\ score = Z.of_nat (size used_slots)
  /\ (score <= Z.of_nat (length centers))%Z
  /\ (score <= 96)%Z.
Proof.
  intros _ _. cbv zeta.
  destruct (score_grid_fold ox oy sx sy centers (0%Z, ∅)) as (Hk & Hsz & Hle).
  cbv zeta in Hk, Hsz, Hle. fold (_score_grid centers ox oy sx sy) in Hk, Hsz, Hle.
  cbn [fst snd] in Hk, Hsz, Hle. rewrite size_empty in Hsz.
  set (res := _score_grid centers ox oy sx sy) in *. clearbody res.
  assert (Hused : forall k, k ∈ res.2 <->
            exists c e, c ∈ centers
                        /\ slot_of (fst c) (snd c) ox oy sx sy = Some (k, e)
                        /\ sqrt_lt e (py_max sx sy * (35#100)) = true).
  { intros k. rewrite Hk. split.
    - intros [Hin|(c & Hc & e & He & Hlt)]; [by apply elem_of_empty in Hin | eauto 10].
    - intros (c & e & Hc & He & Hlt). right. eauto 10. }
  assert (Hgrid : forall k, k ∈ res.2 -> k ∈ grid_keys).
  { intros k (c & e & _ & He & _)%Hused. by eapply slot_of_in_grid. }
  split; [done|]. split; [done|]. split; [lia|]. split; [lia|].
  assert (size res.2 <= size (list_to_set grid_keys : gset (Z * Z)))%nat.
  { apply subseteq_size. intros k Hin. apply elem_of_list_to_set. by apply Hgrid. }
  assert (size (list_to_set grid_keys : gset (Z * Z)) = 96%nat)
    by (rewrite size_list_to_set by apply NoDup_grid_keys; reflexivity).
  lia.
Qed.

Lemma score_grid_counts_slots_witness :
  fst (_score_grid [(50, 50); (52, 51)] 50 50 100 100) = 1%Z.
Proof.
  assert (H1 : ~ 100 == 0) by (by vm_compute).
  destruct (score_grid_counts_slots [(50, 50); (52, 51)] 50 50 100 100 H1 H1)
    as (_ & _ & -> & _).
  by vm_compute.
Defined.

(** The squared distance that [slot_of] returns is the one
    [_assign_circles] recomputes for the circle already in the slot. *)
Lemma slot_of_err cx cy ox oy sx sy row col e :
  slot_of cx cy ox oy sx sy = Some (row, col, e) ->
  e = (cx - (ox + inject_Z col * sx)) * (cx - (ox + inject_Z col * sx))
      + (cy - (oy + inject_Z row * sy)) * (cy - (oy + inject_Z row * sy)).
Proof.
  unfold slot_of. cbv zeta. destruct (in_grid _ _); [|done]. by intros [= <- <- <-].
Qed.

Lemma assign_circles_snoc (circles : list Circle) (c : Circle) (ox oy sx sy : Q) :
  _assign_circles (circles ++ [c]) ox oy sx sy
  = let assignments := _assign_circles circles ox oy sx sy in
    match slot_of (c_x c) (c_y c) ox oy sx sy with
    | Some (row, col, err2) =>
        if sqrt_lt err2 (py_max sx sy * (45#100)) then
          match assignments !! (row, col) with
          | None => <[(row, col) := (c_x c, c_y c, c_r c)]> assignments
          | Some (old_cx, old_cy, _) =>
              if Qltb err2
                   ((old_cx - (ox + inject_Z col * sx)) * (old_cx - (ox + inject_Z col * sx))
                    + (old_cy - (oy + inject_Z row * sy))
                      * (old_cy - (oy + inject_Z row * sy)))
              then <[(row, col) := (c_x c, c_y c, c_r c)]> assignments
              else assignments
          end
        else assignments
    | None => assignments
    end.
Proof. unfold _assign_circles. cbv zeta. by rewrite fold_left_app. Qed.

Lemma assign_circles_invariant (circles : list Circle) (ox oy sx sy : Q) (k : Z * Z) :
  let threshold := py_max sx sy * (45#100) in
  let fits c e := slot_of (c_x c) (c_y c) ox oy sx sy = Some (k, e)
                  /\ sqrt_lt e threshold = true in
  match _assign_circles circles ox oy sx sy !! k with
  | Some v =>
      k ∈ grid_keys
      /\ exists c e, c ∈ circles /\ v = (c_x c, c_y c, c_r c) /\ fits c e
                     /\ forall c' e', c' ∈ circles -> fits c' e' -> e <= e'
  | None => forall c e, c ∈ circles -> ~ fits c e
  end.
Proof.
  cbv zeta. induction circles as [|c circles IH] using rev_ind.
  - unfold _assign_circles. cbn [fold_left]. rewrite lookup_empty.
    intros c e Hc. by apply elem_of_nil in Hc.
  - rewrite assign_circles_snoc. cbv zeta.
    set (m := _assign_circles circles ox oy sx sy) in *. clearbody m.
    assert (Hkeep :
      (forall e, ~ (slot_of (c_x c) (c_y c) ox oy sx sy = Some (k, e)
                    /\ sqrt_lt e (py_max sx sy * (45#100)) = true)) ->
      match m !! k with
      | Some v =>
          k ∈ grid_keys
          /\ exists c0 e, c0 ∈ circles ++ [c] /\ v = (c_x c0, c_y c0, c_r c0)
               /\ (slot_of (c_x c0) (c_y c0) ox oy sx sy = Some (k, e)
                   /\ sqrt_lt e (py_max sx sy * (45#100)) = true)
               /\ forall c' e', c' ∈ circles ++ [c] ->
                    slot_of (c_x c') (c_y c') ox oy sx sy = Some (k, e')
                    /\ sqrt_lt e' (py_max sx sy * (45#100)) = true -> e <= e'
      | None => forall c0 e, c0 ∈ circles ++ [c] ->
                  ~ (slot_of (c_x c0) (c_y c0) ox oy sx sy = Some (k, e)
                     /\ sqrt_lt e (py_max sx sy * (45#100)) = true)
      end).
    { intros Hno. destruct (m !! k) as [v|].
      - destruct IH as (Hk & c0 & e & Hc0 & Hv & Hfit & Hmin).
        split; [done|]. exists c0, e. split; [apply elem_of_app; by left|].
        split; [done|]. split; [done|].
        intros c' e' [Hc'|Hc']%elem_of_app Hf'; [by apply (Hmin c')|].
        apply list_elem_of_singleton in Hc' as ->. by destruct (Hno e').
      - intros c0 e [Hc0|Hc0]%elem_of_app; [by apply IH|].
        apply list_elem_of_singleton in Hc0 as ->. apply Hno. }
    destruct (slot_of (c_x c) (c_y c) ox oy sx sy) as [[[row col] err2]|] eqn:Hslot;
      [|apply Hkeep; by intros e [? _]].
    destruct (sqrt_lt err2 (py_max sx sy * (45#100))) eqn:Hlt;
      [|apply Hkeep; intros e [[= <- <-] ?]; congruence].
    destruct (decide (k = (row, col))) as [->|Hne].
    + pose proof (slot_of_in_grid _ _ _ _ _ _ _ _ Hslot) as Hgrid.
      destruct (m !! (row, col)) as [[[old_cx old_cy] old_r]|] eqn:Hm.
      * destruct IH as (_ & c0 & e & Hc0 & Hv & [Hs0 Hlt0] & Hmin).
        injection Hv as -> -> ->.
        pose proof (slot_of_err _ _ _ _ _ _ _ _ _ Hs0) as He. rewrite <- He.
        destruct (Qltb err2 e) eqn:Hcmp.
        -- rewrite lookup_insert_eq. split; [done|]. exists c, err2.
           split; [apply elem_of_app; right; by apply list_elem_of_singleton|].
           split; [done|]. split; [done|]. apply Qltb_true in Hcmp.
           intros c' e' [Hc'|Hc']%elem_of_app [Hs' Hlt'].
           ++ pose proof (Hmin c' e' Hc' (conj Hs' Hlt')). lra.
           ++ apply list_elem_of_singleton in Hc' as ->.
              rewrite Hslot in Hs'. injection Hs' as <-. apply Qle_refl.
        -- rewrite Hm. split; [done|]. exists c0, e.
           split; [apply elem_of_app; by left|].
           split; [done|]. split; [done|]. apply Qltb_false in Hcmp.
           intros c' e' [Hc'|Hc']%elem_of_app [Hs' Hlt']; [by apply (Hmin c')|].
           apply list_elem_of_singleton in Hc' as ->.
           rewrite Hslot in Hs'. by injection Hs' as <-.
      * rewrite lookup_insert_eq. split; [done|]. exists c, err2.
        split; [apply elem_of_app; right; by apply list_elem_of_singleton|].
        split; [done|]. split; [done|].
        intros c' e' [Hc'|Hc']%elem_of_app [Hs' Hlt']; [by destruct (IH c' e' Hc')|].
        apply list_elem_of_singleton in Hc' as ->.
        rewrite Hslot in Hs'. injection Hs' as <-. apply Qle_refl.
    + assert (Hno : forall e, ~ (Some (row, col, err2) = Some (k, e)
                                 /\ sqrt_lt e (py_max sx sy * (45#100)) = true))
        by (intros e [[= <- _] _]; done).
      specialize (Hkeep Hno).
      destruct (m !! (row, col)) as [[[old_cx old_cy] old_r]|];
        [destruct (Qltb err2 _)|]; rewrite ?lookup_insert_ne by done; exact Hkeep.
Qed.

(** X15: [_assign_circles] keeps, for each slot, a closest circle.  For
    non-zero steps: an assigned slot is on the plate and holds one of the
    circles, which rounds to that slot within 0.45 of the larger step and
    is at least as close to the slot's predicted position as every other
    circle that does; a slot with no entry has no such circle. *)
Theorem assign_circles_closest (circles : list Circle) (ox oy sx sy : Q) (k : Z * Z) :
  ~ sx == 0 -> ~ sy == 0 ->
  let threshold := py_max sx sy * (45#100) in
  let fits c e := slot_of (c_x c) (c_y c) ox oy sx sy = Some (k, e)
                  /\ sqrt_lt e threshold = true in
  match _assign_circles circles ox oy sx sy !! k with
  | Some v =>
      k ∈ grid_keys
      /\ exists c e, c ∈ circles /\ v = (c_x c, c_y c, c_r c) /\ fits c e
                     /\ forall c' e', c' ∈ circles -> fits c' e' -> e <= e'
  | None => forall c e, c ∈ circles -> ~ fits c e
  end.
Proof. intros _ _. apply assign_circles_invariant. Qed.

Lemma assign_circles_closest_witness :
  let circles := [mkCircle 50 50 40; mkCircle 52 51 40] in
  let fits c e := slot_of (c_x c) (c_y c) 50 50 100 100 = Some ((0, 0)%Z, e)
                  /\ sqrt_lt e (py_max 100 100 * (45#100)) = true in
  match _assign_circles circles 50 50 100 100 !! (0, 0)%Z with
  | Some v =>
      (0, 0)%Z ∈ grid_keys
      /\ exists c e, c ∈ circles /\ v = (c_x c, c_y c, c_r c) /\ fits c e
                     /\ forall c' e', c' ∈ circles -> fits c' e' -> e <= e'
  | None => forall c e, c ∈ circles -> ~ fits c e
  end.
Proof.
  assert (H1 : ~ 100 == 0) by (by vm_compute).
  exact (assign_circles_closest [mkCircle 50 50 40; mkCircle 52 51 40]
           50 50 100 100 (0, 0)%Z H1 H1).
Defined.

(** X16: what the slots of a fitted grid hold.  For non-zero fitted steps:
    every slot of the plate is in the grid; a slot marked as detected holds
    centre and radius of one of the circles, a closest one among those that
    round to the slot within 0.45 of the larger step; any other slot sits at
    the position the fitted parameters predict, with the median radius, and
    no circle rounds to it within that distance. *)
Theorem fit_grid_robust_slots (set_iter : list Q -> list Q) (circles : list Circle)
    (w h : Z) (med_radius : Q) (grid : gmap (Z * Z) Slot) (ox oy sx sy : Q) (r c : Z) :
  fit_grid_robust set_iter circles w h med_radius = Ok (grid, (ox, oy, sx, sy)) ->
  ~ sx == 0 -> ~ sy == 0 ->
  (0 <= r < 8)%Z -> (0 <= c < 12)%Z ->
  let threshold := py_max sx sy * (45#100) in
  let fits circ e := slot_of (c_x circ) (c_y circ) ox oy sx sy = Some ((r, c), e)
                     /\ sqrt_lt e threshold = true in
  exists s,
    grid !! (r, c) = Some s
    /\ if slot_detected s
       then exists circ e,
              circ ∈ circles /\ fits circ e
              /\ slot_cx s = c_x circ /\ slot_cy s = c_y circ
              /\ slot_radius s = c_r circ
              /\ forall c' e', c' ∈ circles -> fits c' e' -> e <= e'
       else slot_cx s = ox + inject_Z c * sx
            /\ slot_cy s = oy + inject_Z r * sy
            /\ slot_radius s = med_radius
            /\ forall circ e, circ ∈ circles -> ~ fits circ e.
Proof.
  intros Hfit Hsx Hsy Hr Hc. cbv zeta.
  unfold fit_grid_robust in Hfit. cbv zeta in Hfit.
  destruct (estimated_steps circles w h) as [step_x step_y].
  destruct (best_origin_exn _ _ _ _ _ _) as [best|]; [|done].
  cbn [mbind py_bind] in Hfit.
  destruct (fst best) as [[best_ox best_oy]|]; [|done].
  destruct (_refine_grid_lsq circles best_ox best_oy step_x step_y)
    as [[[[ox' oy'] sx'] sy']|]; [|done].
  cbn [mbind py_bind] in Hfit.
  destruct (_assign_circles_exn circles ox' oy' sx' sy') as [assignments|] eqn:Hassign;
    [|done].
  cbn [mbind py_bind] in Hfit.
  injection Hfit as <- -> -> -> ->.
  rewrite (assign_circles_exn_Ok _ _ _ _ _ Hsx Hsy) in Hassign.
  injection Hassign as <-.
  rewrite build_grid_lookup by done.
  pose proof (assign_circles_invariant circles ox oy sx sy (r, c)) as Ha.
  cbv zeta in Ha.
  destruct (_assign_circles circles ox oy sx sy !! (r, c)) as [[[cx cy] rad]|].
  - eexists. split; [reflexivity|]. cbn [slot_detected slot_cx slot_cy slot_radius].
    destruct Ha as (_ & circ & e & Hin & [= -> -> ->] & Hfits & Hmin).
    exists circ, e. done.
  - eexists. split; [reflexivity|]. cbn [slot_detected slot_cx slot_cy slot_radius].
    done.
Qed.

Lemma fit_offpitch :
  exists grid ox oy sx sy,
    fit_grid_robust (fun l => l) offpitch_circles 1200 800 40 = Ok (grid, (ox, oy, sx, sy))
    /\ ~ sx == 0 /\ ~ sy == 0.
Proof. do 5 eexists. split; [vm_compute; reflexivity|]. split; by vm_compute. Qed.

Lemma fit_grid_robust_slots_witness :
  exists grid ox oy sx sy s,
    fit_grid_robust (fun l => l) offpitch_circles 1200 800 40 = Ok (grid, (ox, oy, sx, sy))
    /\ grid !! (0, 0)%Z = Some s
    /\ if slot_detected s
       then exists circ e,
              circ ∈ offpitch_circles
              /\ (slot_of (c_x circ) (c_y circ) ox oy sx sy = Some ((0, 0)%Z, e)
                  /\ sqrt_lt e (py_max sx sy * (45#100)) = true)
              /\ slot_cx s = c_x circ /\ slot_cy s = c_y circ
              /\ slot_radius s = c_r circ
              /\ forall c' e', c' ∈ offpitch_circles ->
                   slot_of (c_x c') (c_y c') ox oy sx sy = Some ((0, 0)%Z, e')
                   /\ sqrt_lt e' (py_max sx sy * (45#100)) = true -> e <= e'
       else slot_cx s = ox + inject_Z 0 * sx
            /\ slot_cy s = oy + inject_Z 0 * sy
            /\ slot_radius s = 40
            /\ forall circ e, circ ∈ offpitch_circles ->
                 ~ (slot_of (c_x circ) (c_y circ) ox oy sx sy = Some ((0, 0)%Z, e)
                    /\ sqrt_lt e (py_max sx sy * (45#100)) = true).
Proof.
  destruct fit_offpitch as (grid & ox & oy & sx & sy & Hfit & Hsx & Hsy).
  assert (H0r : (0 <= 0 < 8)%Z) by lia. assert (H0c : (0 <= 0 < 12)%Z) by lia.
  destruct (fit_grid_robust_slots (fun l => l) offpitch_circles 1200 800 40
              grid ox oy sx sy 0 0 Hfit Hsx Hsy H0r H0c) as (s & Hs & Hslot).
  exists grid, ox, oy, sx, sy, s. split; [exact Hfit|]. split; [exact Hs|].
  exact Hslot.
Defined.

Lemma locate_grid_build (set_iter : list Q -> list Q) (img : PlateImage) grid params :
  locate_grid set_iter img = Ok (grid, params) -> exists f, grid = build_grid f.
Proof.
  unfold locate_grid. destruct (detect_circles img) as [circles med].
  destruct (length circles <? 20)%nat.
  - unfold _naive_grid. cbv zeta. intros [= <- _]. eauto.
  - unfold fit_grid_robust. cbv zeta.
    destruct (estimated_steps _ _ _) as [step_x step_y].
    destruct (best_origin_exn _ _ _ _ _ _) as [best|]; [|done].
    cbn [mbind py_bind].
    destruct (fst best) as [[best_ox best_oy]|]; [|done].
    destruct (_refine_grid_lsq _ _ _ _ _) as [[[[ox oy] sx] sy]|]; [|done].
    cbn [mbind py_bind].
    destruct (_assign_circles_exn _ _ _ _ _) as [assignments|]; [|done].
    cbn [mbind py_bind].
    intros [= <- _]. eauto.
Qed.

Lemma extract_wells_dom (set_iter : list Q -> list Q) (img : PlateImage)
    (wells : gmap (Z * Z) Well) :
  extract_wells set_iter img = Ok wells ->
  exists grid params,
    locate_grid set_iter img = Ok (grid, params)
    /\ wells = sample_slot img <$> grid
    /\ (forall k, is_Some (wells !! k) <-> k ∈ grid_keys)
    /\ size wells = 96%nat.
Proof.
  unfold extract_wells.
  destruct (locate_grid set_iter img) as [[grid params]|] eqn:Hloc; [|done].
  intros [= <-]. destruct (locate_grid_build _ _ _ _ Hloc) as [f ->].
  exists (build_grid f), params. split; [done|]. split; [done|]. split.
  - intros k. rewrite lookup_fmap, fmap_is_Some, <- elem_of_dom, build_grid_dom.
    apply elem_of_list_to_set.
  - by rewrite map_size_fmap, build_grid_size.
Qed.

(** X17: whatever path the extractor takes, the wells it returns are the 96
    wells of the plate, each sampled from the slot of its key; the control
    well H1 is among them. *)
Theorem extract_wells_keys (set_iter : list Q -> list Q) (img : PlateImage)
    (wells : gmap (Z * Z) Well) :
  extract_wells set_iter img = Ok wells ->
  (forall k, is_Some (wells !! k) <-> k ∈ grid_keys)
  /\ size wells = 96%nat
  /\ is_Some (wells !! control_key)
  /\ exists grid params,
       locate_grid set_iter img = Ok (grid, params)
       /\ forall k, wells !! k = sample_slot img <$> grid !! k.
Proof.
  intros (grid & params & Hloc & -> & Hdom & Hsize)%extract_wells_dom.
  split; [exact Hdom|]. split; [exact Hsize|].
  split; [apply Hdom; apply (bool_decide_unpack _); by vm_compute|].
  exists grid, params. split; [done|]. intros k. by rewrite lookup_fmap.
Qed.

Lemma extract_wells_blank :
  exists wells, extract_wells (fun l => l) blank_image = Ok wells.
Proof. eexists. vm_compute. reflexivity. Qed.

Lemma extract_wells_keys_witness :
  exists wells,
    extract_wells (fun l => l) blank_image = Ok wells /\ size wells = 96%nat.
Proof.
  destruct extract_wells_blank as [wells Hw]. exists wells. split; [exact Hw|].
  exact (proj1 (proj2 (extract_wells_keys _ _ _ Hw))).
Defined.

Lemma py_slice_len_bounds (n start stop : Z) :
  (0 <= n)%Z -> (0 <= py_slice_len n start stop <= n)%Z.
Proof.
  intros Hn. unfold py_slice_len. cbv zeta.
  destruct (stop <? 0)%Z eqn:E1, (start <? 0)%Z eqn:E2;
    rewrite ?Z.ltb_lt, ?Z.ltb_ge in *; lia.
Qed.

(** X18: the crop of a slot.  In an image of non-negative size the crop
    has between 0 and the image's rows and columns, and each well records
    the shape of its crop and the truncated centre of its slot.  With a
    non-negative radius: when the lower edge [cy + r] of the window is on or
    below the top of the image, the crop has at most [2 r] rows; when it is
    above the top (negative), the negative stop of the slice counts from the
    bottom of the image and the crop has [img_h + cy + r] rows (or none).
    A well is marked as detected only if its slot is and the crop has at
    least five rows and columns. *)
Theorem sample_slot_crop (img : PlateImage) (gdata : Slot) :
  (0 <= img_h img)%Z -> (0 <= img_w img)%Z ->
  let d := sample_slot img gdata in
  let cy := py_int (slot_cy gdata) in
  let r := py_int (slot_radius gdata) in
  let ch := fst (crop d) in
  let cw := snd (crop d) in
  crop d = crop_shape img gdata
  /\ center d = (py_int (slot_cx gdata), cy)
  /\ (0 <= ch <= img_h img)%Z /\ (0 <= cw <= img_w img)%Z
  /\ ((0 <= r)%Z -> (0 <= cy + r)%Z -> (ch <= 2 * r)%Z)
  /\ ((0 <= r)%Z -> (cy + r < 0)%Z -> ch = Z.max 0 (img_h img + (cy + r)))
  /\ ((ch < 5)%Z \/ (cw < 5)%Z ->
      d = _empty_well (py_int (slot_cx gdata)) cy (ch, cw))
  /\ (detected d = true ->
      slot_detected gdata = true /\ (5 <= ch)%Z /\ (5 <= cw)%Z).
Proof.
  intros Hh Hw. cbv zeta. unfold sample_slot, crop_shape. cbv zeta.
  set (cx := py_int (slot_cx gdata)). set (cy := py_int (slot_cy gdata)).
  set (r := py_int (slot_radius gdata)).
  pose proof (py_slice_len_bounds (img_h img) (Z.max 0 (cy - r))
                (Z.min (img_h img) (cy + r)) Hh) as Hch.
  pose proof (py_slice_len_bounds (img_w img) (Z.max 0 (cx - r))
                (Z.min (img_w img) (cx + r)) Hw) as Hcw.
  assert (Hnormal : (0 <= r)%Z -> (0 <= cy + r)%Z ->
            (py_slice_len (img_h img) (Z.max 0 (cy - r)) (Z.min (img_h img) (cy + r))
             <= 2 * r)%Z).
  { intros Hr Hy. unfold py_slice_len. cbv zeta.
    destruct (Z.min (img_h img) (cy + r) <? 0)%Z eqn:E1; [apply Z.ltb_lt in E1; lia|].
    destruct (Z.max 0 (cy - r) <? 0)%Z eqn:E2; [apply Z.ltb_lt in E2; lia|]. lia. }
  assert (Hquirk : (0 <= r)%Z -> (cy + r < 0)%Z ->
            py_slice_len (img_h img) (Z.max 0 (cy - r)) (Z.min (img_h img) (cy + r))
            = Z.max 0 (img_h img + (cy + r))).
  { intros Hr Hy. unfold py_slice_len. cbv zeta.
    destruct (Z.min (img_h img) (cy + r) <? 0)%Z eqn:E1;
      [|apply Z.ltb_ge in E1; lia].
    destruct (Z.max 0 (cy - r) <? 0)%Z eqn:E2; [apply Z.ltb_lt in E2; lia|]. lia. }
  set (ch := py_slice_len (img_h img) _ _) in *.
  set (cw := py_slice_len (img_w img) _ _) in *.
  destruct ((ch <? 5)%Z || (cw <? 5)%Z) eqn:Esmall.
  - cbn [crop center detected _empty_well fst snd].
    repeat split; try done; try lia.
  - apply orb_false_iff in Esmall as [E1%Z.ltb_ge E2%Z.ltb_ge].
    destruct (pixel_stats img (cx, cy) r _ _) as [[[[median mean] rgb] count]|];
      cbn [crop center detected _empty_well fst snd];
      repeat split; try done; try lia.
Qed.

Lemma sample_slot_crop_witness :
  fst (crop (sample_slot blank_image (mkSlot 50 (-60) 40 false))) = 780%Z.
Proof.
  assert (Hh : (0 <= img_h blank_image)%Z) by (by vm_compute).
  assert (Hw : (0 <= img_w blank_image)%Z) by (by vm_compute).
  destruct (sample_slot_crop blank_image (mkSlot 50 (-60) 40 false) Hh Hw)
    as (_ & _ & _ & _ & _ & Hquirk & _).
  rewrite Hquirk; by vm_compute.
Defined.

Lemma py_fmod_range (x m : Q) : 0 < m -> 0 <= py_fmod x m < m.
Proof.
  intros Hm. unfold py_fmod.
  pose proof (Qfloor_le (x / m)) as Hlo. pose proof (Qlt_floor (x / m)) as Hhi.
  rewrite inject_Z_plus in Hhi. change (inject_Z 1) with 1 in Hhi.
  set (f := inject_Z (Qfloor (x / m))) in *.
  assert (Hx : x == m * (x / m)) by (field; lra).
  assert (H1 : m * f <= m * (x / m)) by (apply Qmult_le_l; done).
  assert (H2 : m * (x / m) < m * (f + 1)) by (apply Qmult_lt_l; done).
  rewrite <- Hx in H1, H2. lra.
Qed.

Lemma py_fmod_small (x m : Q) : 0 <= x < m -> py_fmod x m == x.
Proof.
  intros [Hx0 Hxm]. assert (Hm : 0 < m) by lra.
  pose proof (py_fmod_range x m Hm) as Hr. unfold py_fmod in *.
  set (f := Qfloor (x / m)) in *.
  assert (Hf : f = 0%Z).
  { assert (-1 < inject_Z f).
    { apply Qnot_le_lt. intros Hle.
      assert (m * inject_Z f <= m * (-1)) by (apply Qmult_le_l; done). lra. }
    assert (inject_Z f < 1).
    { apply Qnot_le_lt. intros Hle.
      assert (m * 1 <= m * inject_Z f) by (apply Qmult_le_l; done). lra. }
    change (-1) with (inject_Z (-1)) in *. change 1 with (inject_Z 1) in *.
    rewrite <- Zlt_Qlt in *. lia. }
  rewrite Hf. change (inject_Z 0) with 0. ring.
Qed.

Lemma py_fmod_negative (x m : Q) : - m <= x < 0 -> py_fmod x m == x + m.
Proof.
  intros [Hx0 Hxm]. assert (Hm : 0 < m) by lra.
  pose proof (py_fmod_range x m Hm) as Hr. unfold py_fmod in *.
  set (f := Qfloor (x / m)) in *.
  assert (Hf : f = (-1)%Z).
  { assert (-2 < inject_Z f).
    { apply Qnot_le_lt. intros Hle.
      assert (m * inject_Z f <= m * (-2)) by (apply Qmult_le_l; done). lra. }
    assert (inject_Z f < 0).
    { apply Qnot_le_lt. intros Hle.
      assert (m * 0 <= m * inject_Z f) by (apply Qmult_le_l; done). lra. }
    change (-2) with (inject_Z (-2)) in *. change 0 with (inject_Z 0) in *.
    rewrite <- Zlt_Qlt in *. lia. }
  rewrite Hf. change (inject_Z (-1)) with (-1). ring.
Qed.

(** X19: the circular median of hue bytes.  For a non-empty array of hues
    in 0..179 the result is a hue again, in [0, 180); and when every hue lies
    within 30 of the seam of the hue circle (below 30 or above 150), so does
    the result, whichever side has the majority. *)
Theorem circular_median_hue_range (hues : list Z) :
  hues <> [] -> Forall (fun h => 0 <= h < 180)%Z hues ->
  0 <= circular_median_hue hues < 180
  /\ (Forall (fun h => h < 30 \/ 150 < h)%Z hues ->
      circular_median_hue hues < 30 \/ 150 < circular_median_hue hues).
Proof.
  intros Hne Hall. unfold circular_median_hue.
  assert (Hmap : forall f : Z -> Q, map f hues <> [])
    by (intros f; destruct hues; done).
  assert (Hmed : forall (f : Z -> Q) lo hi,
            (forall h, h ∈ hues -> lo < f h < hi) -> lo < np_median (map f hues) < hi).
  { intros f lo hi Hf. apply np_median_strictly_between; [apply Hmap|].
    intros x Hx. apply in_map_iff in Hx as (h & <- & Hh). apply Hf.
    by apply list_elem_of_In. }
  rewrite Forall_forall in Hall.
  assert (Hinj : forall a b : Z, (a < b)%Z -> inject_Z a < inject_Z b)
    by (intros; by rewrite <- Zlt_Qlt).
  destruct (existsb (fun h => (h <? 30)%Z) hues) eqn:Elow;
    [destruct (existsb (fun h => (150 <? h)%Z) hues) eqn:Ehigh|]; cbn [andb].
  - split; [apply py_fmod_range; done|]. intros Hseam. rewrite Forall_forall in Hseam.
    destruct (Hmed (fun h => inject_Z ((h + 90) mod 180)) 60 120) as [Hlo Hhi].
    { intros h Hh. specialize (Hall h Hh). specialize (Hseam h Hh). cbv beta in *.
      assert (60 < (h + 90) mod 180 < 120)%Z.
      { destruct Hseam as [Hl|Hu].
        - rewrite Z.mod_small by lia. lia.
        - replace (h + 90)%Z with ((h - 90) + 1 * 180)%Z by lia.
          rewrite Z_mod_plus_full, Z.mod_small by lia. lia. }
      split; [apply (Hinj 60%Z) | apply (Hinj _ 120%Z)]; lia. }
    set (m := np_median _) in *.
    destruct (Qlt_le_dec (m - 90) 0) as [Hneg|Hpos].
    + right. rewrite py_fmod_negative by lra. lra.
    + left. rewrite py_fmod_small by lra. lra.
  - assert (Hnohigh : forall h, h ∈ hues -> (h <= 150)%Z).
    { intros h Hh. destruct (Z_le_gt_dec h 150) as [|Hgt]; [done|]. exfalso.
      assert (existsb (fun h => (150 <? h)%Z) hues = true); [|congruence].
      apply existsb_exists. exists h. split; [by apply list_elem_of_In|].
      apply Z.ltb_lt. lia. }
    split.
    + destruct (Hmed inject_Z (-1) 180) as [Hlo Hhi].
      { intros h Hh. specialize (Hall h Hh).
        split; [apply (Hinj (-1)%Z) | apply (Hinj _ 180%Z)]; lia. }
      assert (Hge : 0 <= np_median (map inject_Z hues)); [|lra].
      apply np_median_ge; [apply Hmap|].
      intros x Hx. apply in_map_iff in Hx as (h & <- & Hh).
      apply list_elem_of_In in Hh. specialize (Hall h Hh).
      change 0 with (inject_Z 0). rewrite <- Zle_Qle. lia.
    + intros Hseam. rewrite Forall_forall in Hseam. left.
      destruct (Hmed inject_Z (-1) 30) as [Hlo Hhi]; [|done].
      intros h Hh. specialize (Hall h Hh). specialize (Hseam h Hh).
      specialize (Hnohigh h Hh).
      split; [apply (Hinj (-1)%Z) | apply (Hinj _ 30%Z)]; lia.
  - assert (Hnolow : forall h, h ∈ hues -> (30 <= h)%Z).
    { intros h Hh. destruct (Z_lt_ge_dec h 30) as [Hlt|]; [|lia]. exfalso.
      assert (existsb (fun h => (h <? 30)%Z) hues = true); [|congruence].
      apply existsb_exists. exists h. split; [by apply list_elem_of_In|].
      by apply Z.ltb_lt. }
    split.
    + destruct (Hmed inject_Z 29 180) as [Hlo Hhi]; [|lra].
      intros h Hh. specialize (Hall h Hh). specialize (Hnolow h Hh).
      split; [apply (Hinj 29%Z) | apply (Hinj _ 180%Z)]; lia.
    + intros Hseam. rewrite Forall_forall in Hseam. right.
      destruct (Hmed inject_Z 150 180) as [Hlo Hhi]; [|done].
      intros h Hh. specialize (Hall h Hh). specialize (Hseam h Hh).
      specialize (Hnolow h Hh).
      split; [apply (Hinj 150%Z) | apply (Hinj _ 180%Z)]; lia.
Qed.

Lemma circular_median_hue_range_witness :
  circular_median_hue [2; 178; 176]%Z < 30 \/ 150 < circular_median_hue [2; 178; 176]%Z.
Proof.
  apply (circular_median_hue_range [2; 178; 176]%Z).
  - discriminate.
  - repeat constructor; lia.
  - repeat constructor; lia.
Defined.
End ExtractorMore.

(** ** The pipeline and the heat map *)

Section Pipeline.
Import Num Config WellExtractor ColorClassifier MicCalculator Visualizer Main.
Local Open Scope Q_scope.

Lemma classify_wells_two_classes (wells : gmap (Z * Z) Well)
    (res : gmap (Z * Z) ClassifiedWell) k w :
  classify_wells wells = Ok res -> res !! k = Some w ->
  classification w = growth \/ classification w = inhibition.
Proof.
  intros Hres Hk. apply classify_wells_Ok_inv in Hres as (cd & _ & -> & Hnu).
  assert (Hnp : map_Forall (fun _ w => classification w ≠ partial)
                  (resolve_uncertain_wells (initial_classification wells cd))).
  { apply resolve_fold_no_partial. intros k' w' Hk'.
    destruct (initial_classification_lookup wells cd k') as (f & Hf & Hnp).
    rewrite Hk' in Hf. destruct (wells !! k'); [|done]. injection Hf as ->. apply Hnp. }
  pose proof (Hnp k w Hk) as Hp. pose proof (Hnu k w Hk) as Hu. cbn in Hp.
  destruct (classification w); auto; done.
Qed.

(** X20: the three stages compose.  When the extractor returns its wells
    and their colour means are not negative, classification and MIC
    calculation both return: the pipeline yields the eight rows of the MIC
    table and 96 classified wells, one for each well of the plate, each
    growth or inhibition.  An exception of the extractor is passed on. *)
Theorem run_pipeline_composes (set_iter : list Q -> list Q) (img : PlateImage)
    (wells : gmap (Z * Z) Well) :
  extract_wells set_iter img = Ok wells ->
  (forall k d, wells !! k = Some d -> rgb_nonneg (rgb_mean d)) ->
  exists results classified,
    run_pipeline set_iter img = Ok (results, classified)
    /\ classify_wells wells = Ok classified
    /\ calculate_mic classified = Ok results
    /\ length results = 8%nat
    /\ size classified = 96%nat
    /\ (forall k, is_Some (classified !! k) <-> k ∈ grid_keys)
    /\ (forall k w, classified !! k = Some w ->
          classification w = growth \/ classification w = inhibition).
Proof.
  intros Hext _. unfold run_pipeline. rewrite Hext.
  destruct (extract_wells_dom set_iter img wells Hext) as (_ & _ & _ & _ & Hdom & Hsize).
  destruct (proj2 (Hdom control_key)) as [cd Hcd];
    [apply (bool_decide_unpack _); by vm_compute|].
  pose proof (classify_wells_in_grid wells cd Hcd
                (fun k Hk => proj1 (Hdom k) Hk)) as Hcls.
  rewrite Hcls. set (classified := resolve_uncertain_wells _) in *.
  destruct (classify_wells_Ok_inv wells classified Hcls) as (_ & _ & _ & Hnu).
  assert (Hcdom : forall k, is_Some (classified !! k) <-> k ∈ grid_keys).
  { intros k. rewrite <- Hdom. unfold classified.
    rewrite resolve_uncertain_wells_dom.
    destruct (initial_classification_lookup wells cd k) as (f & -> & _).
    by rewrite fmap_is_Some. }
  assert (Hcount : exists n, count_final (map snd (map_to_list classified)) = Ok n).
  { apply count_final_Ok. rewrite Forall_forall. intros w Hw.
    apply list_elem_of_fmap in Hw as ([k w'] & -> & Hkw).
    apply elem_of_map_to_list in Hkw. by apply (Hnu k). }
  destruct Hcount as [n ->].
  destruct (proj2 (Hcdom control_key)) as [ctrl Hctrl];
    [apply Hdom; eauto|].
  destruct (calculate_mic_rows classified ctrl Hctrl) as (results & Hmic & Hlen & _).
  rewrite Hmic. exists results, classified.
  split; [done|]. split; [done|]. split; [done|]. split; [done|].
  split; [|split; [done | intros k w; by apply (classify_wells_two_classes wells)]].
  rewrite <- Hsize. clearbody classified.
  assert (Hd : dom classified = dom wells).
  { apply set_eq. intros k. rewrite !elem_of_dom, Hcdom. symmetry. apply Hdom. }
  by rewrite <- !size_dom, Hd.
Qed.

Lemma run_pipeline_composes_witness :
  exists results classified,
    run_pipeline (fun l => l) blank_image = Ok (results, classified)
    /\ length results = 8%nat /\ size classified = 96%nat.
Proof.
  destruct extract_wells_blank as [wells Hext].
  destruct (run_pipeline_composes (fun l => l) blank_image wells Hext)
    as (results & classified & Hrun & _ & _ & Hlen & Hsize & _).
  - intros k d Hk.
    destruct (extract_wells_dom _ _ _ Hext) as (grid & _ & _ & -> & _).
    rewrite lookup_fmap in Hk. destruct (grid !! k) as [slot|]; [|done].
    injection Hk as <-. unfold sample_slot. cbv zeta.
    destruct (_ || _); by vm_compute.
  - exists results, classified. split; [exact Hrun|]. split; [exact Hlen | exact Hsize].
Defined.

Lemma Qfloor_split (a : Q) (n : Z) :
  0 <= a <= inject_Z n ->
  (0 <= Qfloor a <= n)%Z /\ (0 <= Qfloor (inject_Z n - a) <= n)%Z
  /\ (n - 1 <= Qfloor a + Qfloor (inject_Z n - a) <= n)%Z.
Proof.
  intros [Ha0 Han].
  pose proof (Qfloor_le a) as H1. pose proof (Qlt_floor a) as H2.
  pose proof (Qfloor_le (inject_Z n - a)) as H3.
  pose proof (Qlt_floor (inject_Z n - a)) as H4.
  rewrite inject_Z_plus in H2, H4. change (inject_Z 1) with 1 in *.
  set (f := Qfloor a) in *. set (g := Qfloor (inject_Z n - a)) in *.
  assert (Hq : -1 < inject_Z f /\ -1 < inject_Z g
               /\ inject_Z f <= inject_Z n /\ inject_Z g <= inject_Z n
               /\ inject_Z f + inject_Z g <= inject_Z n
               /\ inject_Z n + -2 < inject_Z f + inject_Z g).
  { generalize dependent (inject_Z f). generalize dependent (inject_Z g).
    generalize dependent (inject_Z n). intros N HN G HG1 HG2 F HF1 HF2.
    repeat split; lra. }
  destruct Hq as (Hf0 & Hg0 & Hfn & Hgn & Hs1 & Hs2).
  change (-1) with (inject_Z (-1)) in Hf0, Hg0.
  change (-2) with (inject_Z (-2)) in Hs2.
  rewrite <- inject_Z_plus in Hs1. rewrite <- !inject_Z_plus in Hs2.
  rewrite <- Zlt_Qlt in Hf0. rewrite <- Zlt_Qlt in Hg0. rewrite <- Zlt_Qlt in Hs2.
  rewrite <- Zle_Qle in Hfn. rewrite <- Zle_Qle in Hgn. rewrite <- Zle_Qle in Hs1.
  lia.
Qed.

Ltac by_constants :=
  change (inject_Z 0) with 0; change (inject_Z 127) with 127;
  change (inject_Z 128) with 128; change (inject_Z 255) with 255;
  change (inject_Z 256) with 256; lra.

Lemma Qfloor_bounds (a : Q) (lo hi : Z) :
  inject_Z lo <= a -> a < inject_Z hi -> (lo <= Qfloor a < hi)%Z.
Proof.
  intros Hlo Hhi. split.
  - rewrite <- (Qfloor_Z lo). by apply Qfloor_resp_le.
  - rewrite Zlt_Qlt. eapply Qle_lt_trans; [apply Qfloor_le | done].
Qed.

(** X21: the heat map of scores in [0, 1].  Every well of the plate that
    the dictionary has gets one cell (96 cells when all are there); a cell is
    a 56 x 56 square inside the 800 x 560 canvas, right of and below the
    label margin; its fill has no blue, and green and red in 0..255 that add
    up to 254 or 255; the score is written in white on the cells that are at
    least as red as green, in black on the others. *)
Theorem create_score_heatmap_cells (classified : gmap (Z * Z) ClassifiedWell) :
  (forall k w, classified !! k = Some w -> 0 <= growth_score w <= 1) ->
  (length (create_score_heatmap classified) <= 96)%nat
  /\ ((forall k, k ∈ grid_keys -> is_Some (classified !! k)) ->
      length (create_score_heatmap classified) = 96%nat)
  /\ (forall k w, k ∈ grid_keys -> classified !! k = Some w ->
        heatmap_cell (fst k) (snd k) (growth_score w)
          ∈ create_score_heatmap classified)
  /\ Forall (fun cell =>
               let '(x1, y1, x2, y2) := rect cell in
               let '(b, g, r) := fill cell in
               (margin < x1 /\ x2 = x1 + 56 /\ x2 < heatmap_w
                /\ margin < y1 /\ y2 = y1 + 56 /\ y2 < heatmap_h
                /\ b = 0 /\ 0 <= g <= 255 /\ 0 <= r <= 255 /\ 254 <= g + r <= 255
                /\ ((text_color cell = (255, 255, 255) /\ g <= 127 <= r)
                    \/ (text_color cell = (0, 0, 0) /\ r <= 127 <= g)))%Z)
            (create_score_heatmap classified).
Proof.
  intros Hscore.
  assert (Heq : create_score_heatmap classified
                = omap (fun k => (fun w => heatmap_cell (fst k) (snd k) (growth_score w))
                                   <$> classified !! k) grid_keys).
  { unfold create_score_heatmap.
    generalize grid_keys. intros l. induction l as [|[r c] l IH]; [done|].
    cbn [omap list_omap]. cbn [fst snd]. rewrite <- IH.
    by destruct (classified !! (r, c)). }
  rewrite Heq.
  assert (Hlen : length grid_keys = 96%nat) by reflexivity.
  split; [rewrite <- Hlen; apply length_omap_le|]. split; [|split].
  - intros Hall. rewrite <- Hlen. revert Hall. generalize grid_keys.
    intros l Hall. induction l as [|k l IH]; [done|]. cbn [omap list_omap].
    destruct (Hall k) as [w ->]; [by left|]. cbn. f_equal. apply IH.
    intros k' Hk'. apply Hall. by right.
  - intros k w Hin Hw. apply list_elem_of_omap. exists k.
    split; [exact Hin|]. rewrite Hw. reflexivity.
  - apply Forall_forall. intros cell Hcell.
    apply list_elem_of_omap in Hcell as ([r c] & Hin & Hcell). cbn [fst snd] in Hcell.
    destruct (classified !! (r, c)) as [w|] eqn:Hw; [|done]. injection Hcell as <-.
    apply elem_of_grid_keys in Hin. unfold ROWS, COLS in Hin.
    specialize (Hscore _ _ Hw). unfold heatmap_cell. cbv zeta.
    cbn [rect fill text_color].
    unfold heatmap_w, heatmap_h, margin, cell_size, ROWS, COLS.
    set (s := growth_score w) in *.
    assert (Ha : 0 <= 255 * s <= inject_Z 255)
      by (change (inject_Z 255) with 255; lra).
    destruct (Qfloor_split (255 * s) 255 Ha) as (Hg & Hr & Hsum).
    assert (Hrv : py_int (255 * (1 - s)) = Qfloor (inject_Z 255 - 255 * s)).
    { unfold py_int. destruct (Qltb (255 * (1 - s)) 0) eqn:E;
        [apply Qltb_true in E; lra|].
      apply Qfloor_comp. change (inject_Z 255) with 255. ring. }
    assert (Hgv : py_int (255 * s) = Qfloor (255 * s)).
    { unfold py_int. destruct (Qltb (255 * s) 0) eqn:E;
        [apply Qltb_true in E; lra | done]. }
    rewrite Hrv, Hgv.
    assert (Htext : (Qltb s (5 # 10) = true
                     /\ (Qfloor (255 * s) <= 127 <= Qfloor (inject_Z 255 - 255 * s))%Z)
                    \/ (Qltb s (5 # 10) = false
                        /\ (Qfloor (inject_Z 255 - 255 * s) <= 127
                            <= Qfloor (255 * s))%Z)).
    { destruct (Qltb s (5 # 10)) eqn:E;
        [apply Qltb_true in E; left | apply Qltb_false in E; right];
        (split; [done|]).
      - pose proof (Qfloor_bounds (255 * s) 0 128) as H1.
        pose proof (Qfloor_bounds (inject_Z 255 - 255 * s) 127 256) as H2.
        destruct H1; [by_constants | by_constants |].
        destruct H2; [by_constants | by_constants |]. lia.
      - pose proof (Qfloor_bounds (255 * s) 127 256) as H1.
        pose proof (Qfloor_bounds (inject_Z 255 - 255 * s) 0 128) as H2.
        destruct H1; [by_constants | by_constants |].
        destruct H2; [by_constants | by_constants |]. lia. }
    destruct Htext as [[-> ?] | [-> ?]]; repeat split; try lia;
      [left | right]; (split; [reflexivity | lia]).
Qed.

Lemma create_score_heatmap_cells_witness :
  (length (create_score_heatmap (demo_scored (90#100))) <= 96)%nat.
Proof.
  apply (create_score_heatmap_cells (demo_scored (90#100))).
  intros k w Hk. unfold demo_scored in Hk.
  apply lookup_insert_Some in Hk as [[_ <-]|[_ Hk]]; [by vm_compute|].
  apply lookup_insert_Some in Hk as [[_ <-]|[_ Hk]]; [by vm_compute|].
  by rewrite lookup_empty in Hk.
Defined.
End Pipeline.

(** ** The plate region *)


Section PlateRegion.
Import Num Config WellExtractor PlateDetector.
Local Open Scope Z_scope.

Ltac decide_ltb :=
  repeat match goal with
         | |- context [(?a <? ?b)%Z] =>
             destruct (Z.ltb_spec a b); try lia
         end.

(** X22: [order_points] on an upright rectangle.  Whatever the order of
    its four corners, the result is top-left, top-right, bottom-right,
    bottom-left, and the warp has the size of the rectangle. *)
Theorem order_points_rectangle (x0 y0 x1 y1 : Z) (pts : list (Z * Z)) :
  x0 < x1 -> y0 < y1 ->
  Permutation pts [(x0, y0); (x1, y0); (x1, y1); (x0, y1)] ->
  order_points pts = [(x0, y0); (x1, y0); (x1, y1); (x0, y1)]
  /\ four_point_transform (order_points pts)
     = Warped [(x0, y0); (x1, y0); (x1, y1); (x0, y1)] (x1 - x0) (y1 - y0).
Proof.
  intros Hx Hy Hperm.
  assert (Hord : order_points pts = [(x0, y0); (x1, y0); (x1, y1); (x0, y1)]).
  { symmetry in Hperm. apply permutations_Permutation in Hperm.
    cbn in Hperm.
    repeat (apply elem_of_cons in Hperm as [-> | Hperm];
            [unfold order_points, argmin, argmax; cbn [map fst snd argmin_from argmax_from];
             decide_ltb; reflexivity|]).
    by apply elem_of_nil in Hperm. }
  split; [exact Hord|]. rewrite Hord. unfold four_point_transform. cbn [nth].
  unfold norm2. cbn [fst snd].
  replace ((x1 - x0) * (x1 - x0) + (y1 - y1) * (y1 - y1)) with ((x1 - x0) * (x1 - x0))
    by ring.
  replace ((x1 - x0) * (x1 - x0) + (y0 - y0) * (y0 - y0)) with ((x1 - x0) * (x1 - x0))
    by ring.
  replace ((x1 - x1) * (x1 - x1) + (y0 - y1) * (y0 - y1)) with ((y1 - y0) * (y1 - y0))
    by ring.
  replace ((x0 - x0) * (x0 - x0) + (y0 - y1) * (y0 - y1)) with ((y1 - y0) * (y1 - y0))
    by ring.
  rewrite !Z.max_id, !Z.sqrt_square by lia. reflexivity.
Qed.

Lemma order_points_rectangle_witness :
  order_points [(10, 90); (10, 20); (110, 90); (110, 20)]
  = [(10, 20); (110, 20); (110, 90); (10, 90)].
Proof.
  apply (order_points_rectangle 10 20 110 90); [lia | lia |].
  apply (proj1 (permutations_Permutation _ _)). apply (bool_decide_unpack _).
  by vm_compute.
Defined.

(** X23: [order_points] on a square standing on a corner.  Both sums and
    both differences tie, the first index wins each tie, and the left
    corner is returned twice, as top-left and as bottom-left: the bottom
    corner is lost and the result is not a reordering of the corners. *)
Theorem order_points_diamond (cx cy a : Z) :
  0 < a ->
  order_points (diamond cx cy a)
  = [(cx - a, cy); (cx, cy - a); (cx + a, cy); (cx - a, cy)]
  /\ ((cx, cy + a) ∉ order_points (diamond cx cy a))
  /\ ~ Permutation (order_points (diamond cx cy a)) (diamond cx cy a).
Proof.
  intros Ha.
  assert (Hord : order_points (diamond cx cy a)
                 = [(cx - a, cy); (cx, cy - a); (cx + a, cy); (cx - a, cy)]).
  { unfold order_points, diamond, argmin, argmax.
    cbn [map fst snd argmin_from argmax_from]. decide_ltb. reflexivity. }
  assert (Hnot : (cx, cy + a) ∉ order_points (diamond cx cy a)).
  { rewrite Hord. intros Hin.
    repeat (apply elem_of_cons in Hin as [Heq | Hin]; [injection Heq; intros; lia|]).
    by apply elem_of_nil in Hin. }
  split; [exact Hord|]. split; [exact Hnot|].
  intros Hperm. apply Hnot. rewrite Hperm. unfold diamond.
  do 3 right. left.
Qed.

Lemma order_points_diamond_witness :
  order_points (diamond 5 5 5) = [(0, 5); (5, 0); (10, 5); (0, 5)].
Proof. apply (order_points_diamond 5 5 5). lia. Defined.

Lemma insert_by_area_Permutation c l : Permutation (insert_by_area c l) (c :: l).
Proof.
  induction l as [|y l IH]; cbn; [done|].
  destruct (Qltb (area c) (area y)); [|done].
  etrans; [apply perm_skip, IH | apply perm_swap].
Qed.

Lemma sort_by_area_Permutation l : Permutation (sort_by_area l) l.
Proof.
  induction l as [|c l IH]; cbn; [done|].
  etrans; [apply insert_by_area_Permutation | by apply perm_skip].
Qed.

Lemma insert_by_area_sorted c l :
  StronglySorted (fun a b => (area b <= area a)%Q) l ->
  StronglySorted (fun a b => (area b <= area a)%Q) (insert_by_area c l).
Proof.
  induction 1 as [|y l Hs IH Hall]; cbn; [repeat constructor|].
  destruct (Qltb (area c) (area y)) eqn:E.
  - apply Qltb_true in E. constructor; [done|].
    rewrite (insert_by_area_Permutation c l). constructor; [|done].
    by apply Qlt_le_weak.
  - apply Qltb_false in E. constructor; [by constructor|].
    constructor; [done|]. eapply Forall_impl; [exact Hall|].
    intros z Hz. cbn in Hz. by apply Qle_trans with (area y).
Qed.

Lemma sort_by_area_sorted l :
  StronglySorted (fun a b => (area b <= area a)%Q) (sort_by_area l).
Proof.
  induction l as [|c l IH]; cbn; [constructor | by apply insert_by_area_sorted].
Qed.

Lemma sort_by_area_head l c0 rest :
  sort_by_area l = c0 :: rest ->
  c0 ∈ l /\ forall c, c ∈ l -> (area c <= area c0)%Q.
Proof.
  intros Hsort. pose proof (sort_by_area_Permutation l) as Hperm.
  pose proof (sort_by_area_sorted l) as Hs. rewrite Hsort in Hperm, Hs.
  split; [rewrite <- Hperm; by left|].
  intros c Hc. rewrite <- Hperm in Hc. apply StronglySorted_inv in Hs as [_ Hall].
  apply elem_of_cons in Hc as [-> | Hc]; [apply Qle_refl|].
  rewrite Forall_forall in Hall. by apply Hall.
Qed.

Lemma aspect_band (w h : Z) :
  0 < h ->
  Qltb (12#10) (inject_Z w / inject_Z h) && Qltb (inject_Z w / inject_Z h) (18#10) = true ->
  12 * h < 10 * w < 18 * h.
Proof.
  intros Hh [H1%Qltb_true H2%Qltb_true]%andb_true_iff.
  assert (Hq : (0 < inject_Z h)%Q) by (change 0%Q with (inject_Z 0); by rewrite <- Zlt_Qlt).
  assert (Hwh : (inject_Z w / inject_Z h * inject_Z h == inject_Z w)%Q).
  { rewrite Qmult_comm. apply Qmult_div_r. intros Hz. rewrite Hz in Hq.
    by apply Qlt_irrefl in Hq. }
  apply (Qmult_lt_r _ _ _ Hq) in H1, H2. rewrite Hwh in H1, H2.
  unfold Qlt in H1, H2. cbn in H1, H2. lia.
Qed.

(** X24: the region [detect_plate] returns, for contours whose bounding
    rectangles are not empty and lie inside the image.  It raises nothing
    (the aspect ratio never divides by zero).  A warp comes from a contour
    with a four-vertex polygon.  A crop is taken around the bounding
    rectangle of a contour of largest area: it lies inside the image,
    contains that rectangle, is between 1.2 and 1.8 times as wide as high,
    and the returned image has exactly its size. *)
Theorem detect_plate_region (img_h img_w : Z) (contours : list Contour) :
  (forall c, c ∈ contours -> valid_bounding img_h img_w (bounding c)) ->
  exists p,
    detect_plate img_h img_w contours = Ok p
    /\ (contours = [] -> p = FullImage)
    /\ match p with
       | FullImage => True
       | Warped rect max_w max_h =>
           exists cnt, cnt ∈ contours /\ length (approx cnt) = 4%nat
                       /\ rect = order_points (approx cnt)
                       /\ 0 <= max_w /\ 0 <= max_h
       | Cropped x y w h =>
           exists c0 bx by_ bw bh,
             c0 ∈ contours
             /\ (forall c, c ∈ contours -> (area c <= area c0)%Q)
             /\ bounding c0 = (bx, by_, bw, bh)
             /\ 0 <= x <= bx /\ bx + bw <= x + w <= img_w
             /\ 0 <= y <= by_ /\ by_ + bh <= y + h <= img_h
             /\ 12 * h < 10 * w < 18 * h
             /\ plate_shape img_h img_w p = (h, w)
       end.
Proof.
  intros Hvalid. unfold detect_plate.
  destruct contours as [|c cs]; [exists FullImage; done|].
  set (contours := c :: cs) in *.
  pose proof (sort_by_area_Permutation contours) as Hperm.
  destruct (List.find _ (take 5 (sort_by_area contours))) as [cnt|] eqn:Hfind.
  - apply find_some in Hfind as [Hin Hlen]. apply Nat.eqb_eq in Hlen.
    eexists. split; [reflexivity|]. split; [done|].
    unfold four_point_transform. cbv zeta. exists cnt.
    split; [|split; [done|split; [done|split; apply Z.sqrt_nonneg]]].
    rewrite <- Hperm. apply list_elem_of_In in Hin.
    by eapply (subseteq_take 5).
  - destruct (sort_by_area contours) as [|c0 rest] eqn:Hsort.
    { apply Permutation_nil_l in Hperm. done. }
    destruct (sort_by_area_head _ _ _ Hsort) as [Hc0 Hmax].
    specialize (Hvalid c0 Hc0). unfold valid_bounding in Hvalid.
    destruct (bounding c0) as [[[bx by_] bw] bh] eqn:Hb.
    cbv zeta.
    set (x := Z.max 0 (bx - 5)). set (y := Z.max 0 (by_ - 5)).
    set (w := Z.min (img_w - x) (bw + 2 * 5)). set (h := Z.min (img_h - y) (bh + 2 * 5)).
    assert (Hh : 0 < h) by lia.
    assert (Hdiv : py_div (inject_Z w) (inject_Z h)
                   = Ok (inject_Z w / inject_Z h)%Q).
    { unfold py_div. destruct (Qeq_bool (inject_Z h) 0) eqn:E; [|done].
      apply Qeq_bool_eq in E. exfalso. unfold Qeq in E. cbn in E. lia. }
    rewrite Hdiv. cbn [mbind py_bind].
    destruct (Qltb (12 # 10) (inject_Z w / inject_Z h)
              && Qltb (inject_Z w / inject_Z h) (18 # 10)) eqn:Hasp;
      [|exists FullImage; done].
    eexists. split; [reflexivity|]. split; [done|].
    exists c0, bx, by_, bw, bh. split; [done|]. split; [done|]. split; [done|].
    pose proof (aspect_band w h Hh Hasp).
    repeat split; try lia.
    cbn [plate_shape]. unfold py_slice_len. cbv zeta.
    repeat match goal with
           | |- context [(?a <? ?b)%Z] => destruct (Z.ltb_spec a b); try lia
           end.
    f_equal; lia.
Qed.

Lemma detect_plate_region_witness :
  exists p,
    detect_plate 800 1200 [mkContour 1000 [(0, 0); (9, 0); (9, 9)] (100, 100, 900, 600)]
    = Ok p.
Proof.
  destruct (detect_plate_region 800 1200
              [mkContour 1000 [(0, 0); (9, 0); (9, 9)] (100, 100, 900, 600)])
    as (p & Hp & _).
  - intros c Hc. apply list_elem_of_singleton in Hc as ->. cbn. lia.
  - exists p. exact Hp.
Defined.
End PlateRegion.

Section BlobSteps.
Import Num Config WellExtractor BlobFit.
Local Open Scope Q_scope.

(** X25: the step validation of the blob fit.  For positive expected steps
    the division of the two estimates cannot fail, both validated steps are
    positive and their ratio lies in [0.85, 1.15]: a pair of estimates
    whose ratio is inside that band is kept, and a pair outside it is
    replaced, on both axes, by the average of the two estimates. *)
Theorem validated_steps_ratio (centers : list (Q * Q)) (expected_sx expected_sy : Q) :
  0 < expected_sx -> 0 < expected_sy ->
  let est_x := default expected_sx
                 (_estimate_step_from_pairs centers 0 1 expected_sx (expected_sy * (4#10))) in
  let est_y := default expected_sy
                 (_estimate_step_from_pairs centers 1 0 expected_sy (expected_sx * (4#10))) in
  exists step_x step_y,
    validated_steps centers expected_sx expected_sy = Ok (step_x, step_y)
    /\ 0 < step_x /\ 0 < step_y
    /\ 85#100 <= step_x / step_y <= 115#100
    /\ (85#100 <= est_x / est_y <= 115#100 -> (step_x, step_y) = (est_x, est_y))
    /\ (~ 85#100 <= est_x / est_y <= 115#100 ->
        step_x = (est_x + est_y) / 2 /\ step_y = (est_x + est_y) / 2).
Proof.
  intros Hx Hy. cbv zeta. unfold validated_steps. cbv zeta.
  pose proof (estimate_step_band centers 0 1 expected_sx (expected_sy * (4#10)) Hx) as Hbx.
  pose proof (estimate_step_band centers 1 0 expected_sy (expected_sx * (4#10)) Hy) as Hby.
  cbv zeta in Hbx, Hby.
  set (sx := default expected_sx _) in *. set (sy := default expected_sy _) in *.
  assert (Hsx : 0 < sx) by lra. assert (Hsy : 0 < sy) by lra.
  unfold py_div. destruct (Qeq_bool sy 0) eqn:E;
    [apply Qeq_bool_eq in E; lra|]. cbn [mbind py_bind].
  destruct (Qltb (sx / sy) (85 # 100) || Qltb (115 # 100) (sx / sy)) eqn:Hout.
  - eexists _, _. split; [reflexivity|].
    assert (Havg : 0 < (sx + sy) / 2)
      by (unfold Qdiv; change (/ 2) with (1#2); lra).
    split; [done|]. split; [done|]. split; [|split].
    + assert (Hone : (sx + sy) / 2 / ((sx + sy) / 2) == 1) by (field; lra).
      rewrite Hone. split; by vm_compute.
    + intros [Hlo Hhi]. apply orb_true_iff in Hout as [H%Qltb_true | H%Qltb_true]; lra.
    + done.
  - apply orb_false_iff in Hout as [H1%Qltb_false H2%Qltb_false].
    eexists _, _. split; [reflexivity|]. split; [done|]. split; [done|].
    split; [done|]. split; [done|]. intros Hn. destruct Hn. done.
Qed.

Lemma validated_steps_ratio_witness :
  exists step_x step_y,
    validated_steps (map (fun c => (c_x c, c_y c)) offpitch_circles) 100 100
    = Ok (step_x, step_y)
    /\ 85#100 <= step_x / step_y <= 115#100.
Proof.
  destruct (validated_steps_ratio (map (fun c => (c_x c, c_y c)) offpitch_circles)
              100 100) as (sx & sy & Hv & _ & _ & Hr & _); [done | done |].
  exists sx, sy. split; [exact Hv | exact Hr].
Defined.
End BlobSteps.
